(** * Terra::MemoryManager — a pool allocator with fixed size classes

    A shallow embedding of [src/memory_manager.cpp], [memory_manager.h] and
    the allocator adapter [memory_allocator.h], followed by the properties
    of the engine that the design document states about them.

    Conventions of the embedding (LP64 target):
    - [std::size_t], [std::uint64_t] and pointers are 64-bit values,
      represented in [Z] with the wrap-around written out ([wrap64]);
    - a [std::vector] is a [list], indexed with stdpp's lookup; an index
      out of range is undefined behaviour of [operator[]] and is reported
      as [Undefined];
    - pointer arithmetic does not wrap: a subtraction that steps below
      address 0 is undefined behaviour ([pointer_minus]);
    - raw memory is a finite map from byte addresses to bytes; a byte that
      was never written reads as 0, access violations are not represented;
    - the engine's own vectors grow without failing: [push_back] and
      [emplace_back] are appends;
    - [std::sort] enters the constructor as a parameter bound by the
      contract of the C++ standard; module [std] has the algorithm of the
      GNU C++ library for the cases where the implementation matters;
    - the engine object, its logger output and the part of the process it
      touches (memory, the record of [new[]]/[delete[]] calls) form one
      [State], threaded through a state-and-exception monad. *)

From Stdlib Require Import ZArith Lia String.
From Stdlib Require Import Sorting.Permutation Sorting.Sorted.
From stdpp Require Import base list gmap.

Open Scope Z_scope.

Module MemoryManager.

(** ** Machine integers *)

Definition SIZE_MAX : Z := 2 ^ 64 - 1.

Definition wrap64 (x : Z) : Z := x mod 2 ^ 64.

Definition nullptr : Z := 0.

(** ** Block layout (anonymous namespace of memory_manager.cpp) *)

(* struct MemoryHeader { MemoryManager *memory_manager; std::size_t index;
                         std::uint64_t marker; } *)
Definition sizeof_MemoryHeader : Z := 24.
Definition offsetof_memory_manager : Z := 0.
Definition offsetof_index : Z := 8.
Definition offsetof_marker : Z := 16.

(* struct MemoryTrailer { std::uint64_t marker; } *)
Definition sizeof_MemoryTrailer : Z := 8.

Definition Header_Marker_Value : Z := 0xC1F03D8B4A725378.
Definition Trailer_Marker_Value : Z := 0x215F8A1A6853658B.

(** ** Profile and statistics (memory_manager.h) *)

Module MemoryDescriptor.
Record t : Type := mk {
    size : Z;                 (* Size of memory blocks *)
    minimum : Z;              (* Minimum to preallocate *)
    maximum : Z;              (* Maximum to retain available *)
    excess_allowed : bool     (* Allow excess heap allocations *)
  }.

Definition set_maximum (v : Z) (d : t) : t :=
    mk (size d) (minimum d) v (excess_allowed d).
End MemoryDescriptor.

Module Statistics.
Record t : Type := mk {
    size : Z;
    allocations : Z;
    deallocations : Z;
    corruption_count : Z;
    max_outstanding : Z;
    outstanding : Z;
    unfulfilled : Z
  }.

  (* Statistics{} followed by the assignment of [size] *)
Definition zero (sz : Z) : t := mk sz 0 0 0 0 0 0.

Definition set_allocations (v : Z) (s : t) : t :=
    mk (size s) v (deallocations s) (corruption_count s)
       (max_outstanding s) (outstanding s) (unfulfilled s).
Definition set_deallocations (v : Z) (s : t) : t :=
    mk (size s) (allocations s) v (corruption_count s)
       (max_outstanding s) (outstanding s) (unfulfilled s).
Definition set_corruption_count (v : Z) (s : t) : t :=
    mk (size s) (allocations s) (deallocations s) v
       (max_outstanding s) (outstanding s) (unfulfilled s).
Definition set_max_outstanding (v : Z) (s : t) : t :=
    mk (size s) (allocations s) (deallocations s) (corruption_count s)
       v (outstanding s) (unfulfilled s).
Definition set_outstanding (v : Z) (s : t) : t :=
    mk (size s) (allocations s) (deallocations s) (corruption_count s)
       (max_outstanding s) v (unfulfilled s).
Definition set_unfulfilled (v : Z) (s : t) : t :=
    mk (size s) (allocations s) (deallocations s) (corruption_count s)
       (max_outstanding s) (outstanding s) v.
End Statistics.

Abbreviation MemoryProfile := (list MemoryDescriptor.t).

(** ** Raw memory *)

(* The bytes that have been written, by address.  An address that was never
   written reads as 0: access violations are not represented, so what is
   proved of a call that reads through a pointer is proved for pointers
   whose target the program may read. *)
Abbreviation Memory := (gmap Z Z).

Definition load8 (m : Memory) (a : Z) : Z := default 0 (m !! a).

Definition store8 (m : Memory) (a : Z) (v : Z) : Memory :=
  <[a := v mod 256]> m.

(* little-endian 64-bit accesses *)
Fixpoint load_bytes (m : Memory) (a : Z) (n : nat) : Z :=
  match n with
  | O => 0
  | S n' => load8 m a + 256 * load_bytes m (a + 1) n'
  end.

Fixpoint store_bytes (m : Memory) (a : Z) (n : nat) (v : Z) : Memory :=
  match n with
  | O => m
  | S n' => store_bytes (store8 m a v) (a + 1) n' (v / 256)
  end.

Definition load64 (m : Memory) (a : Z) : Z := load_bytes m a 8.
Definition store64 (m : Memory) (a : Z) (v : Z) : Memory := store_bytes m a 8 v.

(** ** Logger output *)

Inductive Severity := info | warning | error.

Inductive LogItem :=
| Text (s : string)
| Num (n : Z).

Definition LogLine : Type := Severity * list LogItem.

(** ** The engine object and its environment *)

Record State : Type := mkState {
  (* MemoryManager *)
  this : Z;                        (* address of the object *)
  profile : MemoryProfile;
  allocations : list (list Z);     (* std::vector<std::vector<uint8_t *>> *)
  statistics : list Statistics.t;
  logger : list LogLine;           (* lines flushed so far *)
  (* environment *)
  memory : Memory;
  heap_requests : nat;             (* number of new[] expressions evaluated *)
  heap_released : list Z           (* arguments of delete[], latest first *)
}.

Definition set_profile (v : MemoryProfile) (s : State) : State :=
  mkState (this s) v (allocations s) (statistics s) (logger s)
          (memory s) (heap_requests s) (heap_released s).
Definition set_allocations (v : list (list Z)) (s : State) : State :=
  mkState (this s) (profile s) v (statistics s) (logger s)
          (memory s) (heap_requests s) (heap_released s).
Definition set_statistics (v : list Statistics.t) (s : State) : State :=
  mkState (this s) (profile s) (allocations s) v (logger s)
          (memory s) (heap_requests s) (heap_released s).
Definition set_logger (v : list LogLine) (s : State) : State :=
  mkState (this s) (profile s) (allocations s) (statistics s) v
          (memory s) (heap_requests s) (heap_released s).
Definition set_memory (v : Memory) (s : State) : State :=
  mkState (this s) (profile s) (allocations s) (statistics s) (logger s)
          v (heap_requests s) (heap_released s).
Definition set_heap_requests (v : nat) (s : State) : State :=
  mkState (this s) (profile s) (allocations s) (statistics s) (logger s)
          (memory s) v (heap_released s).
Definition set_heap_released (v : list Z) (s : State) : State :=
  mkState (this s) (profile s) (allocations s) (statistics s) (logger s)
          (memory s) (heap_requests s) v.

(** ** State-and-exception monad *)

Inductive exn := bad_alloc | bad_array_new_length.

Inductive outcome (A : Type) : Type :=
| Ret (a : A) (s : State)        (* normal completion *)
| Throw (e : exn) (s : State)    (* a C++ exception leaves the function *)
| Undefined.                     (* undefined behaviour *)
Arguments Ret {A} a s.
Arguments Throw {A} e s.
Arguments Undefined {A}.

Definition M (A : Type) : Type := State -> outcome A.

Definition ret {A} (a : A) : M A := fun s => Ret a s.

Definition bind {A B} (c : M A) (k : A -> M B) : M B :=
  fun s =>
    match c s with
    | Ret a s' => k a s'
    | Throw e s' => Throw e s'
    | Undefined => Undefined
    end.

Definition throw {A} (e : exn) : M A := fun s => Throw e s.
Definition undefined {A} : M A := fun _ => Undefined.
Definition get : M State := fun s => Ret s s.
Definition modify (f : State -> State) : M unit := fun s => Ret tt (f s).

Notation "x <- c ;; k" := (bind c (fun x => k))
  (at level 100, c at next level, right associativity).
Notation "c ;; k" := (bind c (fun _ => k))
  (at level 100, right associativity).

(* operator[] of std::vector *)
Definition at_index {A} (v : list A) (i : nat) : M A :=
  match v !! i with
  | Some x => ret x
  | None => undefined
  end.

Definition profile_at (i : nat) : M MemoryDescriptor.t :=
  s <- get ;; at_index (profile s) i.
Definition allocations_at (i : nat) : M (list Z) :=
  s <- get ;; at_index (allocations s) i.
Definition statistics_at (i : nat) : M Statistics.t :=
  s <- get ;; at_index (statistics s) i.

Definition update_profile (i : nat) (f : MemoryDescriptor.t -> MemoryDescriptor.t)
  : M unit :=
  d <- profile_at i ;;
  modify (fun s => set_profile (<[i := f d]> (profile s)) s).
(* push_back and emplace_back are appends: the engine's own vectors are
   taken to grow without failing. *)
Definition update_allocations (i : nat) (f : list Z -> list Z) : M unit :=
  pool <- allocations_at i ;;
  modify (fun s => set_allocations (<[i := f pool]> (allocations s)) s).
Definition update_statistics (i : nat) (f : Statistics.t -> Statistics.t)
  : M unit :=
  st <- statistics_at i ;;
  modify (fun s => set_statistics (<[i := f st]> (statistics s)) s).

Definition log (lvl : Severity) (items : list LogItem) : M unit :=
  modify (fun s => set_logger (logger s ++ [(lvl, items)]) s).

Definition write64 (a v : Z) : M unit :=
  modify (fun s => set_memory (store64 (memory s) a v) s).
Definition read64 (a : Z) : M Z :=
  s <- get ;; ret (load64 (memory s) a).

(* delete[] block *)
Definition operator_delete (block : Z) : M unit :=
  modify (fun s => set_heap_released (block :: heap_released s) s).

(* [p - n] on a std::uint8_t *: pointer arithmetic does not wrap around,
   stepping below address 0 is undefined behaviour. *)
Definition pointer_minus (p n : Z) : M Z :=
  if p <? n then undefined else ret (wrap64 (p - n)).

(** ** The system allocator *)

(* What a new-expression [new std::uint8_t[n]] can do: yield a pointer, or
   leave by throwing std::bad_alloc, which is how the throwing form used by
   the engine reports exhaustion.  The engine also tests the pointer against
   nullptr, so the pointer value is kept as it comes. *)
Inductive NewResult :=
| NewPtr (a : Z)
| NewThrows.

(* std::vector::empty *)
Definition vec_empty {A} (v : list A) : bool :=
  match v with
  | [] => true
  | _ :: _ => false
  end.

(* the comparison object handed to std::sort by the constructor *)
Definition size_less (a b : MemoryDescriptor.t) : bool :=
  MemoryDescriptor.size a <? MemoryDescriptor.size b.

Section Engine.

(* [operator_new k n]: the result of the k-th new-expression evaluated in
   the process, asked for [n] bytes. *)
Variable operator_new : nat -> Z -> NewResult.

Definition new_array (n : Z) : M Z :=
  fun s =>
    let s' := set_heap_requests (S (heap_requests s)) s in
    match operator_new (heap_requests s) n with
    | NewPtr a => Ret a s'
    | NewThrows => Throw bad_alloc s'
    end.

(** *** MemoryManager::PerformAllocation *)

Definition PerformAllocation (index : nat) : M bool :=
  (* Perform no allocation if beyond constraints *)
  d <- profile_at index ;;
  beyond <-
    (if negb (MemoryDescriptor.maximum d =? 0) then
       if negb (MemoryDescriptor.excess_allowed d) then
         pool <- allocations_at index ;;
         st <- statistics_at index ;;
         ret (MemoryDescriptor.maximum d <=?
                wrap64 (Z.of_nat (length pool) + Statistics.outstanding st))
       else ret false
     else ret false) ;;
  if (beyond : bool) then ret false
  else
    (* Allocate the requested memory block *)
    block <- new_array (wrap64 (sizeof_MemoryHeader + MemoryDescriptor.size d
                                + sizeof_MemoryTrailer)) ;;
    if block =? nullptr then
      log error [Text "Failed to allocate heap memory"] ;;
      ret false
    else
      (* Populate the header *)
      s <- get ;;
      write64 (wrap64 (block + offsetof_memory_manager)) (this s) ;;
      write64 (wrap64 (block + offsetof_index)) (Z.of_nat index) ;;
      write64 (wrap64 (block + offsetof_marker)) Header_Marker_Value ;;
      (* Populate the trailer *)
      write64 (wrap64 (block + sizeof_MemoryHeader + MemoryDescriptor.size d))
              Trailer_Marker_Value ;;
      (* Place the allocated memory into the deque *)
      update_allocations index (fun pool => pool ++ [block]) ;;
      ret true.

(** *** MemoryManager::Allocate *)

Definition count_allocation (st : Statistics.t) : Statistics.t :=
  let st1 := Statistics.set_allocations
               (wrap64 (Statistics.allocations st + 1)) st in
  let st2 := Statistics.set_outstanding
               (wrap64 (Statistics.outstanding st1 + 1)) st1 in
  Statistics.set_max_outstanding
    (Z.max (Statistics.outstanding st2) (Statistics.max_outstanding st2)) st2.

Definition count_unfulfilled (st : Statistics.t) : Statistics.t :=
  Statistics.set_unfulfilled (wrap64 (Statistics.unfulfilled st + 1)) st.

(* The loop [for (index = 0; index < profile.size(); index++)]; [remaining]
   is [profile.size() - index], the profile being constant in the loop. *)
Fixpoint Allocate_loop (remaining : nat) (index : nat) (size : Z) : M Z :=
  match remaining with
  | O => ret nullptr
  | S remaining' =>
    d <- profile_at index ;;
    (* If the descriptor indicates memory is too small, keep looking *)
    if MemoryDescriptor.size d <? size then
      Allocate_loop remaining' (S index) size
    else
      (* If no memory blocks are available and allocation fails, keep looking *)
      pool <- allocations_at index ;;
      failed <-
        (if vec_empty pool then
           ok <- PerformAllocation index ;; ret (negb ok)
         else ret false) ;;
      if (failed : bool) then
        (* Note a fulfillment attempt failed *)
        update_statistics index count_unfulfilled ;;
        Allocate_loop remaining' (S index) size
      else
        (* There should be a memory block, but double-check out of paranoia *)
        pool' <- allocations_at index ;;
        match last pool' with
        | Some block =>
          (* Update various statistics *)
          update_statistics index count_allocation ;;
          (* Grab a memory block off the back *)
          update_allocations index (fun pool => removelast pool) ;;
          (* Return a pointer just after the MemoryHeader structure *)
          ret (wrap64 (block + sizeof_MemoryHeader))
        | None => Allocate_loop remaining' (S index) size
        end
  end.

Definition Allocate (size : Z) : M Z :=
  s <- get ;;
  Allocate_loop (length (profile s)) 0 size.

(** *** MemoryManager::Free *)

Definition count_deallocation (st : Statistics.t) : Statistics.t :=
  let st1 := Statistics.set_deallocations
               (wrap64 (Statistics.deallocations st + 1)) st in
  if 0 <? Statistics.outstanding st1 then
    Statistics.set_outstanding (wrap64 (Statistics.outstanding st1 - 1)) st1
  else st1.

Definition count_corruption (st : Statistics.t) : Statistics.t :=
  Statistics.set_corruption_count
    (wrap64 (Statistics.corruption_count st + 1)) st.

Definition Free (p : Z) : M bool :=
  (* Re-interpret the pointer for convenience *)
  block <- pointer_minus p sizeof_MemoryHeader ;;
  (* Ensure that memory block is not null and did not wrap *)
  if (block =? nullptr) || (block >? p) then
    log error [Text "The pointer given does not appear to be valid"] ;;
    ret false
  else
    (* Verify that memory appears to belong to this Memory Manager *)
    s <- get ;;
    owner <- read64 (wrap64 (block + offsetof_memory_manager)) ;;
    if negb (owner =? this s) then
      log error [Text "Attempt to free memory not allocated by this Memory Manager object"] ;;
      ret false
    else
      (* Verify header marker *)
      marker <- read64 (wrap64 (block + offsetof_marker)) ;;
      let bad_header := negb (marker =? Header_Marker_Value) in
      (* Check that the block index is within a valid range *)
      index <- read64 (wrap64 (block + offsetof_index)) ;;
      if negb (vec_empty (profile s))
         && (index >? wrap64 (Z.of_nat (length (profile s)) - 1)) then
        log error [Text "Free request made, but the descriptor data is bad; memory will be freed to the heap"] ;;
        operator_delete block ;;
        ret true
      else
        let i := Z.to_nat index in
        (* Get the pointer to the buffer trailer *)
        d <- profile_at i ;;
        (* Check trailer marker to ensure memory is not corrupt *)
        tail_marker <-
          read64 (wrap64 (block + sizeof_MemoryHeader + MemoryDescriptor.size d)) ;;
        let bad_block := bad_header || negb (tail_marker =? Trailer_Marker_Value) in
        (* Update statistics *)
        update_statistics i count_deallocation ;;
        (* If the block is bad, update statistics, delete, and return to heap *)
        if bad_block then
          update_statistics i count_corruption ;;
          operator_delete block ;;
          ret true
        else
          (* Put the block back on the vector, if possible else free to the heap *)
          pool <- allocations_at i ;;
          (if (MemoryDescriptor.maximum d =? 0)
              || (Z.of_nat (length pool) <? MemoryDescriptor.maximum d) then
             update_allocations i (fun pool => pool ++ [block])
           else
             operator_delete block) ;;
          ret true.

(** *** MemoryManager::GetStatistics *)

Definition GetStatistics : M (list Statistics.t) :=
  s <- get ;; ret (statistics s).

(** *** MemoryManager::MemoryManager *)

Section Constructor.

(* [std::sort] is only known through its contract; the constructor is
   parametric in the library's implementation. *)
Variable std_sort :
  (MemoryDescriptor.t -> MemoryDescriptor.t -> bool) ->
  MemoryProfile -> MemoryProfile.

(* for (i = 0; i < profile[index].minimum; i++) PerformAllocation(index); *)
Fixpoint preallocate (count : nat) (index : nat) : M unit :=
  match count with
  | O => ret tt
  | S count' => PerformAllocation index ;; preallocate count' index
  end.

Fixpoint constructor_loop (remaining : nat) (index : nat) : M unit :=
  match remaining with
  | O => ret tt
  | S remaining' =>
    d <- profile_at index ;;
    (* If maximum is less than minumum, make them equal *)
    (if negb (MemoryDescriptor.maximum d =? 0)
        && (MemoryDescriptor.maximum d <? MemoryDescriptor.minimum d) then
       log warning [Text "Descriptor size "; Num (MemoryDescriptor.size d);
                    Text " has an invalid maximum value"] ;;
       update_profile index
         (MemoryDescriptor.set_maximum (MemoryDescriptor.minimum d))
     else ret tt) ;;
    (* Create a zero-initialized Statistics structure for this profile entry *)
    d <- profile_at index ;;
    modify (fun s => set_statistics
              (statistics s ++ [Statistics.zero (MemoryDescriptor.size d)]) s) ;;
    (* Create an empty allocations element *)
    modify (fun s => set_allocations (allocations s ++ [[]]) s) ;;
    log info [Text "Descriptor size "; Num (MemoryDescriptor.size d);
              Text ", count "; Num (MemoryDescriptor.minimum d)] ;;
    (* Allocate the requested number of blocks *)
    preallocate (Z.to_nat (MemoryDescriptor.minimum d)) index ;;
    constructor_loop remaining' (S index)
  end.

(* The object before the constructor body runs: [profile] moved in, empty
   vectors, in the process environment [env]. *)
Definition member_init (self : Z) (input : MemoryProfile) (env : State) : State :=
  mkState self input [] [] (logger env)
          (memory env) (heap_requests env) (heap_released env).

Definition MemoryManager_body : M unit :=
  log info [Text "Initializing memory profiles"] ;;
  (* Sort the profile deque according to size *)
  modify (fun s => set_profile (std_sort size_less (profile s)) s) ;;
  (* Allocate memory *)
  s <- get ;;
  constructor_loop (length (profile s)) 0.

(* Constructing an engine at address [self] from [input]; the fields of the
   incoming state that belong to the object are overwritten. *)
Definition MemoryManager_ctor (self : Z) (input : MemoryProfile) : M unit :=
  fun env => MemoryManager_body (member_init self input env).

End Constructor.

(** *** MemoryAllocator<T> (memory_allocator.h) *)

(* [sizeof_T] stands for sizeof(T) of the instantiation. *)
Definition MemoryAllocator_allocate (sizeof_T : Z) (n : Z) : M Z :=
  (* If the request is too large, throw an exception *)
  if n >? SIZE_MAX / sizeof_T then throw bad_array_new_length
  else
    (* Attempt to allocate the requested memory (exception on failure) *)
    Allocate (wrap64 (sizeof_T * n)).

Definition MemoryAllocator_deallocate (p : Z) (n : Z) : M unit :=
  (* If the pointer is nullptr, just return *)
  if p =? nullptr then ret tt
  else Free p ;; ret tt.

End Engine.

(** ** Client programs and auxiliary definitions used in the statements *)

(* A caller issuing one Allocate per requested size, collecting the results. *)
Fixpoint Allocate_each (operator_new : nat -> Z -> NewResult)
    (sizes : list Z) : M (list Z) :=
  match sizes with
  | [] => ret []
  | sz :: rest =>
    p <- Allocate operator_new sz ;;
    ps <- Allocate_each operator_new rest ;;
    ret (p :: ps)
  end.

(* The calls of the public interface. *)
Inductive Call :=
| Call_Allocate (size : Z)
| Call_Free (p : Z)
| Call_GetStatistics.

Definition perform (operator_new : nat -> Z -> NewResult) (c : Call) : M unit :=
  match c with
  | Call_Allocate sz => Allocate operator_new sz ;; ret tt
  | Call_Free p => Free p ;; ret tt
  | Call_GetStatistics => GetStatistics ;; ret tt
  end.

Fixpoint perform_all (operator_new : nat -> Z -> NewResult)
    (cs : list Call) : M unit :=
  match cs with
  | [] => ret tt
  | c :: rest => perform operator_new c ;; perform_all operator_new rest
  end.

(* The state in which a computation stops, normally or by an exception. *)
Definition final_state {A} (o : outcome A) : option State :=
  match o with
  | Ret _ s => Some s
  | Throw _ s => Some s
  | Undefined => None
  end.

(* The test of the first statement of PerformAllocation. *)
Definition beyond_constraints (d : MemoryDescriptor.t) (pool : list Z)
    (st : Statistics.t) : bool :=
  negb (MemoryDescriptor.maximum d =? 0)
  && negb (MemoryDescriptor.excess_allowed d)
  && (MemoryDescriptor.maximum d <=?
        wrap64 (Z.of_nat (length pool) + Statistics.outstanding st)).

(* The byte count PerformAllocation asks of the system allocator. *)
Definition block_bytes (d : MemoryDescriptor.t) : Z :=
  wrap64 (sizeof_MemoryHeader + MemoryDescriptor.size d + sizeof_MemoryTrailer).

(* Memory after PerformAllocation has stamped a fresh block. *)
Definition stamp (self : Z) (index : nat) (d : MemoryDescriptor.t)
    (block : Z) (m : Memory) : Memory :=
  store64
    (store64
       (store64
          (store64 m (wrap64 (block + offsetof_memory_manager)) self)
          (wrap64 (block + offsetof_index)) (Z.of_nat index))
       (wrap64 (block + offsetof_marker)) Header_Marker_Value)
    (wrap64 (block + sizeof_MemoryHeader + MemoryDescriptor.size d))
    Trailer_Marker_Value.

(* The repair the constructor applies to one descriptor. *)
Definition repaired (d : MemoryDescriptor.t) : MemoryDescriptor.t :=
  if negb (MemoryDescriptor.maximum d =? 0)
     && (MemoryDescriptor.maximum d <? MemoryDescriptor.minimum d)
  then MemoryDescriptor.set_maximum (MemoryDescriptor.minimum d) d
  else d.

(** ** std::sort, as the GNU C++ library implements it *)

(* The algorithm of bits/stl_algo.h and bits/stl_heap.h (libstdc++): an
   introsort that partitions ranges of more than 16 elements around a
   median of three, falls back to a heap sort when the recursion gets too
   deep, and finishes with an insertion sort.  Iterators are positions in
   the vector; a position outside the vector is undefined behaviour and
   gives [None], as does a loop that a comparison which is no strict weak
   ordering sends on without end. *)
Module std.

Section Sort.

Context {A : Type}.
Variable comp : A -> A -> bool.

Definition _S_threshold : nat := 16.

Definition iter_swap (a b : nat) (v : list A) : option (list A) :=
  x ← v !! a; y ← v !! b; Some (<[b := x]> (<[a := y]> v)).

(* *i = x *)
Definition assign (i : nat) (x : A) (v : list A) : option (list A) :=
  if (i <? length v)%nat then Some (<[i := x]> v) else None.

(* Swaps the median value of *a, *b and *c under comp to *result *)
Definition __move_median_to_first (result a b c : nat) (v : list A)
  : option (list A) :=
  xa ← v !! a; xb ← v !! b; xc ← v !! c;
  if comp xa xb then
    if comp xb xc then iter_swap result b v
    else if comp xa xc then iter_swap result c v
    else iter_swap result a v
  else if comp xa xc then iter_swap result a v
  else if comp xb xc then iter_swap result c v
  else iter_swap result b v.

(** *** Heap operations (bits/stl_heap.h) *)

(* first[d], the distance [d] being signed *)
Definition at_distance (v : list A) (first : nat) (d : Z) : option A :=
  if d <? 0 then None else v !! (first + Z.to_nat d)%nat.

Definition assign_distance (first : nat) (d : Z) (x : A) (v : list A)
  : option (list A) :=
  if d <? 0 then None else assign (first + Z.to_nat d)%nat x v.

(* while (holeIndex > topIndex && comp(first + parent, value)) *)
Fixpoint __push_heap_loop (fuel : nat) (first : nat) (holeIndex topIndex : Z)
    (value : A) (v : list A) : option (list A) :=
  match fuel with
  | O => None
  | S fuel' =>
    let parent := Z.quot (holeIndex - 1) 2 in
    goes_on ←
      (if topIndex <? holeIndex then
         xp ← at_distance v first parent; Some (comp xp value)
       else Some false);
    if (goes_on : bool) then
      xp ← at_distance v first parent;
      v1 ← assign_distance first holeIndex xp v;
      __push_heap_loop fuel' first parent topIndex value v1
    else assign_distance first holeIndex value v
  end.

Definition __push_heap (first : nat) (holeIndex topIndex : Z) (value : A)
    (v : list A) : option (list A) :=
  __push_heap_loop (S (Z.to_nat holeIndex)) first holeIndex topIndex value v.

(* while (secondChild < (len - 1) / 2); gives the hole, the second child
   and the vector *)
Fixpoint __adjust_heap_loop (fuel : nat) (first : nat)
    (holeIndex secondChild len : Z) (v : list A) : option (Z * Z * list A) :=
  match fuel with
  | O => None
  | S fuel' =>
    if secondChild <? Z.quot (len - 1) 2 then
      let secondChild1 := 2 * (secondChild + 1) in
      x ← at_distance v first secondChild1;
      y ← at_distance v first (secondChild1 - 1);
      let secondChild2 := if comp x y then secondChild1 - 1 else secondChild1 in
      z ← at_distance v first secondChild2;
      v1 ← assign_distance first holeIndex z v;
      __adjust_heap_loop fuel' first secondChild2 secondChild2 len v1
    else Some (holeIndex, secondChild, v)
  end.

Definition __adjust_heap (first : nat) (holeIndex len : Z) (value : A)
    (v : list A) : option (list A) :=
  let topIndex := holeIndex in
  '(holeIndex1, secondChild, v1) ←
    __adjust_heap_loop (S (Z.to_nat len)) first holeIndex holeIndex len v;
  '(holeIndex2, v2) ←
    (if (Z.land len 1 =? 0) && (secondChild =? Z.quot (len - 2) 2) then
       let secondChild1 := 2 * (secondChild + 1) in
       x ← at_distance v1 first (secondChild1 - 1);
       v2 ← assign_distance first holeIndex1 x v1;
       Some (secondChild1 - 1, v2)
     else Some (holeIndex1, v1));
  __push_heap first holeIndex2 topIndex value v2.

Definition __pop_heap (first last result : nat) (v : list A)
  : option (list A) :=
  value ← v !! result;
  x ← v !! first;
  v1 ← assign result x v;
  __adjust_heap first 0 (Z.of_nat last - Z.of_nat first) value v1.

(* while (true) { ...; if (parent == 0) return; parent--; } *)
Fixpoint __make_heap_loop (parent : nat) (first : nat) (len : Z) (v : list A)
  : option (list A) :=
  value ← at_distance v first (Z.of_nat parent);
  v1 ← __adjust_heap first (Z.of_nat parent) len value v;
  match parent with
  | O => Some v1
  | S parent' => __make_heap_loop parent' first len v1
  end.

Definition __make_heap (first last : nat) (v : list A) : option (list A) :=
  if (last - first <? 2)%nat then Some v
  else
    let len := Z.of_nat last - Z.of_nat first in
    __make_heap_loop (Z.to_nat (Z.quot (len - 2) 2)) first len v.

(* while (last - first > 1) { --last; pop_heap(first, last, last); } *)
Fixpoint __sort_heap_loop (fuel : nat) (first last : nat) (v : list A)
  : option (list A) :=
  match fuel with
  | O => None
  | S fuel' =>
    if (1 <? last - first)%nat then
      v1 ← __pop_heap first (last - 1) (last - 1) v;
      __sort_heap_loop fuel' first (last - 1) v1
    else Some v
  end.

Definition __sort_heap (first last : nat) (v : list A) : option (list A) :=
  __sort_heap_loop (S (last - first)) first last v.

(** *** Sorting (bits/stl_algo.h) *)

(* for (i = middle; i < last; ++i) if (comp(i, first)) pop_heap(...) *)
Fixpoint __heap_select_loop (count : nat) (first middle i : nat) (v : list A)
  : option (list A) :=
  match count with
  | O => Some v
  | S count' =>
    xi ← v !! i; xf ← v !! first;
    v1 ← (if comp xi xf then __pop_heap first middle i v else Some v);
    __heap_select_loop count' first middle (S i) v1
  end.

Definition __heap_select (first middle last : nat) (v : list A)
  : option (list A) :=
  v1 ← __make_heap first middle v;
  __heap_select_loop (last - middle) first middle middle v1.

Definition __partial_sort (first middle last : nat) (v : list A)
  : option (list A) :=
  v1 ← __heap_select first middle last v;
  __sort_heap first middle v1.

(* while (comp(val, next)) { *last = *next; last = next; --next; } *)
Fixpoint __unguarded_linear_insert_loop (fuel : nat) (val : A) (last : nat)
    (v : list A) : option (list A) :=
  match fuel with
  | O => None
  | S fuel' =>
    match last with
    | O => None
    | S next =>
      x ← v !! next;
      if comp val x then
        v1 ← assign last x v;
        __unguarded_linear_insert_loop fuel' val next v1
      else assign last val v
    end
  end.

Definition __unguarded_linear_insert (last : nat) (v : list A)
  : option (list A) :=
  val ← v !! last;
  __unguarded_linear_insert_loop (S last) val last v.

(* std::move_backward(first, last, result):
   while (first != last) *--result = *--last; *)
Fixpoint move_backward (count : nat) (last result : nat) (v : list A)
  : option (list A) :=
  match count with
  | O => Some v
  | S count' =>
    match last, result with
    | S last', S result' =>
      x ← v !! last';
      v1 ← assign result' x v;
      move_backward count' last' result' v1
    | _, _ => None
    end
  end.

(* for (i = first + 1; i != last; ++i) *)
Fixpoint __insertion_sort_loop (count : nat) (first i : nat) (v : list A)
  : option (list A) :=
  match count with
  | O => Some v
  | S count' =>
    xi ← v !! i; xf ← v !! first;
    v1 ← (if comp xi xf then
            v1 ← move_backward (i - first) i (S i) v;
            assign first xi v1
          else __unguarded_linear_insert i v);
    __insertion_sort_loop count' first (S i) v1
  end.

Definition __insertion_sort (first last : nat) (v : list A)
  : option (list A) :=
  if (first =? last)%nat then Some v
  else __insertion_sort_loop (last - S first) first (S first) v.

(* for (i = first; i != last; ++i) *)
Fixpoint __unguarded_insertion_sort_loop (count : nat) (i : nat) (v : list A)
  : option (list A) :=
  match count with
  | O => Some v
  | S count' =>
    v1 ← __unguarded_linear_insert i v;
    __unguarded_insertion_sort_loop count' (S i) v1
  end.

Definition __unguarded_insertion_sort (first last : nat) (v : list A)
  : option (list A) :=
  __unguarded_insertion_sort_loop (last - first) first v.

Definition __final_insertion_sort (first last : nat) (v : list A)
  : option (list A) :=
  if (_S_threshold <? last - first)%nat then
    v1 ← __insertion_sort first (first + _S_threshold) v;
    __unguarded_insertion_sort (first + _S_threshold) last v1
  else __insertion_sort first last v.

(* while (comp(first, pivot)) ++first; *)
Fixpoint scan_forward (fuel : nat) (first pivot : nat) (v : list A)
  : option nat :=
  match fuel with
  | O => None
  | S fuel' =>
    x ← v !! first; p ← v !! pivot;
    if comp x p then scan_forward fuel' (S first) pivot v else Some first
  end.

(* while (comp(pivot, last)) --last; *)
Fixpoint scan_backward (fuel : nat) (last pivot : nat) (v : list A)
  : option nat :=
  match fuel with
  | O => None
  | S fuel' =>
    p ← v !! pivot; x ← v !! last;
    if comp p x then
      match last with
      | O => None
      | S last' => scan_backward fuel' last' pivot v
      end
    else Some last
  end.

Fixpoint __unguarded_partition_loop (fuel : nat) (first last pivot : nat)
    (v : list A) : option (nat * list A) :=
  match fuel with
  | O => None
  | S fuel' =>
    first1 ← scan_forward (S (length v)) first pivot v;
    match last with
    | O => None
    | S last' =>
      last1 ← scan_backward (S (length v)) last' pivot v;
      if negb (first1 <? last1)%nat then Some (first1, v)
      else
        v1 ← iter_swap first1 last1 v;
        __unguarded_partition_loop fuel' (S first1) last1 pivot v1
    end
  end.

Definition __unguarded_partition (first last pivot : nat) (v : list A)
  : option (nat * list A) :=
  __unguarded_partition_loop (S (length v)) first last pivot v.

Definition __unguarded_partition_pivot (first last : nat) (v : list A)
  : option (nat * list A) :=
  let mid := (first + (last - first) / 2)%nat in
  v1 ← __move_median_to_first first (first + 1) mid (last - 1) v;
  __unguarded_partition (first + 1) last first v1.

(* The loop [while (last - first > _S_threshold)]: every turn lowers
   depth_limit, on which the definition recurses. *)
Fixpoint __introsort_loop (depth_limit : nat) (first last : nat) (v : list A)
  : option (list A) :=
  if (_S_threshold <? last - first)%nat then
    match depth_limit with
    | O => __partial_sort first last last v
    | S depth_limit' =>
      '(cut, v1) ← __unguarded_partition_pivot first last v;
      v2 ← __introsort_loop depth_limit' cut last v1;
      __introsort_loop depth_limit' first cut v2
    end
  else Some v.

Definition __sort (first last : nat) (v : list A) : option (list A) :=
  if negb (first =? last)%nat then
    v1 ← __introsort_loop (Nat.log2 (last - first) * 2) first last v;
    __final_insertion_sort first last v1
  else Some v.

(* std::sort(v.begin(), v.end(), comp); where the behaviour is undefined
   the vector is given back as it came. *)
Definition sort (v : list A) : list A :=
  default v (__sort 0 (length v) v).

End Sort.

End std.

(* What the C++ standard promises of std::sort called with [size_less]: the
   result is a rearrangement of the input in which no element is followed
   by a smaller one.  The relative order of equivalent elements is not part
   of the promise. *)
Definition sort_contract
    (std_sort : (MemoryDescriptor.t -> MemoryDescriptor.t -> bool) ->
                MemoryProfile -> MemoryProfile) : Prop :=
  forall l : MemoryProfile,
    Permutation l (std_sort size_less l) /\
    Sorted (fun a b => size_less b a = false) (std_sort size_less l).

(* An implementation inside the contract: the insertion sort that keeps
   descriptors of equal size in their input order. *)
Fixpoint insert_before_equal (lt : MemoryDescriptor.t -> MemoryDescriptor.t -> bool)
    (d : MemoryDescriptor.t) (l : MemoryProfile) : MemoryProfile :=
  match l with
  | [] => [d]
  | x :: l' => if lt x d then x :: insert_before_equal lt d l' else d :: l
  end.

Definition stable_sort (lt : MemoryDescriptor.t -> MemoryDescriptor.t -> bool)
    (l : MemoryProfile) : MemoryProfile :=
  foldr (insert_before_equal lt) [] l.

(* The class table as the design document words it: ascending by size,
   ties in input order, then the repair of [maximum]. *)
Definition spec_ClassTable (input : MemoryProfile) : MemoryProfile :=
  map repaired (stable_sort size_less input).

(* The largest class size of a profile, when there is a class. *)
Definition largest_size (l : MemoryProfile) : option Z :=
  match l with
  | [] => None
  | d :: l' =>
    Some (foldr (fun x acc => Z.max (MemoryDescriptor.size x) acc)
                (MemoryDescriptor.size d) l')
  end.

(* A class on which growth is never refused by policy. *)
Definition allows_excess (d : MemoryDescriptor.t) : Prop :=
  MemoryDescriptor.excess_allowed d = true \/ MemoryDescriptor.maximum d = 0.

(* A system allocator that never fails: every new-expression yields a
   non-null block whose header lies inside the address space. *)
Definition valid_block (a : Z) : Prop :=
  0 < a /\ a + sizeof_MemoryHeader < 2 ^ 64.

Definition never_fails (operator_new : nat -> Z -> NewResult) : Prop :=
  forall k n, exists a, operator_new k n = NewPtr a /\ valid_block a.

(* The invariant of a constructed engine: the three vectors are aligned. *)
Definition aligned (st : State) : Prop :=
  length (allocations st) = length (profile st) /\
  length (statistics st) = length (profile st).

(* Serving a request from a pool that holds a block. *)
Definition served (index : nat) (s : Statistics.t) (rest : list Z)
    (st : State) : State :=
  set_allocations (<[index := rest]> (allocations st))
    (set_statistics (<[index := count_allocation s]> (statistics st)) st).

(* Giving up on a class. *)
Definition passed (index : nat) (s : Statistics.t) (st : State) : State :=
  set_statistics (<[index := count_unfulfilled s]> (statistics st)) st.

(* What a successful scan that started at class [i0] has done. *)
Definition scan_post (operator_new : nat -> Z -> NewResult) (size : Z)
    (i0 : nat) (st : State) (p : Z) (st' : State) : Prop :=
  exists (index : nat) (d : MemoryDescriptor.t) (pool : list Z)
         (s : Statistics.t) (block : Z),
    (i0 <= index)%nat /\
    profile st !! index = Some d /\
    allocations st !! index = Some pool /\
    statistics st !! index = Some s /\
    size <= MemoryDescriptor.size d /\
    p = wrap64 (block + sizeof_MemoryHeader) /\
    (last pool = Some block \/
     pool = [] /\ beyond_constraints d [] s = false /\
     exists k, (heap_requests st <= k < heap_requests st')%nat /\
               operator_new k (block_bytes d) = NewPtr block /\
               block <> nullptr) /\
    allocations st' !! index = Some (removelast pool) /\
    statistics st' !! index = Some (count_allocation s) /\
    (forall j dj, (i0 <= j < index)%nat -> profile st !! j = Some dj ->
       allocations st' !! j = allocations st !! j /\
       (MemoryDescriptor.size dj < size ->
          statistics st' !! j = statistics st !! j) /\
       (size <= MemoryDescriptor.size dj ->
          allocations st !! j = Some [] /\
          exists sj, statistics st !! j = Some sj /\
            (beyond_constraints dj [] sj = true \/
             exists k, (heap_requests st <= k < heap_requests st')%nat /\
                       operator_new k (block_bytes dj) = NewPtr nullptr) /\
            statistics st' !! j = Some (count_unfulfilled sj))) /\
    (forall j, (j < i0 \/ index < j)%nat ->
       allocations st' !! j = allocations st !! j /\
       statistics st' !! j = statistics st !! j) /\
    profile st' = profile st /\
    (heap_requests st <= heap_requests st')%nat.

(* The invariant behind the no-failure property: aligned vectors, growth
   never refused by policy, and pools holding blocks of the address space. *)
Definition excess_engine (st : State) : Prop :=
  aligned st /\
  Forall allows_excess (profile st) /\
  Forall (Forall valid_block) (allocations st).

(* A request fits a profile when some class is large enough, that is when
   it does not exceed the largest class size. *)
Definition fits (size : Z) (l : MemoryProfile) : Prop :=
  exists m, largest_size l = Some m /\ size <= m.

(* Some new-expression of the process ends in std::bad_alloc. *)
Definition heap_throws (operator_new : nat -> Z -> NewResult) : Prop :=
  exists k n, operator_new k n = NewThrows.

(* What a completed construction guarantees, [ok] being a property of the
   blocks the system allocator hands out. *)
Definition constructed (ok : Z -> Prop) (self : Z) (table : MemoryProfile)
    (st : State) : Prop :=
  profile st = map repaired table /\
  statistics st =
    map (fun d => Statistics.zero (MemoryDescriptor.size d)) table /\
  aligned st /\
  this st = self /\
  Forall (Forall ok) (allocations st).

(* What growing the pool of a class leaves as it was, [ok] being a
   property of the blocks the system allocator hands out. *)
Definition kept (ok : Z -> Prop) (st st' : State) : Prop :=
  profile st' = profile st /\
  statistics st' = statistics st /\
  this st' = this st /\
  length (allocations st') = length (allocations st) /\
  Forall (Forall ok) (allocations st').

(* A command relates the state it starts in to the state it stops in, by
   completion or by an exception. *)
Definition preserves {A} (R : State -> State -> Prop) (c : M A) : Prop :=
  forall s,
    match c s with
    | Ret _ s' => R s s'
    | Throw _ s' => R s s'
    | Undefined => True
    end.

(* The class table is the same, and the vectors keep their lengths. *)
Definition same_table (s s' : State) : Prop :=
  profile s' = profile s /\
  length (allocations s') = length (allocations s) /\
  length (statistics s') = length (statistics s).

(** *** MemoryManager::~MemoryManager *)

(* The loop [while (!allocations[index].empty())] of the destructor;
   [remaining] is the number of blocks in the pool when it is entered. *)
Fixpoint release_pool_loop (remaining : nat) (index : nat) : M unit :=
  match remaining with
  | O => ret tt
  | S remaining' =>
    pool <- allocations_at index ;;
    match last pool with
    | Some block =>
      update_allocations index (fun pool => removelast pool) ;;
      operator_delete block ;;
      release_pool_loop remaining' index
    | None => ret tt
    end
  end.

Definition release_pool (index : nat) : M unit :=
  pool <- allocations_at index ;;
  release_pool_loop (length pool) index.

(* The member [log_statistics] is only read here; it is taken as an
   argument. *)
Fixpoint destructor_loop (log_statistics : bool) (remaining : nat)
    (index : nat) : M unit :=
  match remaining with
  | O => ret tt
  | S remaining' =>
    (if log_statistics then
       d <- profile_at index ;;
       log info [Text "  Block size: "; Num (MemoryDescriptor.size d)] ;;
       st <- statistics_at index ;;
       log info [Text "    Allocations: "; Num (Statistics.allocations st)] ;;
       log info [Text "    Deallocations: "; Num (Statistics.deallocations st)] ;;
       log info [Text "    Corrupted: "; Num (Statistics.corruption_count st)] ;;
       log info [Text "    Max Outstanding: ";
                 Num (Statistics.max_outstanding st)] ;;
       log info [Text "    Outstanding: "; Num (Statistics.outstanding st)] ;;
       log info [Text "    Unfulfilled: "; Num (Statistics.unfulfilled st)]
     else ret tt) ;;
    (* Free all allocated memory in the deque *)
    release_pool index ;;
    destructor_loop log_statistics remaining' (S index)
  end.

Definition MemoryManager_dtor (log_statistics : bool) : M unit :=
  log info [Text "Memory Manager Usage Statistics"] ;;
  s <- get ;;
  destructor_loop log_statistics (length (profile s)) 0.

(** ** Relations between the states before and after a call *)

(* Every statistics entry is related to its successor by [E]. *)
Definition statistics_step (E : Statistics.t -> Statistics.t -> Prop)
    (st st' : State) : Prop :=
  Forall2 E (statistics st) (statistics st').

(* No pool is longer than before. *)
Definition pools_shrink (st st' : State) : Prop :=
  Forall2 (fun a b : list Z => (length b <= length a)%nat)
          (allocations st) (allocations st').

(* No class retains more blocks than its [maximum], when it has one. *)
Definition within_maximum (st : State) : Prop :=
  forall i d pool,
    profile st !! i = Some d ->
    allocations st !! i = Some pool ->
    MemoryDescriptor.maximum d <> 0 ->
    Z.of_nat (length pool) <= MemoryDescriptor.maximum d.

(* The statistics after a scan in which no class could serve: the classes
   that are large enough have counted the request as unfulfilled. *)
Definition refused_everywhere (size : Z) (st : State) : State :=
  set_statistics
    (zip_with
       (fun d s =>
          if MemoryDescriptor.size d <? size then s else count_unfulfilled s)
       (profile st) (statistics st))
    st.

(* The engine when the constructor has done the bookkeeping of class
   [index] (repair, statistics entry, empty pool, log lines) and is about
   to reserve its blocks. *)
Definition constructor_entry (index : nat) (d : MemoryDescriptor.t)
    (st : State) : State :=
  let invalid := negb (MemoryDescriptor.maximum d =? 0)
                 && (MemoryDescriptor.maximum d <? MemoryDescriptor.minimum d) in
  mkState (this st)
    (if invalid then <[index := repaired d]> (profile st) else profile st)
    (allocations st ++ [[]])
    (statistics st ++ [Statistics.zero (MemoryDescriptor.size d)])
    (logger st
       ++ (if invalid then
             [(warning, [Text "Descriptor size "; Num (MemoryDescriptor.size d);
                         Text " has an invalid maximum value"])]
           else [])
       ++ [(info, [Text "Descriptor size "; Num (MemoryDescriptor.size d);
                   Text ", count "; Num (MemoryDescriptor.minimum d)])])
    (memory st) (heap_requests st) (heap_released st).

(* The reserve of a class: as many blocks as [minimum] asks for when the
   system allocator [delivers], never more. *)
Definition reserved (delivers : Prop) (d : MemoryDescriptor.t)
    (pool : list Z) : Prop :=
  (length pool <= Z.to_nat (MemoryDescriptor.minimum d))%nat /\
  (delivers -> length pool = Z.to_nat (MemoryDescriptor.minimum d)).

(* Between Allocate and Free the caller owns the [size] bytes at [p]:
   memory [m'] differs from [m] in the payload only. *)
Definition payload_only (p size : Z) (m m' : Memory) : Prop :=
  forall a, a < p \/ p + size <= a -> load8 m' a = load8 m a.

(* The number of blocks the engine holds in its pools. *)
Definition retained (st : State) : nat := length (concat (allocations st)).

(* The heading the destructor logs. *)
Definition usage_heading : LogLine :=
  (info, [Text "Memory Manager Usage Statistics"]).

(* What the growth of a pool keeps: every request to the system allocator
   is matched by a block in a pool, and nothing is released. *)
Definition balance_kept (st st' : State) : Prop :=
  (heap_requests st' + retained st = heap_requests st + retained st')%nat /\
  heap_released st' = heap_released st /\
  profile st' = profile st /\
  statistics st' = statistics st /\
  length (allocations st') = length (allocations st).

(** ** Concrete environments for the examples *)

(* consecutive blocks, 128 KiB apart *)
Definition bump_heap (k : nat) (n : Z) : NewResult :=
  NewPtr (65536 + 131072 * (Z.of_nat k mod 2 ^ 32)).

(* a system allocator that is out of memory *)
Definition exhausted_heap (k : nat) (n : Z) : NewResult := NewThrows.

Definition empty_process : State := mkState 0 [] [] [] [] ∅ 0 [].

(* the state after a computation, for building examples *)
Definition state_after {A} (c : M A) (s : State) : State :=
  match c s with
  | Ret _ s' => s'
  | Throw _ s' => s'
  | Undefined => s
  end.

Definition value_of {A} (c : M A) (s : State) : option A :=
  match c s with
  | Ret a _ => Some a
  | _ => None
  end.

(* std::memset, for the callers that overrun a block *)
Fixpoint memset (m : Memory) (a : Z) (v : Z) (n : nat) : Memory :=
  match n with
  | O => m
  | S n' => memset (store8 m a v) (a + 1) v n'
  end.

(* An engine at address 4096 of an otherwise empty process, std::sort being
   the insertion sort that keeps ties in order. *)
Definition engine (operator_new : nat -> Z -> NewResult)
    (input : MemoryProfile) : State :=
  state_after (MemoryManager_ctor operator_new stable_sort 4096 input)
              empty_process.

(* the profiles of test_memory_manager.cpp *)
Definition excess_profile : MemoryProfile :=
  [ MemoryDescriptor.mk 64 5 10 true;
    MemoryDescriptor.mk 256 2 10 true;
    MemoryDescriptor.mk 512 2 10 true;
    MemoryDescriptor.mk 1500 1 20 true;
    MemoryDescriptor.mk 65536 0 1 true ].

Definition exhaustion_profile : MemoryProfile :=
  [ MemoryDescriptor.mk 64 5 5 false;
    MemoryDescriptor.mk 256 2 5 false ].

(* MemMgr.Exhaustion after five requests: class 0 has nothing left *)
Definition class0_exhausted : State :=
  state_after (Allocate_each bump_heap (replicate 5 32))
              (engine bump_heap exhaustion_profile).

(* ... and after ten: no class has anything left *)
Definition all_exhausted : State :=
  state_after (Allocate_each bump_heap (replicate 10 32))
              (engine bump_heap exhaustion_profile).

(* MemMgr.Corruption: a block of class 1 is taken and overrun by one byte *)
Definition overrun_pointer : Z :=
  default 0 (value_of (Allocate bump_heap 128) (engine bump_heap excess_profile)).

Definition overrun_engine : State :=
  let st := state_after (Allocate bump_heap 128)
                        (engine bump_heap excess_profile) in
  set_memory (memset (memory st) overrun_pointer 0 257) st.

(* a block taken and given back once *)
Definition freed_once : State :=
  state_after (Free overrun_pointer)
    (state_after (Allocate bump_heap 128) (engine bump_heap excess_profile)).

(* an engine without classes, and caller memory at 65536 whose first word
   happens to hold the address of the engine *)
Definition classless_engine : State :=
  let st := engine bump_heap [] in
  set_memory (store64 (memory st) 65536 4096) st.

(* an engine whose only class has no reserve, in a process out of memory *)
Definition starved_engine : State :=
  engine exhausted_heap [MemoryDescriptor.mk 64 0 0 true].

(* MemMgr.Corruption before the overrun: one block of class 1 is out *)
Definition taken_once : State :=
  state_after (Allocate bump_heap 128) (engine bump_heap excess_profile).

(* a class that keeps one block and may grow: two blocks are taken and the
   first is given back, so the pool is full while the second is out *)
Definition surplus_profile : MemoryProfile :=
  [ MemoryDescriptor.mk 64 1 1 true ].

Definition surplus_engine : State :=
  state_after
    (perform_all bump_heap [Call_Allocate 32; Call_Allocate 32; Call_Free 65560])
    (engine bump_heap surplus_profile).

(* a session of the public interface *)
Definition session : list Call :=
  [ Call_Allocate 32; Call_Allocate 128; Call_Free 589848; Call_GetStatistics;
    Call_Allocate 2000; Call_Free 1376280 ].

(* twenty descriptors of one size, told apart by [maximum] = 1, ..., 20 *)
Definition twenty_equal : MemoryProfile :=
  map (fun k => MemoryDescriptor.mk 64 0 (Z.of_nat k) true) (seq 1 20).
(** * Properties *)

(** ** Arithmetic of 64-bit values *)

Lemma wrap64_idem x : wrap64 (wrap64 x) = wrap64 x.
Proof. unfold wrap64. apply Z.mod_mod. lia. Qed.

Lemma wrap64_small x : 0 <= x < 2 ^ 64 -> wrap64 x = x.
Proof. intros. unfold wrap64. apply Z.mod_small. lia. Qed.

Lemma wrap64_range x : 0 <= wrap64 x < 2 ^ 64.
Proof. unfold wrap64. apply Z.mod_pos_bound. lia. Qed.

Lemma payload_of_block block :
  valid_block block ->
  wrap64 (block + sizeof_MemoryHeader) = block + sizeof_MemoryHeader /\
  wrap64 (block + sizeof_MemoryHeader - sizeof_MemoryHeader) = block /\
  block + sizeof_MemoryHeader <> nullptr.
Proof.
  unfold valid_block, sizeof_MemoryHeader, nullptr. intros [H0 H1].
  rewrite !wrap64_small by lia. lia.
Qed.

(** ** Running the primitive commands *)

Lemma bind_Ret {A B} (c : M A) (k : A -> M B) s a s' :
  c s = Ret a s' -> (x <- c ;; k x) s = k a s'.
Proof. intros H. unfold bind. by rewrite H. Qed.

Lemma bind_Throw {A B} (c : M A) (k : A -> M B) s e s' :
  c s = Throw e s' -> (x <- c ;; k x) s = Throw e s'.
Proof. intros H. unfold bind. by rewrite H. Qed.

Lemma bind_Undefined {A B} (c : M A) (k : A -> M B) s :
  c s = Undefined -> (x <- c ;; k x) s = Undefined.
Proof. intros H. unfold bind. by rewrite H. Qed.

Lemma ret_run {A} (a : A) s : ret a s = Ret a s.
Proof. reflexivity. Qed.

Lemma get_run s : get s = Ret s s.
Proof. reflexivity. Qed.

Lemma modify_run f s : modify f s = Ret tt (f s).
Proof. reflexivity. Qed.

Lemma read64_run a s : read64 a s = Ret (load64 (memory s) a) s.
Proof. reflexivity. Qed.

Lemma write64_run a v s :
  write64 a v s = Ret tt (set_memory (store64 (memory s) a v) s).
Proof. reflexivity. Qed.

Lemma log_run lvl items s :
  log lvl items s = Ret tt (set_logger (logger s ++ [(lvl, items)]) s).
Proof. reflexivity. Qed.

Lemma operator_delete_run b s :
  operator_delete b s = Ret tt (set_heap_released (b :: heap_released s) s).
Proof. reflexivity. Qed.

Lemma profile_at_Some i d s :
  profile s !! i = Some d -> profile_at i s = Ret d s.
Proof. intros H. unfold profile_at, at_index, bind, get. by rewrite H. Qed.

Lemma profile_at_None i s :
  profile s !! i = None -> profile_at i s = Undefined.
Proof. intros H. unfold profile_at, at_index, bind, get. by rewrite H. Qed.

Lemma allocations_at_Some i pool s :
  allocations s !! i = Some pool -> allocations_at i s = Ret pool s.
Proof. intros H. unfold allocations_at, at_index, bind, get. by rewrite H. Qed.

Lemma statistics_at_Some i x s :
  statistics s !! i = Some x -> statistics_at i s = Ret x s.
Proof. intros H. unfold statistics_at, at_index, bind, get. by rewrite H. Qed.

Lemma update_profile_Some i f x s :
  profile s !! i = Some x ->
  update_profile i f s = Ret tt (set_profile (<[i := f x]> (profile s)) s).
Proof.
  intros H. unfold update_profile, bind. by rewrite (profile_at_Some _ _ _ H).
Qed.

Lemma update_statistics_Some i f x s :
  statistics s !! i = Some x ->
  update_statistics i f s =
    Ret tt (set_statistics (<[i := f x]> (statistics s)) s).
Proof.
  intros H. unfold update_statistics, bind.
  by rewrite (statistics_at_Some _ _ _ H).
Qed.

Lemma update_allocations_Some i f x s :
  allocations s !! i = Some x ->
  update_allocations i f s =
    Ret tt (set_allocations (<[i := f x]> (allocations s)) s).
Proof.
  intros H. unfold update_allocations, bind.
  by rewrite (allocations_at_Some _ _ _ H).
Qed.

Lemma bind_Ret_Ret {A B} (c : M A) (k : A -> M B) s a s' b s'' :
  c s = Ret a s' -> k a s' = Ret b s'' -> (x <- c ;; k x) s = Ret b s''.
Proof. intros H1 H2. unfold bind. by rewrite H1. Qed.

Create HintDb mrun discriminated.
#[local] Hint Resolve ret_run get_run modify_run read64_run write64_run log_run
  operator_delete_run profile_at_Some allocations_at_Some statistics_at_Some
  update_profile_Some update_statistics_Some update_allocations_Some
  bind_Ret_Ret : mrun.

(* execute the leading commands of a sequence whose results are known *)
Ltac mstep := erewrite bind_Ret by (eauto with mrun).
Ltac mrun := repeat mstep.

(** ** MemoryManager::Free *)

(* A header address that is not above the pointer was computed without
   leaving the address space. *)
Lemma header_address_defined (p : Z) :
  wrap64 (p - sizeof_MemoryHeader) <= p -> sizeof_MemoryHeader <= p.
Proof.
  unfold sizeof_MemoryHeader, wrap64. intros H.
  pose proof (Z.mod_pos_bound (p - 24) (2 ^ 64) ltac:(lia)) as Hr.
  pose proof (Z.div_mod (p - 24) (2 ^ 64) ltac:(lia)) as Hq.
  change (2 ^ 64) with 18446744073709551616 in *. lia.
Qed.

Lemma pointer_minus_run (p n : Z) (s : State) :
  n <= p -> pointer_minus p n s = Ret (wrap64 (p - n)) s.
Proof.
  intros H. unfold pointer_minus. by replace (p <? n) with false by lia.
Qed.

Lemma pointer_minus_undefined (p n : Z) (s : State) :
  p < n -> pointer_minus p n s = Undefined.
Proof.
  intros H. unfold pointer_minus. by replace (p <? n) with true by lia.
Qed.

(* enter Free with a pointer [Hp : sizeof_MemoryHeader <= p] *)
Ltac Free_header Hp :=
  unfold Free;
  rewrite (bind_Ret _ _ _ _ _ (pointer_minus_run _ _ _ Hp));
  cbv beta.

Lemma Free_below_header (p : Z) (st : State) :
  p < sizeof_MemoryHeader -> Free p st = Undefined.
Proof.
  intros Hp. unfold Free. apply bind_Undefined.
  by apply pointer_minus_undefined.
Qed.

(* The range test of Free lets an index inside the table through. *)
Lemma index_in_range (st : State) idx d :
  Z.of_nat (length (profile st)) <= SIZE_MAX ->
  profile st !! Z.to_nat idx = Some d ->
  negb (vec_empty (profile st))
    && (idx >? wrap64 (Z.of_nat (length (profile st)) - 1)) = false.
Proof.
  intros Hlen Hd. apply lookup_lt_Some in Hd.
  apply andb_false_iff. right.
  rewrite wrap64_small by (unfold SIZE_MAX in Hlen; lia).
  lia.
Qed.

(* Free up to the point where the class index is trusted. *)
Lemma Free_trusted p st d s :
  let block := wrap64 (p - sizeof_MemoryHeader) in
  let index := load64 (memory st) (wrap64 (block + offsetof_index)) in
  let i := Z.to_nat index in
  Z.of_nat (length (profile st)) <= SIZE_MAX ->
  block <> nullptr -> block <= p ->
  load64 (memory st) block = this st ->
  profile st !! i = Some d ->
  statistics st !! i = Some s ->
  Free p st =
    let st1 := set_statistics (<[i := count_deallocation s]> (statistics st)) st in
    if negb (load64 (memory st) (wrap64 (block + offsetof_marker))
             =? Header_Marker_Value)
       || negb (load64 (memory st)
                  (wrap64 (block + sizeof_MemoryHeader + MemoryDescriptor.size d))
                =? Trailer_Marker_Value)
    then
      Ret true
        (set_heap_released (block :: heap_released st)
           (set_statistics
              (<[i := count_corruption (count_deallocation s)]> (statistics st))
              st))
    else
      match allocations st !! i with
      | Some pool =>
        if (MemoryDescriptor.maximum d =? 0)
           || (Z.of_nat (length pool) <? MemoryDescriptor.maximum d)
        then Ret true (set_allocations (<[i := pool ++ [block]]> (allocations st)) st1)
        else Ret true (set_heap_released (block :: heap_released st) st1)
      | None => Undefined
      end.
Proof.
  intros block index i Hlen Hnull Hwrap Hown Hd Hs.
  pose proof (header_address_defined p Hwrap) as Hp.
  Free_header Hp. fold block.
  replace ((block =? nullptr) || (block >? p)) with false
    by (symmetry; apply orb_false_iff; lia).
  cbn [bind get read64 ret].
  unfold offsetof_memory_manager at 1. rewrite Z.add_0_r.
  unfold block at 1. rewrite wrap64_idem. fold block.
  rewrite Hown, Z.eqb_refl. cbn [negb bind get read64 ret].
  fold index. rewrite (index_in_range _ _ _ Hlen Hd). fold i.
  mrun.
  destruct (_ || _) eqn:Hbad.
  - erewrite bind_Ret
      by (apply update_statistics_Some; cbn; apply list_lookup_insert_eq;
          by eapply lookup_lt_Some).
    mrun. cbn. by rewrite list_insert_insert_eq.
  - destruct (allocations st !! i) as [pool|] eqn:Hpool.
    + erewrite bind_Ret by (apply allocations_at_Some; cbn; eauto).
      cbn zeta.
      destruct ((MemoryDescriptor.maximum d =? 0)
                || (Z.of_nat (length pool) <? MemoryDescriptor.maximum d)) eqn:Hkeep.
      * erewrite bind_Ret by (apply update_allocations_Some; cbn; eauto). done.
      * done.
    + unfold bind at 1, allocations_at, bind, get, at_index.
      cbn [allocations set_statistics]. by rewrite Hpool.
Qed.

(* A pointer below the size of the header has no header address: the
   subtraction is undefined and the test that follows it is not reached. *)
Lemma Free_wrapping_pointer (p : Z) (st : State) :
  0 <= p < 2 ^ 64 ->
  wrap64 (p - sizeof_MemoryHeader) > p ->
  Free p st = Undefined.
Proof.
  intros Hp Hwrap. apply Free_below_header.
  destruct (Z.lt_ge_cases p sizeof_MemoryHeader) as [|Hge]; [done|].
  unfold sizeof_MemoryHeader in *.
  rewrite wrap64_small in Hwrap by lia. lia.
Qed.

(* A header whose owner is another engine: Free returns [false] and
   changes nothing but the log. *)
Lemma Free_foreign_owner (p : Z) (st : State) :
  sizeof_MemoryHeader <= p ->
  load64 (memory st) (wrap64 (p - sizeof_MemoryHeader)) <> this st ->
  exists st',
    Free p st = Ret false st' /\
    statistics st' = statistics st /\
    allocations st' = allocations st /\
    profile st' = profile st /\
    memory st' = memory st /\
    heap_requests st' = heap_requests st /\
    heap_released st' = heap_released st.
Proof.
  intros Hp H. Free_header Hp.
  set (block := wrap64 (p - sizeof_MemoryHeader)) in *.
  destruct ((block =? nullptr) || (block >? p)) eqn:E.
  - mrun. eexists. split; [reflexivity|]. by cbn.
  - cbn [bind get read64 ret].
    unfold offsetof_memory_manager. rewrite Z.add_0_r.
    unfold block at 1. rewrite wrap64_idem. fold block.
    destruct (load64 (memory st) block =? this st) eqn:E3; [lia|].
    cbn [negb]. mrun. eexists. split; [reflexivity|]. by cbn.
Qed.

(** C5, at a failing input.  For the null pointer the header address
    wraps around: 0 - 24 is numerically greater than 0 as a 64-bit
    address.  Free does not return [false]: the address comes from pointer
    arithmetic that leaves the address space, which is undefined, so the
    test for a wrapped address that follows cannot be relied on. *)
Theorem Free_null_pointer_is_undefined :
  wrap64 (nullptr - sizeof_MemoryHeader) > nullptr /\
  Free nullptr class0_exhausted = Undefined.
Proof. split; by vm_compute. Qed.

(** C4. When the pointer and owner checks pass and the class index of the
    header is inside the table, a wrong header marker or a wrong trailer
    marker (read at payload + class size) makes Free count a deallocation,
    decrement [outstanding] unless it is 0, count a corruption, hand the
    block to delete[] instead of the free pool, and return [true]. *)
Theorem Free_corrupt_block (p : Z) (st : State)
    (d : MemoryDescriptor.t) (s : Statistics.t) :
  let block := wrap64 (p - sizeof_MemoryHeader) in
  let index := load64 (memory st) (wrap64 (block + offsetof_index)) in
  Z.of_nat (length (profile st)) <= SIZE_MAX ->
  block <> nullptr -> block <= p ->
  load64 (memory st) block = this st ->
  profile st !! Z.to_nat index = Some d ->
  statistics st !! Z.to_nat index = Some s ->
  load64 (memory st) (wrap64 (block + offsetof_marker)) <> Header_Marker_Value \/
  load64 (memory st)
    (wrap64 (block + sizeof_MemoryHeader + MemoryDescriptor.size d))
    <> Trailer_Marker_Value ->
  exists st' s',
    Free p st = Ret true st' /\
    statistics st' = <[Z.to_nat index := s']> (statistics st) /\
    Statistics.deallocations s' = wrap64 (Statistics.deallocations s + 1) /\
    (0 < Statistics.outstanding s ->
       Statistics.outstanding s' = wrap64 (Statistics.outstanding s - 1)) /\
    (Statistics.outstanding s = 0 -> Statistics.outstanding s' = 0) /\
    Statistics.corruption_count s' =
      wrap64 (Statistics.corruption_count s + 1) /\
    Statistics.size s' = Statistics.size s /\
    Statistics.allocations s' = Statistics.allocations s /\
    Statistics.max_outstanding s' = Statistics.max_outstanding s /\
    Statistics.unfulfilled s' = Statistics.unfulfilled s /\
    allocations st' = allocations st /\
    heap_released st' = block :: heap_released st /\
    profile st' = profile st /\
    memory st' = memory st.
Proof.
  intros block index Hlen Hnull Hwrap Hown Hd Hs Hbad.
  pose proof (Free_trusted p st d s Hlen Hnull Hwrap Hown Hd Hs) as HF.
  cbn zeta in HF. fold block in HF. fold index in HF.
  replace (negb _ || negb _) with true in HF.
  2:{ symmetry. apply orb_true_iff.
      destruct Hbad; [left|right]; apply negb_true_iff; lia. }
  eexists _, _. split; [exact HF|].
  split; [reflexivity|].
  unfold count_deallocation, count_corruption. cbn.
  destruct (0 <? Statistics.outstanding s) eqn:E; cbn;
    repeat split; try done; lia.
Qed.

(* The range test of Free on a table that has classes: an index beyond the
   last class sends the raw block to delete[] and nothing else happens. *)
Lemma Free_index_out_of_range (p : Z) (st : State) :
  let block := wrap64 (p - sizeof_MemoryHeader) in
  let index := load64 (memory st) (wrap64 (block + offsetof_index)) in
  block <> nullptr -> block <= p ->
  load64 (memory st) block = this st ->
  profile st <> [] ->
  index > wrap64 (Z.of_nat (length (profile st)) - 1) ->
  exists line,
    Free p st =
      Ret true (set_heap_released (block :: heap_released st)
                  (set_logger (logger st ++ [line]) st)).
Proof.
  intros block index Hnull Hwrap Hown Hne Hidx.
  pose proof (header_address_defined p Hwrap) as Hp.
  Free_header Hp. fold block.
  replace ((block =? nullptr) || (block >? p)) with false
    by (symmetry; apply orb_false_iff; lia).
  cbn [bind get read64 ret].
  unfold offsetof_memory_manager at 1. rewrite Z.add_0_r.
  unfold block at 1. rewrite wrap64_idem. fold block.
  rewrite Hown, Z.eqb_refl. cbn [negb bind get read64 ret]. fold index.
  replace (negb (vec_empty (profile st))
           && (index >? wrap64 (Z.of_nat (length (profile st)) - 1)))
    with true.
  2:{ symmetry. apply andb_true_iff. split; [by destruct (profile st)|lia]. }
  mrun. eexists. reflexivity.
Qed.

(* On an empty table the range test is skipped, whatever the index, and
   the next statement indexes the empty profile. *)
Lemma Free_empty_table (p : Z) (st : State) :
  let block := wrap64 (p - sizeof_MemoryHeader) in
  block <> nullptr -> block <= p ->
  load64 (memory st) block = this st ->
  profile st = [] ->
  Free p st = Undefined.
Proof.
  intros block Hnull Hwrap Hown Hempty.
  pose proof (header_address_defined p Hwrap) as Hp.
  Free_header Hp. fold block.
  replace ((block =? nullptr) || (block >? p)) with false
    by (symmetry; apply orb_false_iff; lia).
  cbn [bind get read64 ret].
  unfold offsetof_memory_manager at 1. rewrite Z.add_0_r.
  unfold block at 1. rewrite wrap64_idem. fold block.
  rewrite Hown, Z.eqb_refl. cbn [negb bind get read64 ret].
  rewrite Hempty. cbn [vec_empty negb andb].
  apply bind_Undefined, profile_at_None. by rewrite Hempty.
Qed.

(** ** MemoryManager::PerformAllocation *)

Section Growth.

Variable operator_new : nat -> Z -> NewResult.

(* PerformAllocation on a class whose three vector entries exist. *)
Lemma PerformAllocation_cases (index : nat) (st : State)
    (d : MemoryDescriptor.t) (pool : list Z) (s : Statistics.t) :
  profile st !! index = Some d ->
  allocations st !! index = Some pool ->
  statistics st !! index = Some s ->
  PerformAllocation operator_new index st =
    if beyond_constraints d pool s then Ret false st
    else
      let st1 := set_heap_requests (S (heap_requests st)) st in
      match operator_new (heap_requests st) (block_bytes d) with
      | NewThrows => Throw bad_alloc st1
      | NewPtr block =>
        if block =? nullptr then
          Ret false
            (set_logger
               (logger st ++ [(error, [Text "Failed to allocate heap memory"])])
               st1)
        else
          Ret true
            (set_allocations (<[index := pool ++ [block]]> (allocations st))
               (set_memory (stamp (this st) index d block (memory st)) st1))
      end.
Proof.
  intros Hd Hpool Hs. unfold PerformAllocation, beyond_constraints.
  mstep.
  destruct (negb (MemoryDescriptor.maximum d =? 0)) eqn:Hmax; cbn [andb].
  - destruct (negb (MemoryDescriptor.excess_allowed d)) eqn:Hex; cbn [andb].
    + mrun.
      destruct (MemoryDescriptor.maximum d <=? _) eqn:Hge; [done|].
      unfold bind at 1, new_array. fold (block_bytes d).
      destruct (operator_new (heap_requests st) (block_bytes d)) as [block|];
        [|done].
      destruct (block =? nullptr) eqn:Hb; [by mrun|].
      mrun. try erewrite bind_Ret by (apply update_allocations_Some; cbn; eauto).
      reflexivity.
    + mrun. unfold bind at 1, new_array. fold (block_bytes d).
      destruct (operator_new (heap_requests st) (block_bytes d)) as [block|];
        [|done].
      destruct (block =? nullptr) eqn:Hb; [by mrun|].
      mrun. try erewrite bind_Ret by (apply update_allocations_Some; cbn; eauto).
      reflexivity.
  - mrun. unfold bind at 1, new_array. fold (block_bytes d).
    destruct (operator_new (heap_requests st) (block_bytes d)) as [block|];
      [|done].
    destruct (block =? nullptr) eqn:Hb; [by mrun|].
    mrun. try erewrite bind_Ret by (apply update_allocations_Some; cbn; eauto).
    reflexivity.
Qed.

(** C3. Growth of a class is refused by policy (PerformAllocation returns
    [false] without consulting the system allocator and without changing
    anything) exactly when [maximum != 0], [excess_allowed] is false and the
    free-pool size plus [outstanding] reaches [maximum]; the sum is the one
    the code computes in 64 bits, which is the plain sum as long as that
    does not exceed SIZE_MAX.  In particular a class with [maximum == 0]
    and a class with [excess_allowed] are never refused by policy. *)
Theorem growth_gate (index : nat) (st : State)
    (d : MemoryDescriptor.t) (pool : list Z) (s : Statistics.t) :
  profile st !! index = Some d ->
  allocations st !! index = Some pool ->
  statistics st !! index = Some s ->
  (PerformAllocation operator_new index st = Ret false st <->
     MemoryDescriptor.maximum d <> 0 /\
     MemoryDescriptor.excess_allowed d = false /\
     wrap64 (Z.of_nat (length pool) + Statistics.outstanding s)
       >= MemoryDescriptor.maximum d) /\
  (0 <= Statistics.outstanding s ->
   Z.of_nat (length pool) + Statistics.outstanding s <= SIZE_MAX ->
   (PerformAllocation operator_new index st = Ret false st <->
      MemoryDescriptor.maximum d <> 0 /\
      MemoryDescriptor.excess_allowed d = false /\
      Z.of_nat (length pool) + Statistics.outstanding s
        >= MemoryDescriptor.maximum d)) /\
  (MemoryDescriptor.maximum d = 0 ->
     PerformAllocation operator_new index st <> Ret false st) /\
  (MemoryDescriptor.excess_allowed d = true ->
     PerformAllocation operator_new index st <> Ret false st).
Proof.
  intros Hd Hpool Hs.
  assert (Hiff : PerformAllocation operator_new index st = Ret false st <->
     MemoryDescriptor.maximum d <> 0 /\
     MemoryDescriptor.excess_allowed d = false /\
     wrap64 (Z.of_nat (length pool) + Statistics.outstanding s)
       >= MemoryDescriptor.maximum d).
  { rewrite (PerformAllocation_cases _ _ _ _ _ Hd Hpool Hs).
    unfold beyond_constraints.
    destruct (Z.eqb_spec (MemoryDescriptor.maximum d) 0) as [Hmax|Hmax];
      destruct (MemoryDescriptor.excess_allowed d) eqn:Hex;
      destruct (Z.leb_spec (MemoryDescriptor.maximum d)
                  (wrap64 (Z.of_nat (length pool) + Statistics.outstanding s)))
        as [Hge|Hge]; cbn [negb andb].
    8: split; [|intros (? & ? & ?); lia].
    7: split; [intros _; repeat split; lia | done].
    1-6: split; [|intros (? & ? & ?); done].
    all: cbn zeta;
      destruct (operator_new (heap_requests st) (block_bytes d)) as [block|];
      try done;
      destruct (block =? nullptr); try done;
      intros [= E]; apply (f_equal heap_requests) in E; cbn in E; lia. }
  split; [exact Hiff|]. split; [|split].
  - intros Hout Hsum. rewrite Hiff.
    rewrite wrap64_small by (unfold SIZE_MAX in Hsum; lia). done.
  - intros H0 HF. apply Hiff in HF as (? & _). done.
  - intros H0 HF. apply Hiff in HF as (_ & ? & _). congruence.
Qed.

End Growth.

(** ** MemoryManager::Allocate *)

Section Scan.

Variable operator_new : nat -> Z -> NewResult.

(* One iteration of the scan, on a class whose vector entries exist. *)
Lemma Allocate_loop_step (remaining index : nat) (size : Z) (st : State)
    (d : MemoryDescriptor.t) (pool : list Z) (s : Statistics.t) :
  profile st !! index = Some d ->
  allocations st !! index = Some pool ->
  statistics st !! index = Some s ->
  Allocate_loop operator_new (S remaining) index size st =
    if MemoryDescriptor.size d <? size then
      Allocate_loop operator_new remaining (S index) size st
    else
      match last pool with
      | Some block =>
        Ret (wrap64 (block + sizeof_MemoryHeader))
            (served index s (removelast pool) st)
      | None =>
        if beyond_constraints d pool s then
          Allocate_loop operator_new remaining (S index) size (passed index s st)
        else
          let st1 := set_heap_requests (S (heap_requests st)) st in
          match operator_new (heap_requests st) (block_bytes d) with
          | NewThrows => Throw bad_alloc st1
          | NewPtr block =>
            if block =? nullptr then
              Allocate_loop operator_new remaining (S index) size
                (passed index s
                   (set_logger
                      (logger st ++
                         [(error, [Text "Failed to allocate heap memory"])])
                      st1))
            else
              Ret (wrap64 (block + sizeof_MemoryHeader))
                  (served index s []
                     (set_memory (stamp (this st) index d block (memory st))
                        st1))
          end
      end.
Proof.
  intros Hd Hpool Hs. cbn [Allocate_loop]. mstep.
  destruct (MemoryDescriptor.size d <? size); [done|].
  mstep.
  destruct pool as [|b pool] using rev_ind.
  - cbn [vec_empty last].
    unfold bind at 1, bind at 1.
    rewrite (PerformAllocation_cases _ _ _ _ _ _ Hd Hpool Hs).
    destruct (beyond_constraints d [] s).
    { cbn. mrun. reflexivity. }
    cbn zeta.
    destruct (operator_new (heap_requests st) (block_bytes d)) as [block|];
      [|done].
    destruct (block =? nullptr).
    + cbn. erewrite bind_Ret by (apply update_statistics_Some; cbn; eauto).
      reflexivity.
    + cbn [ret negb].
      erewrite bind_Ret
        by (apply allocations_at_Some; cbn; apply list_lookup_insert_eq;
            by eapply lookup_lt_Some).
      cbn [app last].
      erewrite bind_Ret by (apply update_statistics_Some; cbn; eauto).
      erewrite bind_Ret
        by (apply update_allocations_Some; cbn; apply list_lookup_insert_eq;
            by eapply lookup_lt_Some).
      cbn. unfold served. cbn. by rewrite list_insert_insert_eq.
  - clear IHpool.
    replace (vec_empty (pool ++ [b])) with false by (by destruct pool).
    rewrite last_snoc, removelast_last.
    mrun. cbv iota. mrun. rewrite last_snoc.
    mrun. cbv beta. rewrite removelast_last. reflexivity.
Qed.

(* A class too small for the request is stepped over. *)
Lemma scan_post_skipped (size : Z) (i0 : nat) (st : State) (p : Z) (st' : State)
    (d : MemoryDescriptor.t) :
  profile st !! i0 = Some d ->
  MemoryDescriptor.size d < size ->
  scan_post operator_new size (S i0) st p st' ->
  scan_post operator_new size i0 st p st'.
Proof.
  intros Hd Hsmall
    (index & d' & pool & s & block & Hle & Hd' & Hpool & Hs & Hfit & Hp & Hsrc
     & Hpool' & Hs' & Hbefore & Hother & Hprof & Hreq).
  exists index, d', pool, s, block.
  split_and!; try done; try lia.
  - intros j dj Hj Hdj.
    destruct (decide (j = i0)) as [->|Hne].
    + assert (dj = d) as -> by congruence.
      destruct (Hother i0) as [Ha Hst]; [lia|].
      split_and!; try done. lia.
    + apply Hbefore; [lia|done].
  - intros j Hj. apply Hother; lia.
Qed.

(* A class that could not serve the request is counted and left behind. *)
Lemma scan_post_passed (size : Z) (i0 : nat) (st st2 : State) (p : Z)
    (st' : State) (d : MemoryDescriptor.t) (s : Statistics.t) :
  profile st !! i0 = Some d ->
  allocations st !! i0 = Some [] ->
  statistics st !! i0 = Some s ->
  size <= MemoryDescriptor.size d ->
  profile st2 = profile st ->
  allocations st2 = allocations st ->
  statistics st2 = <[i0 := count_unfulfilled s]> (statistics st) ->
  (heap_requests st <= heap_requests st2)%nat ->
  (beyond_constraints d [] s = true \/
   (heap_requests st < heap_requests st2)%nat /\
   operator_new (heap_requests st) (block_bytes d) = NewPtr nullptr) ->
  scan_post operator_new size (S i0) st2 p st' ->
  scan_post operator_new size i0 st p st'.
Proof.
  intros Hd Hpool Hs Hfit Hprof2 Hall2 Hst2 Hreq2 Hfail
    (index & d' & pool' & s' & block & Hle & Hd' & Hpool' & Hs' & Hfit' & Hp
     & Hsrc & Hpool'' & Hs'' & Hbefore & Hother & Hprof & Hreq).
  rewrite Hprof2 in Hd'. rewrite Hall2 in Hpool'.
  rewrite Hst2, list_lookup_insert_ne in Hs' by lia.
  exists index, d', pool', s', block.
  split_and!; try done; try lia.
  - destruct Hsrc as [Hsrc|(-> & Hb & k & Hk & Hnew & Hnn)]; [by left|right].
    split_and!; try done. exists k. split_and!; try done; lia.
  - intros j dj Hj Hdj.
    destruct (decide (j = i0)) as [->|Hne].
    + assert (dj = d) as -> by congruence.
      destruct (Hother i0) as [Ha Hst]; [lia|].
      rewrite Hall2 in Ha.
      rewrite Hst2, list_lookup_insert_eq in Hst by (by eapply lookup_lt_Some).
      split_and!; try done; [lia|].
      intros _. split; [done|].
      exists s. split_and!; try done.
      destruct Hfail as [Hb|[Hlt Hnew]]; [by left|right].
      exists (heap_requests st). split; [lia|done].
    + rewrite Hprof2 in Hbefore.
      destruct (Hbefore j dj) as (Ha & Hsm & Hbig); [lia|done|].
      rewrite Hall2 in Ha, Hbig.
      rewrite Hst2, list_lookup_insert_ne in Hsm, Hbig by lia.
      split_and!; try done.
      intros Hfitj. destruct (Hbig Hfitj) as (Hempty & sj & Hsj & Hf & Hsj').
      split; [done|].
      exists sj. split_and!; try done.
      destruct Hf as [Hf|(k & Hk & Hnew)]; [by left|right].
      exists k. split; [lia|done].
  - intros j Hj. destruct (Hother j) as [Ha Hst]; [lia|].
    rewrite Hall2 in Ha.
    rewrite Hst2, list_lookup_insert_ne in Hst by lia. done.
  - congruence.
Qed.

End Scan.

Section ScanResult.

Variable operator_new : nat -> Z -> NewResult.

Lemma aligned_lookups (st : State) (i : nat) :
  aligned st -> (i < length (profile st))%nat ->
  exists d pool s,
    profile st !! i = Some d /\
    allocations st !! i = Some pool /\
    statistics st !! i = Some s.
Proof.
  intros [Ha Hs] Hi.
  destruct (lookup_lt_is_Some_2 (profile st) i Hi) as [d Hd].
  destruct (lookup_lt_is_Some_2 (allocations st) i) as [pool Hpool]; [lia|].
  destruct (lookup_lt_is_Some_2 (statistics st) i) as [s Hst]; [lia|].
  by exists d, pool, s.
Qed.

Lemma last_None_nil {A} (l : list A) : last l = None -> l = [].
Proof.
  destruct l as [|x l] using rev_ind; [done|]. by rewrite last_snoc.
Qed.

(* The scan, from any class on. *)
Lemma Allocate_loop_post (size : Z) (remaining : nat) :
  forall (i0 : nat) (st : State) (p : Z) (st' : State),
    aligned st ->
    (i0 + remaining = length (profile st))%nat ->
    Allocate_loop operator_new remaining i0 size st = Ret p st' ->
    p <> nullptr ->
    scan_post operator_new size i0 st p st'.
Proof.
  induction remaining as [|r IH]; intros i0 st p st' Hal Hlen Hrun Hp.
  { cbn in Hrun. injection Hrun as <- _. done. }
  destruct (aligned_lookups st i0 Hal) as (d & pool & s & Hd & Hpool & Hs);
    [lia|].
  rewrite (Allocate_loop_step _ _ _ _ _ _ _ _ Hd Hpool Hs) in Hrun.
  destruct (Z.ltb_spec (MemoryDescriptor.size d) size) as [Hsmall|Hfit].
  { eapply scan_post_skipped; [done..|]. apply IH; [done|lia|done..]. }
  destruct (last pool) as [block|] eqn:Hlast.
  { (* served from the pool *)
    injection Hrun as <- <-.
    exists i0, d, pool, s, block. unfold served. cbn.
    split_and!; try done; try lia;
      try (apply list_lookup_insert_eq; by eapply lookup_lt_Some).
    - by left.
    - intros j Hj. split; apply list_lookup_insert_ne; lia. }
  apply last_None_nil in Hlast as ->.
  destruct (beyond_constraints d [] s) eqn:Hgate.
  { eapply (scan_post_passed _ _ _ st (passed i0 s st)); try done.
    - by left.
    - apply IH; [|cbn; lia|done..].
      destruct Hal. split; cbn; by rewrite ?length_insert. }
  cbn zeta in Hrun.
  destruct (operator_new (heap_requests st) (block_bytes d)) as [block|] eqn:Hnew;
    [|done].
  destruct (Z.eqb_spec block nullptr) as [->|Hnn].
  { match type of Hrun with
    | Allocate_loop _ _ _ _ ?st2 = _ =>
      eapply (scan_post_passed _ _ _ st st2); try done
    end.
    - cbn. lia.
    - right. split; [cbn; lia|done].
    - apply IH; [|cbn; lia|done..].
      destruct Hal. split; cbn; by rewrite ?length_insert. }
  (* served by growing the pool *)
  injection Hrun as <- <-.
  exists i0, d, [], s, block. unfold served. cbn.
  split_and!; try done; try lia;
    try (apply list_lookup_insert_eq; by eapply lookup_lt_Some).
  - right. split_and!; try done. exists (heap_requests st).
    split_and!; try done; lia.
  - intros j Hj. split; apply list_lookup_insert_ne; lia.
Qed.

(** C1. A call of Allocate that returns a pointer takes the block from the
    class of least index among those that are large enough and whose pool
    either holds a block or can be grown.  The statistics of that class are
    updated ([allocations] and [outstanding] incremented, [max_outstanding]
    raised to [outstanding] if below), classes after it are not touched,
    and every class before it that is large enough had an empty pool, could
    not be grown, and has [unfulfilled] incremented by one; classes that
    are too small are not touched either. *)
Theorem Allocate_takes_first_available (size : Z) (st : State) (p : Z)
    (st' : State) :
  aligned st ->
  Allocate operator_new size st = Ret p st' ->
  p <> nullptr ->
  exists (index : nat) (d : MemoryDescriptor.t) (pool : list Z)
         (s s' : Statistics.t) (block : Z),
    profile st !! index = Some d /\
    allocations st !! index = Some pool /\
    statistics st !! index = Some s /\
    size <= MemoryDescriptor.size d /\
    p = wrap64 (block + sizeof_MemoryHeader) /\
    (* where the block comes from *)
    (last pool = Some block \/
     pool = [] /\ beyond_constraints d [] s = false /\
     exists k, (heap_requests st <= k < heap_requests st')%nat /\
               operator_new k (block_bytes d) = NewPtr block /\
               block <> nullptr) /\
    allocations st' !! index = Some (removelast pool) /\
    (* the statistics of the serving class *)
    statistics st' !! index = Some s' /\
    Statistics.allocations s' = wrap64 (Statistics.allocations s + 1) /\
    Statistics.outstanding s' = wrap64 (Statistics.outstanding s + 1) /\
    Statistics.max_outstanding s' =
      Z.max (Statistics.outstanding s') (Statistics.max_outstanding s) /\
    Statistics.size s' = Statistics.size s /\
    Statistics.deallocations s' = Statistics.deallocations s /\
    Statistics.corruption_count s' = Statistics.corruption_count s /\
    Statistics.unfulfilled s' = Statistics.unfulfilled s /\
    (* the classes before it *)
    (forall j dj, (j < index)%nat -> profile st !! j = Some dj ->
       allocations st' !! j = allocations st !! j /\
       (MemoryDescriptor.size dj < size ->
          statistics st' !! j = statistics st !! j) /\
       (size <= MemoryDescriptor.size dj ->
          allocations st !! j = Some [] /\
          exists sj, statistics st !! j = Some sj /\
            (beyond_constraints dj [] sj = true \/
             exists k, (heap_requests st <= k < heap_requests st')%nat /\
                       operator_new k (block_bytes dj) = NewPtr nullptr) /\
            statistics st' !! j =
              Some (Statistics.set_unfulfilled
                      (wrap64 (Statistics.unfulfilled sj + 1)) sj))) /\
    (* the classes after it *)
    (forall j, (index < j)%nat ->
       allocations st' !! j = allocations st !! j /\
       statistics st' !! j = statistics st !! j) /\
    profile st' = profile st.
Proof.
  intros Hal Hrun Hp. unfold Allocate in Hrun.
  rewrite (bind_Ret _ _ _ _ _ (get_run st)) in Hrun.
  apply Allocate_loop_post in Hrun; [|done|lia|done].
  destruct Hrun
    as (index & d & pool & s & block & Hle & Hd & Hpool & Hs & Hfit & Hpay
        & Hsrc & Hpool' & Hs' & Hbefore & Hother & Hprof & Hreq).
  exists index, d, pool, s, (count_allocation s), block.
  split_and!; try done.
  - intros j dj Hj Hdj. apply Hbefore; [lia|done].
  - intros j Hj. apply Hother. lia.
Qed.

End ScanResult.

(** ** Allocation cannot fail when excess is allowed *)

Lemma largest_size_reached (l : MemoryProfile) (m : Z) :
  largest_size l = Some m ->
  exists j d, l !! j = Some d /\ MemoryDescriptor.size d = m.
Proof.
  destruct l as [|d0 l]; [done|]. cbn. intros [= <-].
  induction l as [|x l IH]; cbn.
  - by exists 0%nat, d0.
  - destruct IH as (j & d & Hj & Hd).
    destruct (Z.max_spec (MemoryDescriptor.size x)
                (foldr (fun x acc => Z.max (MemoryDescriptor.size x) acc)
                       (MemoryDescriptor.size d0) l)) as [[_ ->]|[_ ->]].
    + destruct j as [|j]; [by exists 0%nat, d|].
      by exists (S (S j)), d.
    + by exists 1%nat, x.
Qed.

Lemma largest_size_bound (l : MemoryProfile) (d : MemoryDescriptor.t) :
  d ∈ l -> exists m, largest_size l = Some m /\ MemoryDescriptor.size d <= m.
Proof.
  destruct l as [|d0 l]; [by intros ?%elem_of_nil|].
  intros Hin. eexists. split; [reflexivity|].
  apply elem_of_cons in Hin as [->|Hin].
  - induction l as [|x l IH]; cbn; lia.
  - induction l as [|x l IH]; [by apply elem_of_nil in Hin|].
    cbn. apply elem_of_cons in Hin as [->|Hin]; [lia|].
    specialize (IH Hin). lia.
Qed.

Section NoFailure.

Variable operator_new : nat -> Z -> NewResult.
Hypothesis heap_ok : never_fails operator_new.

Lemma allows_excess_gate (d : MemoryDescriptor.t) pool s :
  allows_excess d -> beyond_constraints d pool s = false.
Proof.
  unfold beyond_constraints. intros [->| ->]; [|done].
  by rewrite andb_false_r.
Qed.

Lemma Forall_removelast {A} (P : A -> Prop) (l : list A) :
  Forall P l -> Forall P (removelast l).
Proof.
  destruct l as [|x l] using rev_ind; [done|].
  rewrite removelast_last. by intros [? _]%Forall_app.
Qed.

Lemma Forall_last {A} (P : A -> Prop) (l : list A) (x : A) :
  Forall P l -> last l = Some x -> P x.
Proof.
  destruct l as [|y l] using rev_ind; [done|].
  rewrite last_snoc. intros [_ Hy]%Forall_app [= <-].
  by inversion Hy.
Qed.

(* The scan succeeds as soon as a class from [i0] on is large enough. *)
Lemma Allocate_loop_succeeds (size : Z) (remaining : nat) :
  forall (i0 : nat) (st : State),
    excess_engine st ->
    (i0 + remaining = length (profile st))%nat ->
    (exists j d, (i0 <= j)%nat /\ profile st !! j = Some d /\
                 size <= MemoryDescriptor.size d) ->
    exists p st',
      Allocate_loop operator_new remaining i0 size st = Ret p st' /\
      p <> nullptr /\
      excess_engine st' /\
      profile st' = profile st.
Proof.
  induction remaining as [|r IH];
    intros i0 st (Hal & Hex & Hpools) Hlen (j & dj & Hj & Hdj & Hfit).
  { apply lookup_lt_Some in Hdj. lia. }
  destruct (aligned_lookups st i0 Hal) as (d & pool & s & Hd & Hpool & Hs);
    [lia|].
  rewrite (Allocate_loop_step _ _ _ _ _ _ _ _ Hd Hpool Hs).
  assert (Hvalid : Forall valid_block pool).
  { eapply Forall_lookup_1 in Hpools; eauto. }
  assert (Hserved : forall rest st0,
            Forall valid_block rest ->
            profile st0 = profile st -> allocations st0 = allocations st ->
            statistics st0 = statistics st ->
            excess_engine (served i0 s rest st0)).
  { intros rest st0 Hrest Hp0 Ha0 Hs0. destruct Hal as [Hal1 Hal2].
    unfold served. split_and!; cbn.
    - split; cbn; rewrite length_insert; congruence.
    - by rewrite Hp0.
    - rewrite Ha0. by apply Forall_insert. }
  destruct (Z.ltb_spec (MemoryDescriptor.size d) size) as [Hsmall|Hbig].
  { apply IH; [done|lia|].
    exists j, dj. split_and!; try done.
    destruct (decide (j = i0)) as [->|]; [|lia].
    assert (dj = d) as -> by congruence. lia. }
  destruct (last pool) as [block|] eqn:Hlast.
  { eexists _, _. split; [reflexivity|].
    split_and!; try done.
    - eapply Forall_last in Hlast; [|done].
      by apply payload_of_block in Hlast as (-> & _ & ?).
    - apply Hserved; try done. by apply Forall_removelast. }
  apply last_None_nil in Hlast as ->.
  rewrite allows_excess_gate by (eapply Forall_lookup_1 in Hex; eauto).
  cbn zeta.
  destruct (heap_ok (heap_requests st) (block_bytes d)) as (a & -> & Ha).
  pose proof (payload_of_block a Ha) as (Hpay & _ & Hnn).
  replace (a =? nullptr) with false
    by (symmetry; apply Z.eqb_neq; destruct Ha; unfold nullptr; lia).
  eexists _, _. split; [reflexivity|].
  split_and!; try done.
  - by rewrite Hpay.
  - by apply Hserved.
Qed.

Lemma Allocate_succeeds (size : Z) (st : State) :
  excess_engine st ->
  fits size (profile st) ->
  exists p st',
    Allocate operator_new size st = Ret p st' /\
    p <> nullptr /\
    excess_engine st' /\
    profile st' = profile st.
Proof.
  intros Hinv (m & Hm & Hle).
  apply largest_size_reached in Hm as (j & d & Hj & Hd).
  unfold Allocate. rewrite (bind_Ret _ _ _ _ _ (get_run st)).
  apply Allocate_loop_succeeds; [done|lia|].
  exists j, d. split_and!; [lia|done|lia].
Qed.

Lemma Allocate_each_succeeds (sizes : list Z) :
  forall st : State,
    excess_engine st ->
    Forall (fun size => fits size (profile st)) sizes ->
    exists ps st',
      Allocate_each operator_new sizes st = Ret ps st' /\
      length ps = length sizes /\
      Forall (fun p => p <> nullptr) ps.
Proof.
  induction sizes as [|size sizes IH]; intros st Hinv Hfits.
  { by exists [], st. }
  apply Forall_cons in Hfits as [Hfit Hfits].
  destruct (Allocate_succeeds size st Hinv Hfit) as (p & st1 & Hrun & Hp & Hinv1 & Hprof).
  destruct (IH st1 Hinv1) as (ps & st2 & Hrun2 & Hlen & Hps).
  { by rewrite Hprof. }
  exists (p :: ps), st2. cbn [Allocate_each].
  rewrite (bind_Ret _ _ _ _ _ Hrun), (bind_Ret _ _ _ _ _ Hrun2).
  split_and!; [done|cbn; lia|by constructor].
Qed.

End NoFailure.

(** ** MemoryManager::MemoryManager *)

Lemma repaired_size (d : MemoryDescriptor.t) :
  MemoryDescriptor.size (repaired d) = MemoryDescriptor.size d.
Proof. unfold repaired. by destruct (_ && _). Qed.

Lemma repaired_minimum (d : MemoryDescriptor.t) :
  MemoryDescriptor.minimum (repaired d) = MemoryDescriptor.minimum d.
Proof. unfold repaired. by destruct (_ && _). Qed.

Lemma repaired_allows_excess (d : MemoryDescriptor.t) :
  allows_excess d -> allows_excess (repaired d).
Proof.
  unfold repaired, allows_excess.
  destruct (Z.eqb_spec (MemoryDescriptor.maximum d) 0) as [E|E]; cbn; [done|].
  destruct (_ <? _); cbn; [|done].
  intros [?|?]; [by left|done].
Qed.

Section Construction.

Variable operator_new : nat -> Z -> NewResult.

(* [ok] holds of every block a new-expression yields. *)
Variable ok : Z -> Prop.
Hypothesis ok_new :
  forall k n b, operator_new k n = NewPtr b -> b <> nullptr -> ok b.

Lemma PerformAllocation_outcome (index : nat) (st : State) :
  (index < length (profile st))%nat ->
  (index < length (allocations st))%nat ->
  (index < length (statistics st))%nat ->
  Forall (Forall ok) (allocations st) ->
  match PerformAllocation operator_new index st with
  | Ret _ st' => kept ok st st'
  | Throw _ _ => heap_throws operator_new
  | Undefined => False
  end.
Proof.
  intros Hp Ha Hs Hok.
  destruct (lookup_lt_is_Some_2 _ _ Hp) as [d Hd].
  destruct (lookup_lt_is_Some_2 _ _ Ha) as [pool Hpool].
  destruct (lookup_lt_is_Some_2 _ _ Hs) as [s Hst].
  rewrite (PerformAllocation_cases _ _ _ _ _ _ Hd Hpool Hst).
  destruct (beyond_constraints d pool s); [by repeat split|].
  cbn zeta.
  destruct (operator_new (heap_requests st) (block_bytes d)) as [block|] eqn:Hnew.
  - destruct (Z.eqb_spec block nullptr) as [->|Hnn]; [by repeat split|].
    unfold kept. cbn. rewrite length_insert. split_and!; try done.
    apply Forall_insert; [done|].
    apply Forall_app. split.
    + eapply Forall_lookup_1 in Hok; eauto.
    + apply Forall_singleton. eauto.
  - by eexists _, _.
Qed.

Lemma preallocate_outcome (index count : nat) :
  forall st : State,
    (index < length (profile st))%nat ->
    (index < length (allocations st))%nat ->
    (index < length (statistics st))%nat ->
    Forall (Forall ok) (allocations st) ->
    match preallocate operator_new count index st with
    | Ret _ st' => kept ok st st'
    | Throw _ _ => heap_throws operator_new
    | Undefined => False
    end.
Proof.
  induction count as [|count IH]; intros st Hp Ha Hs Hok.
  { by repeat split. }
  cbn [preallocate]. unfold bind at 1.
  pose proof (PerformAllocation_outcome index st Hp Ha Hs Hok) as H1.
  destruct (PerformAllocation operator_new index st) as [b st1|e st1|];
    [|done..].
  destruct H1 as (Hp1 & Hs1 & Ht1 & Ha1 & Hok1).
  specialize (IH st1). rewrite Hp1, Hs1, Ha1 in IH.
  specialize (IH Hp Ha Hs Hok1).
  destruct (preallocate operator_new count index st1) as [u st2|e st2|];
    [|done..].
  destruct IH as (Hp2 & Hs2 & Ht2 & Ha2 & Hok2).
  unfold kept. split_and!; try done; congruence.
Qed.

(* The constructor loop, entered at class [index] with the vectors of the
   classes before it in place. *)
Lemma constructor_loop_outcome (remaining : nat) :
  forall (index : nat) (st : State),
    (index + remaining = length (profile st))%nat ->
    length (allocations st) = index ->
    length (statistics st) = index ->
    Forall (Forall ok) (allocations st) ->
    match constructor_loop operator_new remaining index st with
    | Ret _ st' =>
      profile st' =
        take index (profile st) ++ map repaired (drop index (profile st)) /\
      statistics st' =
        statistics st ++
        map (fun d => Statistics.zero (MemoryDescriptor.size d))
            (drop index (profile st)) /\
      aligned st' /\
      this st' = this st /\
      Forall (Forall ok) (allocations st')
    | Throw _ _ => heap_throws operator_new
    | Undefined => False
    end.
Proof.
  induction remaining as [|r IH]; intros index st Hlen Ha Hs Hok.
  { cbn. rewrite drop_ge, take_ge by lia. cbn. rewrite !app_nil_r.
    split_and!; try done. split; lia. }
  destruct (lookup_lt_is_Some_2 (profile st) index) as [d Hd]; [lia|].
  cbn [constructor_loop]. mstep.
  (* the repair *)
  set (st1 := if negb (MemoryDescriptor.maximum d =? 0)
                 && (MemoryDescriptor.maximum d <? MemoryDescriptor.minimum d)
              then set_profile (<[index := repaired d]> (profile st))
                     (set_logger
                        (logger st ++
                           [(warning,
                             [Text "Descriptor size ";
                              Num (MemoryDescriptor.size d);
                              Text " has an invalid maximum value"])]) st)
              else st).
  assert (Hrepair :
    (if negb (MemoryDescriptor.maximum d =? 0)
        && (MemoryDescriptor.maximum d <? MemoryDescriptor.minimum d)
     then
       log warning [Text "Descriptor size "; Num (MemoryDescriptor.size d);
                    Text " has an invalid maximum value"] ;;
       update_profile index
         (MemoryDescriptor.set_maximum (MemoryDescriptor.minimum d))
     else ret tt) st = Ret tt st1).
  { unfold st1, repaired.
    destruct (negb _ && _); [|done].
    mstep. erewrite update_profile_Some by (cbn; eauto). done. }
  assert (Hst1 : profile st1 = <[index := repaired d]> (profile st) /\
                 allocations st1 = allocations st /\
                 statistics st1 = statistics st /\
                 this st1 = this st).
  { unfold st1, repaired.
    destruct (negb _ && _); cbn; [done|].
    by rewrite list_insert_id. }
  destruct Hst1 as (Hp1 & Ha1 & Hs1 & Ht1).
  rewrite (bind_Ret _ _ _ _ _ Hrepair). clearbody st1. clear Hrepair.
  assert (Hd1 : profile st1 !! index = Some (repaired d)).
  { rewrite Hp1. apply list_lookup_insert_eq. lia. }
  mrun.
  (* the pre-allocation *)
  match goal with
  | |- match (_ <- preallocate _ ?c _ ;; _) ?s with _ => _ end =>
    set (st2 := s);
    pose proof (preallocate_outcome index c st2) as Hpre
  end.
  unfold bind at 1.
  destruct (preallocate operator_new _ index st2) as [u st3|e st3|].
  2,3: apply Hpre; unfold st2; cbn;
    rewrite ?Hp1, ?Ha1, ?Hs1, ?length_insert, ?length_app; cbn; try lia;
    apply Forall_app; split; [done|by repeat constructor].
  destruct Hpre as (Hp3 & Hs3 & Ht3 & Ha3 & Hok3).
  { unfold st2; cbn. rewrite Hp1, length_insert. lia. }
  { unfold st2; cbn. rewrite Ha1, length_app. cbn. lia. }
  { unfold st2; cbn. rewrite Hs1, length_app. cbn. lia. }
  { unfold st2; cbn. rewrite Ha1. apply Forall_app. split; [done|].
    by repeat constructor. }
  unfold st2 in Hp3, Hs3, Ht3, Ha3. cbn in Hp3, Hs3, Ht3, Ha3.
  rewrite Hp1 in Hp3. rewrite Hs1 in Hs3. rewrite Ha1, length_app in Ha3.
  cbn in Ha3.
  specialize (IH (S index) st3).
  rewrite Hp3, Hs3, length_insert, length_app in IH. cbn in IH.
  specialize (IH ltac:(lia) ltac:(lia) ltac:(lia) Hok3).
  destruct (constructor_loop operator_new r (S index) st3) as [u' st'|e st'|];
    [|done..].
  destruct IH as (Hp' & Hs' & Hal' & Ht' & Hok').
  split_and!; try done; [| |congruence].
  - rewrite Hp'.
    rewrite (take_S_r _ _ (repaired d))
      by (apply list_lookup_insert_eq; lia).
    rewrite take_insert_ge by lia. rewrite drop_insert_lt by lia.
    rewrite (drop_S _ _ _ Hd). cbn. by rewrite <- app_assoc.
  - rewrite Hs'. rewrite drop_insert_lt by lia.
    rewrite (drop_S _ _ _ Hd). cbn. rewrite repaired_size.
    by rewrite <- app_assoc.
Qed.

(* Construction either completes with the table [map repaired] of the
   sorted input, or is cut short by std::bad_alloc. *)
Lemma MemoryManager_ctor_outcome
    (std_sort : (MemoryDescriptor.t -> MemoryDescriptor.t -> bool) ->
                MemoryProfile -> MemoryProfile)
    (self : Z) (input : MemoryProfile) (env : State) :
  match MemoryManager_ctor operator_new std_sort self input env with
  | Ret _ st => constructed ok self (std_sort size_less input) st
  | Throw _ _ => heap_throws operator_new
  | Undefined => False
  end.
Proof.
  unfold MemoryManager_ctor, MemoryManager_body. mrun.
  match goal with
  | |- match constructor_loop _ ?r ?i ?s with _ => _ end =>
    pose proof (constructor_loop_outcome r i s) as H
  end.
  cbn in H. specialize (H eq_refl eq_refl eq_refl ltac:(constructor)).
  cbn.
  destruct (constructor_loop _ _ _ _) as [u st|e st|]; [|done..].
  destruct H as (Hp & Hs & Hal & Ht & Hok). rewrite drop_0 in Hp, Hs.
  by split_and!.
Qed.

End Construction.

(** ** The class table *)

(* No public operation writes the profile. *)
Section Preservation.

Variable operator_new : nat -> Z -> NewResult.

Lemma same_table_refl s : same_table s s.
Proof. by repeat split. Qed.

Lemma same_table_trans s1 s2 s3 :
  same_table s1 s2 -> same_table s2 s3 -> same_table s1 s3.
Proof.
  intros (? & ? & ?) (? & ? & ?). unfold same_table. split_and!; congruence.
Qed.

Lemma preserves_ret {A} (a : A) : preserves same_table (ret a).
Proof. intros s. apply same_table_refl. Qed.

Lemma preserves_undefined {A} : preserves same_table (@undefined A).
Proof. by intros s. Qed.

Lemma preserves_bind {A B} (c : M A) (k : A -> M B) :
  preserves same_table c ->
  (forall a, preserves same_table (k a)) ->
  preserves same_table (x <- c ;; k x).
Proof.
  intros Hc Hk s. unfold bind. specialize (Hc s).
  destruct (c s) as [a s1|e s1|]; [|done..].
  specialize (Hk a s1).
  destruct (k a s1) as [b s2|e s2|]; [| |done];
    by eapply same_table_trans.
Qed.

Lemma preserves_get : preserves same_table get.
Proof. intros s. apply same_table_refl. Qed.

Lemma preserves_at_index {A} (v : list A) i : preserves same_table (at_index v i).
Proof.
  unfold at_index. destruct (v !! i);
    [apply preserves_ret|apply preserves_undefined].
Qed.

Lemma preserves_log lvl items : preserves same_table (log lvl items).
Proof. by intros s. Qed.

Lemma preserves_read64 a : preserves same_table (read64 a).
Proof. intros s. apply same_table_refl. Qed.

Lemma preserves_write64 a v : preserves same_table (write64 a v).
Proof. by intros s. Qed.

Lemma preserves_operator_delete b : preserves same_table (operator_delete b).
Proof. by intros s. Qed.

Lemma preserves_new_array n : preserves same_table (new_array operator_new n).
Proof. intros s. unfold new_array. by destruct (operator_new _ _). Qed.

Lemma preserves_profile_at i : preserves same_table (profile_at i).
Proof.
  apply preserves_bind; [apply preserves_get|intros; apply preserves_at_index].
Qed.

Lemma preserves_allocations_at i : preserves same_table (allocations_at i).
Proof.
  apply preserves_bind; [apply preserves_get|intros; apply preserves_at_index].
Qed.

Lemma preserves_statistics_at i : preserves same_table (statistics_at i).
Proof.
  apply preserves_bind; [apply preserves_get|intros; apply preserves_at_index].
Qed.

Lemma preserves_update_statistics i f :
  preserves same_table (update_statistics i f).
Proof.
  apply preserves_bind; [apply preserves_statistics_at|].
  intros x s. unfold modify, same_table.
  split_and!; try done. apply length_insert.
Qed.

Lemma preserves_update_allocations i f :
  preserves same_table (update_allocations i f).
Proof.
  apply preserves_bind; [apply preserves_allocations_at|].
  intros x s. unfold modify, same_table.
  split_and!; try done. apply length_insert.
Qed.

Create HintDb preserve discriminated.
#[local] Hint Resolve preserves_ret preserves_undefined preserves_get
  preserves_log preserves_read64 preserves_write64 preserves_operator_delete
  preserves_new_array preserves_profile_at preserves_allocations_at
  preserves_statistics_at preserves_update_statistics
  preserves_update_allocations preserves_at_index : preserve.

(* walk through a command: sequencing, then the branches of every test *)
Ltac preserve :=
  repeat first
    [ solve [eauto with preserve]
    | apply preserves_bind; [|intros ?]
    | match goal with
      | |- preserves _ (if ?c then _ else _) => destruct c
      | |- preserves _ (match ?x with _ => _ end) => destruct x
      end ].

Lemma preserves_PerformAllocation index :
  preserves same_table (PerformAllocation operator_new index).
Proof. unfold PerformAllocation. preserve. Qed.

Lemma preserves_Allocate_loop size remaining :
  forall index,
    preserves same_table (Allocate_loop operator_new remaining index size).
Proof.
  induction remaining as [|r IH]; intros index; cbn [Allocate_loop].
  - apply preserves_ret.
  - pose proof preserves_PerformAllocation. preserve.
Qed.

Lemma preserves_Allocate size :
  preserves same_table (Allocate operator_new size).
Proof.
  unfold Allocate. apply preserves_bind; [apply preserves_get|].
  intros s. apply preserves_Allocate_loop.
Qed.

Lemma preserves_pointer_minus p n : preserves same_table (pointer_minus p n).
Proof. unfold pointer_minus. destruct (p <? n); preserve. Qed.

Lemma preserves_Free p : preserves same_table (Free p).
Proof.
  unfold Free. apply preserves_bind; [apply preserves_pointer_minus|].
  intros block. preserve.
Qed.

Lemma preserves_GetStatistics : preserves same_table GetStatistics.
Proof. unfold GetStatistics. preserve. Qed.

Lemma preserves_perform_all calls :
  preserves same_table (perform_all operator_new calls).
Proof.
  induction calls as [|c calls IH]; cbn [perform_all].
  - apply preserves_ret.
  - apply preserves_bind; [|by intros].
    pose proof preserves_Allocate. pose proof preserves_Free.
    pose proof preserves_GetStatistics.
    destruct c; cbn [perform]; preserve.
Qed.

Lemma table_never_changes calls (st st' : State) :
  final_state (perform_all operator_new calls st) = Some st' ->
  profile st' = profile st.
Proof.
  intros H. pose proof (preserves_perform_all calls st) as Hp.
  destruct (perform_all operator_new calls st); cbn in H;
    [injection H as <-|injection H as <-|done]; apply Hp.
Qed.

End Preservation.

(** ** std::sort and the order of the table *)

Lemma size_less_false (a b : MemoryDescriptor.t) :
  size_less b a = false <-> MemoryDescriptor.size a <= MemoryDescriptor.size b.
Proof. unfold size_less. lia. Qed.

Lemma insert_before_equal_perm d l :
  Permutation (d :: l) (insert_before_equal size_less d l).
Proof.
  induction l as [|x l IH]; cbn; [done|].
  destruct (size_less x d); [|done].
  rewrite <- IH. apply perm_swap.
Qed.

Lemma insert_before_equal_sorted d l :
  Sorted (fun a b => size_less b a = false) l ->
  Sorted (fun a b => size_less b a = false) (insert_before_equal size_less d l).
Proof.
  induction l as [|x l IH]; cbn; intros Hs.
  - by repeat constructor.
  - destruct (size_less x d) eqn:E.
    + apply Sorted_inv in Hs as [Hs Hhd].
      constructor; [by apply IH|].
      destruct l as [|y l]; cbn.
      * constructor. apply size_less_false. unfold size_less in E. lia.
      * destruct (size_less y d) eqn:E'.
        -- constructor. by apply HdRel_inv in Hhd.
        -- constructor. apply size_less_false. unfold size_less in E. lia.
    + constructor; [done|]. by constructor.
Qed.

(* The insertion sort honours the contract of std::sort. *)
Lemma stable_sort_contract : sort_contract stable_sort.
Proof.
  intros l. unfold stable_sort. induction l as [|d l [IHp IHs]]; cbn.
  - split; constructor.
  - split.
    + rewrite <- insert_before_equal_perm. by constructor.
    + by apply insert_before_equal_sorted.
Qed.

(* A table inside the contract, once repaired, ascends in size. *)
Lemma sorted_table_ascending (l : MemoryProfile) :
  Sorted (fun a b => size_less b a = false) l ->
  forall i j di dj,
    (i < j)%nat ->
    map repaired l !! i = Some di ->
    map repaired l !! j = Some dj ->
    MemoryDescriptor.size di <= MemoryDescriptor.size dj.
Proof.
  intros Hs. apply Sorted_StronglySorted in Hs.
  2:{ intros a b c. rewrite !size_less_false. lia. }
  induction Hs as [|x l Hs IH Hall]; intros i j di dj Hij Hi Hj.
  { done. }
  destruct j as [|j]; [lia|]. cbn in Hj.
  destruct i as [|i]; cbn in Hi.
  - injection Hi as <-. rewrite repaired_size.
    apply list_lookup_fmap_Some in Hj as (y & -> & Hy).
    rewrite repaired_size. eapply Forall_lookup_1 in Hall; [|done].
    by apply size_less_false.
  - eapply IH; [|done..]. lia.
Qed.

Lemma fits_elem (size : Z) (l : MemoryProfile) :
  fits size l <-> exists d, d ∈ l /\ size <= MemoryDescriptor.size d.
Proof.
  split.
  - intros (m & Hm & Hle).
    apply largest_size_reached in Hm as (j & d & Hj & <-).
    exists d. split; [by eapply list_elem_of_lookup_2|done].
  - intros (d & Hin & Hle).
    apply largest_size_bound in Hin as (m & Hm & Hdm).
    exists m. split; [done|lia].
Qed.

Section Table.

Variable std_sort :
  (MemoryDescriptor.t -> MemoryDescriptor.t -> bool) ->
  MemoryProfile -> MemoryProfile.
Hypothesis std_sort_ok : sort_contract std_sort.

Variable operator_new : nat -> Z -> NewResult.

(** C9, as the code has it.  The class table produced by the constructor is
    the rearrangement of the input chosen by std::sort, each descriptor
    repaired: it ascends in size (not strictly), holds every input
    descriptor as a class of its own, duplicates included, and is never
    written again by Allocate, Free or GetStatistics.  The order among
    descriptors of equal size is whatever std::sort leaves. *)
Theorem class_table_sorted_and_fixed (self : Z) (input : MemoryProfile)
    (env st : State) :
  MemoryManager_ctor operator_new std_sort self input env = Ret tt st ->
  profile st = map repaired (std_sort size_less input) /\
  Permutation (map repaired input) (profile st) /\
  length (profile st) = length input /\
  (forall i j di dj,
     (i < j)%nat ->
     profile st !! i = Some di -> profile st !! j = Some dj ->
     MemoryDescriptor.size di <= MemoryDescriptor.size dj) /\
  (forall calls st',
     final_state (perform_all operator_new calls st) = Some st' ->
     profile st' = profile st).
Proof.
  intros Hrun.
  pose proof (MemoryManager_ctor_outcome operator_new (fun _ => True)
                ltac:(done) std_sort self input env) as Hout.
  rewrite Hrun in Hout. destruct Hout as (Hp & _).
  destruct (std_sort_ok input) as [Hperm Hsorted].
  split_and!.
  - done.
  - rewrite Hp. by apply Permutation_map.
  - rewrite Hp, length_map. symmetry. by apply Permutation_length.
  - rewrite Hp. by apply sorted_table_ascending.
  - intros calls st'. apply table_never_changes.
Qed.

(** C2. On an engine built from a profile whose classes all allow excess
    ([excess_allowed], or [maximum == 0]), with a system allocator that
    never fails, construction completes and no call in a sequence of
    Allocate calls, each for a size not above the largest class size,
    returns nullptr. *)
Theorem excess_allowed_never_fails (self : Z) (input : MemoryProfile)
    (env : State) (sizes : list Z) :
  never_fails operator_new ->
  Forall allows_excess input ->
  Forall (fun size => fits size input) sizes ->
  exists st ps st',
    MemoryManager_ctor operator_new std_sort self input env = Ret tt st /\
    Allocate_each operator_new sizes st = Ret ps st' /\
    length ps = length sizes /\
    Forall (fun p => p <> nullptr) ps.
Proof.
  intros Hheap Hex Hfits.
  pose proof (MemoryManager_ctor_outcome operator_new valid_block) as Hout.
  specialize (Hout ltac:(intros k n b Hb _; destruct (Hheap k n) as (a & Ha & Hv);
                         congruence) std_sort self input env).
  destruct (MemoryManager_ctor operator_new std_sort self input env)
    as [[] st|e st|]; [| |done].
  2:{ destruct Hout as (k & n & Hk). destruct (Hheap k n) as (a & Ha & _).
      congruence. }
  destruct Hout as (Hp & Hs & Hal & Ht & Hok).
  destruct (std_sort_ok input) as [Hperm _].
  destruct (Allocate_each_succeeds operator_new Hheap sizes st)
    as (ps & st' & Hrun & Hlen & Hps).
  - split_and!; [done| |done].
    rewrite Hp. apply Forall_fmap. rewrite <- Hperm.
    eapply Forall_impl; [done|]. intros d. apply repaired_allows_excess.
  - eapply Forall_impl; [done|]. intros size. cbn.
    rewrite !fits_elem. intros (d & Hin & Hle).
    exists (repaired d). rewrite repaired_size. split; [|done].
    rewrite Hp. apply list_elem_of_fmap_2. by rewrite <- Hperm.
  - by exists st, ps, st'.
Qed.

End Table.

(** C9, as worded: the table is the stable sort of the input.  This fails
    for twenty descriptors of one size.  std::sort, as the GNU C++ library
    implements it, partitions a range of more than 16 elements around a
    median of three, swapping descriptors that compare equal: the table
    holds the descriptors in another order than they were given in. *)
Lemma class_table_not_stable :
  exists st,
    MemoryManager_ctor bump_heap std.sort 4096 twenty_equal empty_process
      = Ret tt st /\
    MemoryDescriptor.maximum <$> twenty_equal
      = [1; 2; 3; 4; 5; 6; 7; 8; 9; 10; 11; 12; 13; 14; 15; 16; 17; 18; 19; 20] /\
    MemoryDescriptor.maximum <$> profile st
      = [11; 20; 19; 18; 17; 16; 15; 14; 13; 12; 1; 10; 9; 8; 7; 6; 5; 4; 3; 2] /\
    profile st <> spec_ClassTable twenty_equal.
Proof.
  eexists. split; [by vm_compute|].
  split; [by vm_compute|]. split; [by vm_compute|].
  vm_compute. discriminate.
Qed.

(** ** Freeing a block twice *)

Lemma rev_lookup {A} (l : list A) (i : nat) :
  (i < length l)%nat -> rev l !! i = l !! (length l - S i)%nat.
Proof. intros Hi. rewrite rev_alt. by apply (reverse_lookup l i). Qed.

Section DoubleFree.

Variable operator_new : nat -> Z -> NewResult.

(* Allocate pops the back of the first pool that is large enough. *)
Lemma Allocate_loop_pops (size : Z) (i : nat) (d : MemoryDescriptor.t)
    (s : Statistics.t) (pool : list Z) (block : Z) (st : State)
    (remaining : nat) :
  aligned st ->
  profile st !! i = Some d ->
  allocations st !! i = Some (pool ++ [block]) ->
  statistics st !! i = Some s ->
  (forall j dj, (j < i)%nat -> profile st !! j = Some dj ->
                MemoryDescriptor.size dj < size) ->
  size <= MemoryDescriptor.size d ->
  forall i0,
    (i0 <= i)%nat ->
    (i0 + remaining = length (profile st))%nat ->
    Allocate_loop operator_new remaining i0 size st =
      Ret (wrap64 (block + sizeof_MemoryHeader)) (served i s pool st).
Proof.
  intros Hal Hd Hpool Hs Hsmall Hfit.
  induction remaining as [|r IH]; intros i0 Hi0 Hlen.
  { apply lookup_lt_Some in Hd. lia. }
  destruct (aligned_lookups st i0 Hal) as (d0 & pool0 & s0 & Hd0 & Hpool0 & Hs0);
    [lia|].
  rewrite (Allocate_loop_step _ _ _ _ _ _ _ _ Hd0 Hpool0 Hs0).
  destruct (decide (i0 = i)) as [->|Hne].
  - assert (d0 = d) as -> by congruence.
    assert (pool0 = pool ++ [block]) as -> by congruence.
    assert (s0 = s) as -> by congruence.
    replace (MemoryDescriptor.size d <? size) with false by lia.
    by rewrite last_snoc, removelast_last.
  - replace (MemoryDescriptor.size d0 <? size) with true
      by (symmetry; apply Z.ltb_lt; apply (Hsmall i0); [lia|done]).
    apply IH; lia.
Qed.

Lemma Allocate_pops (size : Z) (i : nat) (d : MemoryDescriptor.t)
    (s : Statistics.t) (pool : list Z) (block : Z) (st : State) :
  aligned st ->
  profile st !! i = Some d ->
  allocations st !! i = Some (pool ++ [block]) ->
  statistics st !! i = Some s ->
  (forall j dj, (j < i)%nat -> profile st !! j = Some dj ->
                MemoryDescriptor.size dj < size) ->
  size <= MemoryDescriptor.size d ->
  Allocate operator_new size st =
    Ret (wrap64 (block + sizeof_MemoryHeader)) (served i s pool st).
Proof.
  intros. unfold Allocate. rewrite (bind_Ret _ _ _ _ _ (get_run st)).
  eapply Allocate_loop_pops; eauto; lia.
Qed.

(* A caller that keeps asking receives the blocks of the pool, back first. *)
Lemma Allocate_each_drains (size : Z) (i : nat) (d : MemoryDescriptor.t)
    (taken : list Z) :
  forall (st : State) (pool : list Z) (s : Statistics.t),
    aligned st ->
    profile st !! i = Some d ->
    allocations st !! i = Some (pool ++ taken) ->
    statistics st !! i = Some s ->
    (forall j dj, (j < i)%nat -> profile st !! j = Some dj ->
                  MemoryDescriptor.size dj < size) ->
    size <= MemoryDescriptor.size d ->
    exists st',
      Allocate_each operator_new (replicate (length taken) size) st =
        Ret (map (fun b => wrap64 (b + sizeof_MemoryHeader)) (rev taken)) st'.
Proof.
  induction taken as [|b taken IH] using rev_ind;
    intros st pool s Hal Hd Hpool Hs Hsmall Hfit.
  { by exists st. }
  rewrite length_app, Nat.add_comm, rev_unit. cbn [length Nat.add replicate map].
  cbn [Allocate_each]. rewrite app_assoc in Hpool.
  rewrite (bind_Ret _ _ _ _ _
             (Allocate_pops size i d s _ b st Hal Hd Hpool Hs Hsmall Hfit)).
  destruct (IH (served i s (pool ++ taken) st) pool (count_allocation s))
    as (st' & Hrun); try done.
  - destruct Hal. split; cbn; rewrite length_insert; congruence.
  - cbn. apply list_lookup_insert_eq. by eapply lookup_lt_Some.
  - cbn. apply list_lookup_insert_eq. by eapply lookup_lt_Some.
  - exists st'. by rewrite (bind_Ret _ _ _ _ _ Hrun).
Qed.

(** C10. Free does not notice a block that is already in its free pool.
    Called on the payload pointer of such a block, header and trailer
    intact, it returns [true], counts one more deallocation and, when
    [maximum == 0] or the pool is below [maximum], pushes the block a second
    time: the pool then holds it twice, and a caller draining the pool is
    handed the same pointer twice. *)
Theorem double_free_goes_undetected (st : State) (block : Z) (i : nat)
    (d : MemoryDescriptor.t) (pool : list Z) (s : Statistics.t) :
  let p := block + sizeof_MemoryHeader in
  aligned st ->
  Z.of_nat (length (profile st)) <= SIZE_MAX ->
  valid_block block ->
  load64 (memory st) block = this st ->
  load64 (memory st) (wrap64 (block + offsetof_index)) = Z.of_nat i ->
  load64 (memory st) (wrap64 (block + offsetof_marker)) = Header_Marker_Value ->
  profile st !! i = Some d ->
  allocations st !! i = Some pool ->
  statistics st !! i = Some s ->
  load64 (memory st)
    (wrap64 (block + sizeof_MemoryHeader + MemoryDescriptor.size d))
    = Trailer_Marker_Value ->
  block ∈ pool ->
  exists st' s',
    Free p st = Ret true st' /\
    statistics st' !! i = Some s' /\
    Statistics.deallocations s' = wrap64 (Statistics.deallocations s + 1) /\
    (MemoryDescriptor.maximum d = 0 \/
     Z.of_nat (length pool) < MemoryDescriptor.maximum d ->
     allocations st' !! i = Some (pool ++ [block]) /\
     (exists k1 k2 : nat,
        k1 <> k2 /\
        (pool ++ [block]) !! k1 = Some block /\
        (pool ++ [block]) !! k2 = Some block) /\
     forall size,
       (forall j dj, (j < i)%nat -> profile st !! j = Some dj ->
                     MemoryDescriptor.size dj < size) ->
       size <= MemoryDescriptor.size d ->
       exists ps st'',
         Allocate_each operator_new (replicate (S (length pool)) size) st'
           = Ret ps st'' /\
         exists k1 k2 : nat,
           k1 <> k2 /\ ps !! k1 = Some p /\ ps !! k2 = Some p).
Proof.
  intros p Hal Hlen Hvalid Hown Hidx Hhead Hd Hpool Hs Htail Hin.
  destruct (payload_of_block block Hvalid) as (Hpay & Hback & Hnn).
  fold p in Hpay, Hback, Hnn.
  assert (Hblock : wrap64 (p - sizeof_MemoryHeader) = block) by done.
  pose proof (Free_trusted p st d s) as HF. cbn zeta in HF.
  rewrite Hblock, Hidx, Nat2Z.id, Hhead, Htail, !Z.eqb_refl, Hpool in HF.
  cbn [negb orb] in HF.
  specialize (HF Hlen).
  assert (Hne : block <> nullptr).
  { destruct Hvalid. unfold nullptr. lia. }
  assert (Hle : block <= p).
  { unfold p, sizeof_MemoryHeader. lia. }
  specialize (HF Hne Hle Hown Hd Hs).
  destruct ((MemoryDescriptor.maximum d =? 0)
            || (Z.of_nat (length pool) <? MemoryDescriptor.maximum d)) eqn:Hkeep.
  2:{ eexists _, _. split; [exact HF|]. cbn.
      split; [apply list_lookup_insert_eq; by eapply lookup_lt_Some|].
      split.
      { unfold count_deallocation. by destruct (0 <? _). }
      intros Hroom. apply orb_false_iff in Hkeep. lia. }
  eexists _, _. split; [exact HF|].
  cbn [statistics allocations set_allocations set_statistics].
  split; [apply list_lookup_insert_eq; by eapply lookup_lt_Some|].
  split.
  { unfold count_deallocation. by destruct (0 <? _). }
  intros _.
  assert (Hdup : exists k1 k2 : nat,
             k1 <> k2 /\ (pool ++ [block]) !! k1 = Some block /\
             (pool ++ [block]) !! k2 = Some block).
  { apply list_elem_of_lookup in Hin as [k Hk].
    exists k, (length pool). split_and!.
    - apply lookup_lt_Some in Hk. lia.
    - by apply lookup_app_l_Some.
    - by rewrite list_lookup_middle. }
  split_and!.
  - apply list_lookup_insert_eq. by eapply lookup_lt_Some.
  - done.
  - intros size Hsmall Hfit.
    match type of HF with
    | _ = Ret _ ?st1 =>
      destruct (Allocate_each_drains size i d (pool ++ [block]) st1 []
                  (count_deallocation s)) as (st'' & Hrun)
    end; try done.
    + destruct Hal. split; cbn; rewrite !length_insert; congruence.
    + cbn. apply list_lookup_insert_eq. by eapply lookup_lt_Some.
    + cbn. apply list_lookup_insert_eq. by eapply lookup_lt_Some.
    + rewrite length_app, Nat.add_comm in Hrun. cbn [length Nat.add] in Hrun.
      eexists _, st''. split; [exact Hrun|].
      destruct Hdup as (k1 & k2 & Hk & Hk1 & Hk2).
      set (n := length (pool ++ [block])).
      assert (Hn1 : (k1 < n)%nat) by (by eapply lookup_lt_Some).
      assert (Hn2 : (k2 < n)%nat) by (by eapply lookup_lt_Some).
      exists (n - S k1)%nat, (n - S k2)%nat. split_and!; [lia|..].
      * rewrite list_lookup_fmap, rev_lookup by (fold n; lia). fold n.
        replace (n - S (n - S k1))%nat with k1 by lia.
        rewrite Hk1. exact (f_equal Some Hpay).
      * rewrite list_lookup_fmap, rev_lookup by (fold n; lia). fold n.
        replace (n - S (n - S k2))%nat with k2 by lia.
        rewrite Hk2. exact (f_equal Some Hpay).
Qed.

End DoubleFree.

(** ** Where the code leaves the design document *)

Section Defects.

Variable operator_new : nat -> Z -> NewResult.

(* The branch that handles a null pointer does what the document says of a
   failed system allocation ... *)
Lemma PerformAllocation_null (index : nat) (st : State)
    (d : MemoryDescriptor.t) (pool : list Z) (s : Statistics.t) :
  profile st !! index = Some d ->
  allocations st !! index = Some pool ->
  statistics st !! index = Some s ->
  beyond_constraints d pool s = false ->
  operator_new (heap_requests st) (block_bytes d) = NewPtr nullptr ->
  PerformAllocation operator_new index st =
    Ret false
      (set_logger
         (logger st ++ [(error, [Text "Failed to allocate heap memory"])])
         (set_heap_requests (S (heap_requests st)) st)).
Proof.
  intros Hd Hpool Hs Hgate Hnew.
  by rewrite (PerformAllocation_cases _ _ _ _ _ _ Hd Hpool Hs), Hgate, Hnew.
Qed.

(* ... but the new-expression reports exhaustion by std::bad_alloc, which
   PerformAllocation lets through. *)
Lemma PerformAllocation_bad_alloc (index : nat) (st : State)
    (d : MemoryDescriptor.t) (pool : list Z) (s : Statistics.t) :
  profile st !! index = Some d ->
  allocations st !! index = Some pool ->
  statistics st !! index = Some s ->
  beyond_constraints d pool s = false ->
  operator_new (heap_requests st) (block_bytes d) = NewThrows ->
  PerformAllocation operator_new index st =
    Throw bad_alloc (set_heap_requests (S (heap_requests st)) st).
Proof.
  intros Hd Hpool Hs Hgate Hnew.
  by rewrite (PerformAllocation_cases _ _ _ _ _ _ Hd Hpool Hs), Hgate, Hnew.
Qed.

(* The size test of the adapter is the overflow test of n * sizeof(T). *)
Lemma MemoryAllocator_allocate_overflow (sizeof_T n : Z) (st : State) :
  0 < sizeof_T -> 0 <= n ->
  n * sizeof_T > SIZE_MAX ->
  MemoryAllocator_allocate operator_new sizeof_T n st =
    Throw bad_array_new_length st.
Proof.
  intros Hs Hn Hover. unfold MemoryAllocator_allocate.
  replace (n >? SIZE_MAX / sizeof_T) with true; [done|].
  symmetry. apply Z.gtb_lt. apply Z.div_lt_upper_bound; lia.
Qed.

(* Below the limit the byte count goes to Allocate as it is, and so does
   the result come back: a null pointer is returned, not thrown. *)
Lemma MemoryAllocator_allocate_forwards (sizeof_T n : Z) (st : State) :
  0 < sizeof_T -> 0 <= n ->
  n * sizeof_T <= SIZE_MAX ->
  MemoryAllocator_allocate operator_new sizeof_T n st =
    Allocate operator_new (sizeof_T * n) st.
Proof.
  intros Hs Hn Hfit. unfold MemoryAllocator_allocate.
  replace (n >? SIZE_MAX / sizeof_T) with false.
  - rewrite wrap64_small; [done|]. unfold SIZE_MAX in Hfit. lia.
  - symmetry. rewrite Z.gtb_ltb. apply Z.ltb_ge.
    apply Z.div_le_lower_bound; lia.
Qed.

End Defects.

(** C6, at a failing input.  The only class of the engine is empty and may
    grow, and the system allocator is out of memory.  Allocate does not
    return nullptr: std::bad_alloc leaves it, no line is logged and
    [unfulfilled] stays 0. *)
Theorem Allocate_lets_bad_alloc_escape :
  exists st',
    Allocate exhausted_heap 32 starved_engine = Throw bad_alloc st' /\
    logger st' = logger starved_engine /\
    statistics st' = statistics starved_engine /\
    Statistics.unfulfilled <$> statistics st' !! 0%nat = Some 0.
Proof. eexists. split; [by vm_compute|]. by vm_compute. Qed.

(** C7, at a failing input.  Every class of the engine is exhausted and
    may not grow, so Allocate(32) reports failure; the adapter for a
    one-byte element type returns that null pointer to the container
    without throwing. *)
Theorem MemoryAllocator_allocate_returns_null :
  exists st',
    Allocate bump_heap 32 all_exhausted = Ret nullptr st' /\
    MemoryAllocator_allocate bump_heap 1 32 all_exhausted = Ret nullptr st'.
Proof. eexists. split; by vm_compute. Qed.

(** C8, at a failing input.  The engine has no class; the pointer passes
    the wrap-around and owner checks.  Free skips the range test and
    indexes the empty profile instead of releasing the block and returning
    [true]. *)
Theorem Free_on_empty_table_is_undefined :
  profile classless_engine = [] /\
  load64 (memory classless_engine) 65536 = this classless_engine /\
  Free (65536 + sizeof_MemoryHeader) classless_engine = Undefined.
Proof. split_and!; by vm_compute. Qed.

(** ** Free, case by case *)

(* Free as a function of the pointer, the memory and the vectors. *)
Lemma Free_unfold (p : Z) (st : State) :
  let block := wrap64 (p - sizeof_MemoryHeader) in
  let index := load64 (memory st) (wrap64 (block + offsetof_index)) in
  let i := Z.to_nat index in
  Free p st =
    if p <? sizeof_MemoryHeader then Undefined
    else if (block =? nullptr) || (block >? p) then
      Ret false
        (set_logger
           (logger st ++
              [(error, [Text "The pointer given does not appear to be valid"])])
           st)
    else if negb (load64 (memory st) block =? this st) then
      Ret false
        (set_logger
           (logger st ++
              [(error,
                [Text "Attempt to free memory not allocated by this Memory Manager object"])])
           st)
    else if negb (vec_empty (profile st))
            && (index >? wrap64 (Z.of_nat (length (profile st)) - 1)) then
      Ret true
        (set_heap_released (block :: heap_released st)
           (set_logger
              (logger st ++
                 [(error,
                   [Text "Free request made, but the descriptor data is bad; memory will be freed to the heap"])])
              st))
    else
      match profile st !! i, statistics st !! i with
      | Some d, Some s =>
        let st1 :=
          set_statistics (<[i := count_deallocation s]> (statistics st)) st in
        if negb (load64 (memory st) (wrap64 (block + offsetof_marker))
                 =? Header_Marker_Value)
           || negb (load64 (memory st)
                      (wrap64 (block + sizeof_MemoryHeader
                               + MemoryDescriptor.size d))
                    =? Trailer_Marker_Value)
        then
          Ret true
            (set_heap_released (block :: heap_released st)
               (set_statistics
                  (<[i := count_corruption (count_deallocation s)]>
                     (statistics st))
                  st))
        else
          match allocations st !! i with
          | Some pool =>
            if (MemoryDescriptor.maximum d =? 0)
               || (Z.of_nat (length pool) <? MemoryDescriptor.maximum d)
            then
              Ret true
                (set_allocations (<[i := pool ++ [block]]> (allocations st)) st1)
            else Ret true (set_heap_released (block :: heap_released st) st1)
          | None => Undefined
          end
      | _, _ => Undefined
      end.
Proof.
  intros block index i.
  destruct (Z.ltb_spec p sizeof_MemoryHeader) as [Hlow|Hp];
    [by apply Free_below_header|].
  Free_header Hp. fold block.
  destruct ((block =? nullptr) || (block >? p)) eqn:Hptr; [by mrun|].
  cbn [bind get read64 ret].
  unfold offsetof_memory_manager at 1. rewrite Z.add_0_r.
  unfold block at 1. rewrite wrap64_idem. fold block.
  destruct (negb (load64 (memory st) block =? this st)) eqn:Hown; [by mrun|].
  cbn [bind get read64 ret]. fold index.
  destruct (negb (vec_empty (profile st)) && _) eqn:Hrange; [by mrun|].
  fold i.
  destruct (profile st !! i) as [d|] eqn:Hd.
  2:{ by apply bind_Undefined, profile_at_None. }
  mrun.
  destruct (statistics st !! i) as [s|] eqn:Hs.
  2:{ apply bind_Undefined. unfold update_statistics. apply bind_Undefined.
      unfold statistics_at, at_index, bind, get. by rewrite Hs. }
  mrun.
  match goal with
  | |- (if ?c then _ else _) _ = _ => destruct c eqn:Hbad
  end.
  - erewrite bind_Ret
      by (apply update_statistics_Some; cbn; apply list_lookup_insert_eq;
          by eapply lookup_lt_Some).
    mrun. cbn. by rewrite list_insert_insert_eq.
  - destruct (allocations st !! i) as [pool|] eqn:Hpool.
    + erewrite bind_Ret by (apply allocations_at_Some; cbn; eauto).
      cbn zeta.
      destruct ((MemoryDescriptor.maximum d =? 0)
                || (Z.of_nat (length pool) <? MemoryDescriptor.maximum d)).
      * erewrite bind_Ret by (apply update_allocations_Some; cbn; eauto). done.
      * done.
    + unfold bind at 1, allocations_at, bind, get, at_index.
      cbn [allocations set_statistics]. by rewrite Hpool.
Qed.

(** X1. An intact block whose class has room goes back on top of the pool:
    Free returns [true], the pool of the class gains the block at its
    back, [deallocations] is incremented, [outstanding] decremented unless
    0, nothing is handed to delete[] and no corruption is counted. *)
Theorem Free_returns_block_to_pool (p : Z) (st : State)
    (d : MemoryDescriptor.t) (s : Statistics.t) (pool : list Z) :
  let block := wrap64 (p - sizeof_MemoryHeader) in
  let index := load64 (memory st) (wrap64 (block + offsetof_index)) in
  Z.of_nat (length (profile st)) <= SIZE_MAX ->
  block <> nullptr -> block <= p ->
  load64 (memory st) block = this st ->
  profile st !! Z.to_nat index = Some d ->
  statistics st !! Z.to_nat index = Some s ->
  allocations st !! Z.to_nat index = Some pool ->
  load64 (memory st) (wrap64 (block + offsetof_marker)) = Header_Marker_Value ->
  load64 (memory st)
    (wrap64 (block + sizeof_MemoryHeader + MemoryDescriptor.size d))
    = Trailer_Marker_Value ->
  MemoryDescriptor.maximum d = 0 \/
  Z.of_nat (length pool) < MemoryDescriptor.maximum d ->
  exists st' s',
    Free p st = Ret true st' /\
    allocations st' = <[Z.to_nat index := pool ++ [block]]> (allocations st) /\
    statistics st' = <[Z.to_nat index := s']> (statistics st) /\
    Statistics.deallocations s' = wrap64 (Statistics.deallocations s + 1) /\
    (0 < Statistics.outstanding s ->
       Statistics.outstanding s' = wrap64 (Statistics.outstanding s - 1)) /\
    (Statistics.outstanding s = 0 -> Statistics.outstanding s' = 0) /\
    Statistics.corruption_count s' = Statistics.corruption_count s /\
    Statistics.allocations s' = Statistics.allocations s /\
    Statistics.max_outstanding s' = Statistics.max_outstanding s /\
    Statistics.unfulfilled s' = Statistics.unfulfilled s /\
    heap_released st' = heap_released st /\
    memory st' = memory st /\
    logger st' = logger st.
Proof.
  intros block index Hlen Hnull Hwrap Hown Hd Hs Hpool Hhead Htail Hroom.
  pose proof (Free_trusted p st d s Hlen Hnull Hwrap Hown Hd Hs) as HF.
  cbn zeta in HF. fold block in HF. fold index in HF.
  rewrite Hhead, Htail, !Z.eqb_refl, Hpool in HF. cbn [negb orb] in HF.
  replace ((MemoryDescriptor.maximum d =? 0)
           || (Z.of_nat (length pool) <? MemoryDescriptor.maximum d))
    with true in HF by (symmetry; apply orb_true_iff; lia).
  eexists _, _. split; [exact HF|].
  split; [reflexivity|]. split; [reflexivity|].
  unfold count_deallocation. cbn.
  destruct (0 <? Statistics.outstanding s) eqn:E; cbn;
    split_and!; try done; lia.
Qed.

(** X2. An intact block whose class already retains [maximum] blocks is not
    pooled: Free returns [true], counts the deallocation, hands the block to
    delete[] and leaves every pool as it was. *)
Theorem Free_releases_when_pool_is_full (p : Z) (st : State)
    (d : MemoryDescriptor.t) (s : Statistics.t) (pool : list Z) :
  let block := wrap64 (p - sizeof_MemoryHeader) in
  let index := load64 (memory st) (wrap64 (block + offsetof_index)) in
  Z.of_nat (length (profile st)) <= SIZE_MAX ->
  block <> nullptr -> block <= p ->
  load64 (memory st) block = this st ->
  profile st !! Z.to_nat index = Some d ->
  statistics st !! Z.to_nat index = Some s ->
  allocations st !! Z.to_nat index = Some pool ->
  load64 (memory st) (wrap64 (block + offsetof_marker)) = Header_Marker_Value ->
  load64 (memory st)
    (wrap64 (block + sizeof_MemoryHeader + MemoryDescriptor.size d))
    = Trailer_Marker_Value ->
  MemoryDescriptor.maximum d <> 0 ->
  MemoryDescriptor.maximum d <= Z.of_nat (length pool) ->
  exists st',
    Free p st = Ret true st' /\
    allocations st' = allocations st /\
    heap_released st' = block :: heap_released st /\
    statistics st' =
      <[Z.to_nat index := count_deallocation s]> (statistics st) /\
    Statistics.corruption_count (count_deallocation s)
      = Statistics.corruption_count s /\
    Statistics.deallocations (count_deallocation s)
      = wrap64 (Statistics.deallocations s + 1).
Proof.
  intros block index Hlen Hnull Hwrap Hown Hd Hs Hpool Hhead Htail Hmax Hfull.
  pose proof (Free_trusted p st d s Hlen Hnull Hwrap Hown Hd Hs) as HF.
  cbn zeta in HF. fold block in HF. fold index in HF.
  rewrite Hhead, Htail, !Z.eqb_refl, Hpool in HF. cbn [negb orb] in HF.
  replace ((MemoryDescriptor.maximum d =? 0)
           || (Z.of_nat (length pool) <? MemoryDescriptor.maximum d))
    with false in HF by (symmetry; apply orb_false_iff; lia).
  eexists. split; [exact HF|].
  split_and!; try done.
  - unfold count_deallocation. by destruct (0 <? _).
  - unfold count_deallocation. by destruct (0 <? _).
Qed.

(** X3. Whatever the pointer, a call of Free that returns has touched one
    class at most: memory, the class table and the owner address are as
    before, no new-expression has been evaluated, and the statistics and
    the pool of every class other than the one named in the header are
    unchanged. *)
Theorem Free_touches_one_class (p : Z) (st : State) (b : bool) (st' : State) :
  let block := wrap64 (p - sizeof_MemoryHeader) in
  let index := load64 (memory st) (wrap64 (block + offsetof_index)) in
  Free p st = Ret b st' ->
  memory st' = memory st /\
  heap_requests st' = heap_requests st /\
  profile st' = profile st /\
  this st' = this st /\
  forall j,
    j <> Z.to_nat index ->
    statistics st' !! j = statistics st !! j /\
    allocations st' !! j = allocations st !! j.
Proof.
  intros block index. rewrite Free_unfold. cbn zeta.
  fold block. fold index.
  repeat match goal with
  | |- context [if ?c then _ else _] => destruct c
  | |- context [match ?x with Some _ => _ | None => _ end] => destruct x
  end; intros [= <- <-] || intros [=];
    cbn; split_and!; try done;
    intros j Hj; rewrite ?list_lookup_insert_ne by done; done.
Qed.

(** ** Allocate: requests that cannot be served *)

Section Unserved.

Variable operator_new : nat -> Z -> NewResult.

Lemma Allocate_loop_too_large (size : Z) (st : State) (remaining : nat) :
  Forall (fun d => MemoryDescriptor.size d < size) (profile st) ->
  forall index,
    (index + remaining = length (profile st))%nat ->
    Allocate_loop operator_new remaining index size st = Ret nullptr st.
Proof.
  intros Hsmall. induction remaining as [|r IH]; intros index Hlen; [done|].
  destruct (lookup_lt_is_Some_2 (profile st) index) as [d Hd]; [lia|].
  cbn [Allocate_loop]. mstep.
  replace (MemoryDescriptor.size d <? size) with true.
  - apply IH. lia.
  - symmetry. apply Z.ltb_lt. eapply Forall_lookup_1 in Hsmall; eauto.
Qed.

(** X5. A request larger than every class, and any request to an engine
    without classes, returns nullptr and leaves the engine exactly as it
    was: no counter records it, and the system allocator is not asked. *)
Theorem Allocate_too_large_changes_nothing (size : Z) (st : State) :
  Forall (fun d => MemoryDescriptor.size d < size) (profile st) ->
  Allocate operator_new size st = Ret nullptr st.
Proof.
  intros Hsmall. unfold Allocate. rewrite (bind_Ret _ _ _ _ _ (get_run st)).
  by apply Allocate_loop_too_large.
Qed.

Lemma refused_everywhere_from (size : Z) (st : State) (remaining : nat) :
  forall (index : nat) (st0 : State),
    aligned st0 ->
    profile st0 = profile st ->
    allocations st0 = allocations st ->
    drop index (statistics st0) = drop index (statistics st) ->
    (index + remaining = length (profile st))%nat ->
    (forall i d pool s,
       profile st !! i = Some d ->
       allocations st !! i = Some pool ->
       statistics st !! i = Some s ->
       size <= MemoryDescriptor.size d ->
       pool = [] /\ beyond_constraints d [] s = true) ->
    Allocate_loop operator_new remaining index size st0 =
      Ret nullptr
        (set_statistics
           (take index (statistics st0) ++
            zip_with
              (fun d s =>
                 if MemoryDescriptor.size d <? size then s
                 else count_unfulfilled s)
              (drop index (profile st)) (drop index (statistics st)))
           st0).
Proof.
  induction remaining as [|r IH];
    intros index st0 Hal Hp Ha Hs Hlen Hrefused.
  { cbn. rewrite (drop_ge (profile st)) by lia. cbn.
    rewrite app_nil_r, take_ge by (destruct Hal as [_ H2]; rewrite Hp in H2; lia).
    by destruct st0. }
  destruct (aligned_lookups st0 index Hal) as (d & pool & s & Hd & Hpool & Hst);
    [rewrite Hp; lia|].
  assert (Hst' : statistics st !! index = Some s).
  { assert (H0 : drop index (statistics st) !! 0%nat = Some s)
      by (by rewrite <- Hs, lookup_drop, Nat.add_0_r).
    by rewrite lookup_drop, Nat.add_0_r in H0. }
  rewrite (Allocate_loop_step _ _ _ _ _ _ _ _ Hd Hpool Hst).
  rewrite Hp in Hd. rewrite Ha in Hpool.
  rewrite (drop_S _ _ _ Hd), (drop_S _ _ _ Hst'). cbn [zip_with].
  destruct (Z.ltb_spec (MemoryDescriptor.size d) size) as [Hsmall|Hfit].
  - rewrite (IH (S index) st0); try done;
      [|replace (S index) with (index + 1)%nat by lia;
        by rewrite <- !drop_drop, Hs|lia].
    rewrite (take_S_r _ _ _ Hst). by rewrite <- app_assoc.
  - destruct (Hrefused index d pool s Hd Hpool Hst' Hfit) as [-> Hgate].
    cbn [last]. rewrite Hgate.
    rewrite (IH (S index) (passed index s st0)); cbn; try done.
    + rewrite (take_S_r _ _ (count_unfulfilled s))
        by (apply list_lookup_insert_eq; by eapply lookup_lt_Some).
      rewrite take_insert_ge by lia. by rewrite <- app_assoc.
    + destruct Hal. split; cbn; rewrite ?length_insert; congruence.
    + rewrite drop_insert_lt by lia.
      replace (S index) with (index + 1)%nat by lia.
      by rewrite <- !drop_drop, Hs.
    + lia.
Qed.

(** X6. When every class that is large enough has an empty pool and is
    beyond its constraints, Allocate returns nullptr, each of those classes
    counts one unfulfilled request, and nothing else changes: the smaller
    classes, the pools, memory and the heap are as before. *)
Theorem Allocate_refused_everywhere (size : Z) (st : State) :
  aligned st ->
  (forall i d pool s,
     profile st !! i = Some d ->
     allocations st !! i = Some pool ->
     statistics st !! i = Some s ->
     size <= MemoryDescriptor.size d ->
     pool = [] /\ beyond_constraints d [] s = true) ->
  Allocate operator_new size st = Ret nullptr (refused_everywhere size st).
Proof.
  intros Hal Hrefused. unfold Allocate.
  rewrite (bind_Ret _ _ _ _ _ (get_run st)).
  rewrite (refused_everywhere_from size st _ 0 st); try done.
Qed.

End Unserved.

(** ** What every call does to the statistics and to the pools *)

Lemma Forall2_insert_step {A} (R : A -> A -> Prop) (l : list A) (i : nat)
    (x y : A) :
  (forall a, R a a) ->
  l !! i = Some x -> R x y -> Forall2 R l (<[i := y]> l).
Proof.
  intros Hrefl. revert i. induction l as [|a l IH]; intros [|i] Hi Hxy;
    try done; cbn in *.
  - injection Hi as ->. constructor; [done|]. by apply Forall_Forall2_diag, Forall_true.
  - constructor; [done|]. by apply IH.
Qed.

Lemma Forall2_refl_all {A} (R : A -> A -> Prop) (l : list A) :
  (forall a, R a a) -> Forall2 R l l.
Proof. intros. by apply Forall_Forall2_diag, Forall_true. Qed.

Lemma Forall2_chain {A} (R : A -> A -> Prop) (l1 l2 l3 : list A) :
  (forall a b c, R a b -> R b c -> R a c) ->
  Forall2 R l1 l2 -> Forall2 R l2 l3 -> Forall2 R l1 l3.
Proof.
  intros Htrans H12. revert l3.
  induction H12 as [|a b l1 l2 Hab H12 IH]; intros l3 H23.
  - by inversion H23.
  - inversion H23 as [|? c ? l3' Hbc H23']; subst.
    constructor; [by eapply Htrans|by apply IH].
Qed.

Lemma pools_shrink_refl st : pools_shrink st st.
Proof. apply Forall2_refl_all. lia. Qed.

Section Effects.

Variable operator_new : nat -> Z -> NewResult.

(* [E] relates a statistics entry to the entry after any of the four
   updates the engine makes. *)
Variable E : Statistics.t -> Statistics.t -> Prop.
Hypothesis E_refl : forall s, E s s.
Hypothesis E_trans : forall a b c, E a b -> E b c -> E a c.
Hypothesis E_allocation : forall s, E s (count_allocation s).
Hypothesis E_unfulfilled : forall s, E s (count_unfulfilled s).
Hypothesis E_deallocation : forall s, E s (count_deallocation s).
Hypothesis E_corruption : forall s, E s (count_corruption s).

Lemma statistics_step_refl st : statistics_step E st st.
Proof. by apply Forall2_refl_all. Qed.

(* The scan never leaves the vectors, lengthens no pool, and touches the
   statistics only through its two updates; an exception is the
   std::bad_alloc of a new-expression. *)
Lemma Allocate_loop_effect (size : Z) (remaining : nat) :
  forall (index : nat) (st : State),
    aligned st ->
    (index + remaining = length (profile st))%nat ->
    match Allocate_loop operator_new remaining index size st with
    | Ret _ st' =>
      statistics_step E st st' /\ pools_shrink st st' /\ aligned st'
    | Throw e st' =>
      statistics_step E st st' /\ pools_shrink st st' /\ aligned st' /\
      e = bad_alloc /\ heap_throws operator_new
    | Undefined => False
    end.
Proof.
  assert (Hpassed : forall index s st,
            aligned st -> statistics st !! index = Some s ->
            statistics_step E st (passed index s st) /\
            pools_shrink st (passed index s st) /\
            aligned (passed index s st)).
  { intros index s st [Ha Hs] Hst. split_and!.
    - by eapply Forall2_insert_step.
    - unfold pools_shrink. cbn. apply Forall2_refl_all. lia.
    - split; cbn; rewrite ?length_insert; done. }
  assert (Hserved : forall index s pool rest st st0,
            aligned st -> statistics st !! index = Some s ->
            allocations st !! index = Some pool ->
            (length rest <= length pool)%nat ->
            statistics st0 = statistics st -> allocations st0 = allocations st ->
            profile st0 = profile st ->
            statistics_step E st (served index s rest st0) /\
            pools_shrink st (served index s rest st0) /\
            aligned (served index s rest st0)).
  { intros index s pool rest st st0 [Ha Hs] Hst Hpool Hlen Hs0 Ha0 Hp0.
    unfold served. split_and!.
    - unfold statistics_step. cbn. rewrite Hs0. by eapply Forall2_insert_step.
    - unfold pools_shrink. cbn. rewrite Ha0.
      eapply Forall2_insert_step; [lia|done..].
    - split; cbn; rewrite length_insert; congruence. }
  induction remaining as [|r IH]; intros index st Hal Hlen.
  { cbn. split_and!; [apply statistics_step_refl|apply pools_shrink_refl|done]. }
  destruct (aligned_lookups st index Hal) as (d & pool & s & Hd & Hpool & Hs);
    [lia|].
  rewrite (Allocate_loop_step _ _ _ _ _ _ _ _ Hd Hpool Hs).
  destruct (MemoryDescriptor.size d <? size).
  { apply IH; [done|lia]. }
  destruct (last pool) as [block|] eqn:Hlast.
  { eapply Hserved; try done.
    destruct pool as [|b pool] using rev_ind; [done|].
    rewrite removelast_last, length_app. lia. }
  apply last_None_nil in Hlast as ->.
  assert (Hthen : forall st2,
            statistics_step E st st2 -> pools_shrink st st2 -> aligned st2 ->
            profile st2 = profile st ->
            match Allocate_loop operator_new r (S index) size st2 with
            | Ret _ st' =>
              statistics_step E st st' /\ pools_shrink st st' /\ aligned st'
            | Throw e st' =>
              statistics_step E st st' /\ pools_shrink st st' /\ aligned st' /\
              e = bad_alloc /\ heap_throws operator_new
            | Undefined => False
            end).
  { intros st2 H1 H2 H3 H4. specialize (IH (S index) st2 H3).
    rewrite H4 in IH. specialize (IH ltac:(lia)).
    destruct (Allocate_loop operator_new r (S index) size st2) as [p st'|e st'|];
      [| |done].
    - destruct IH as (I1 & I2 & I3). split_and!; [|  |done].
      + by eapply Forall2_chain.
      + eapply Forall2_chain; [|exact H2|exact I2]. intros; lia.
    - destruct IH as (I1 & I2 & I3 & I4 & I5). split_and!; try done.
      + by eapply Forall2_chain.
      + eapply Forall2_chain; [|exact H2|exact I2]. intros; lia. }
  destruct (beyond_constraints d [] s).
  { destruct (Hpassed index s st Hal Hs) as (? & ? & ?). by apply Hthen. }
  cbn zeta.
  destruct (operator_new (heap_requests st) (block_bytes d)) as [block|] eqn:Hnew.
  - destruct (block =? nullptr).
    + match goal with
      | |- context [passed index s ?st1] =>
        destruct (Hpassed index s st1) as (? & ? & ?); [done..|]
      end.
      by apply Hthen.
    + eapply Hserved; try done.
  - split_and!; try done.
    + unfold statistics_step. cbn. by apply Forall2_refl_all.
    + unfold pools_shrink. cbn. apply Forall2_refl_all. lia.
    + by eexists _, _.
Qed.

Lemma Allocate_effect (size : Z) (st : State) :
  aligned st ->
  match Allocate operator_new size st with
  | Ret _ st' =>
    statistics_step E st st' /\ pools_shrink st st' /\ aligned st'
  | Throw e st' =>
    statistics_step E st st' /\ pools_shrink st st' /\ aligned st' /\
    e = bad_alloc /\ heap_throws operator_new
  | Undefined => False
  end.
Proof.
  intros Hal. unfold Allocate. rewrite (bind_Ret _ _ _ _ _ (get_run st)).
  by apply Allocate_loop_effect.
Qed.

Lemma Free_effect (p : Z) (st : State) (b : bool) (st' : State) :
  Free p st = Ret b st' -> statistics_step E st st'.
Proof.
  rewrite Free_unfold. cbn zeta.
  repeat match goal with
  | |- context [if ?c then _ else _] => destruct c
  | |- context [match ?x with Some _ => _ | None => _ end] =>
    let H := fresh "Hl" in destruct x eqn:H
  end; intros [= <- <-] || intros [=];
    unfold statistics_step; cbn;
    try (by apply Forall2_refl_all);
    eapply Forall2_insert_step; eauto.
Qed.

End Effects.

(** ** Construction: the reserve of every class *)

Section Reserve.

Variable operator_new : nat -> Z -> NewResult.

(* One iteration of the constructor loop. *)
Lemma constructor_loop_step (remaining index : nat) (st : State)
    (d : MemoryDescriptor.t) :
  profile st !! index = Some d ->
  constructor_loop operator_new (S remaining) index st =
    (preallocate operator_new (Z.to_nat (MemoryDescriptor.minimum d)) index ;;
     constructor_loop operator_new remaining (S index))
      (constructor_entry index d st).
Proof.
  intros Hd. cbn [constructor_loop]. mstep.
  unfold constructor_entry, repaired.
  destruct (negb (MemoryDescriptor.maximum d =? 0)
            && (MemoryDescriptor.maximum d <? MemoryDescriptor.minimum d)) eqn:Hinv.
  - repeat first
      [ mstep
      | erewrite bind_Ret
          by (apply profile_at_Some; cbn; apply list_lookup_insert_eq;
              by eapply lookup_lt_Some) ].
    cbn. by rewrite <- app_assoc.
  - mrun. cbn. reflexivity.
Qed.

(* PerformAllocation adds at most one block at the back of the pool. *)
Lemma PerformAllocation_pool (index : nat) (st : State)
    (d : MemoryDescriptor.t) (pool : list Z) (s : Statistics.t) :
  profile st !! index = Some d ->
  allocations st !! index = Some pool ->
  statistics st !! index = Some s ->
  match PerformAllocation operator_new index st with
  | Ret b st' =>
    profile st' = profile st /\ statistics st' = statistics st /\
    exists extra,
      allocations st' = <[index := pool ++ extra]> (allocations st) /\
      (length extra <= 1)%nat /\
      (never_fails operator_new -> beyond_constraints d pool s = false ->
       length extra = 1%nat)
  | Throw _ _ => heap_throws operator_new
  | Undefined => False
  end.
Proof.
  intros Hd Hpool Hs.
  rewrite (PerformAllocation_cases _ _ _ _ _ _ Hd Hpool Hs).
  destruct (beyond_constraints d pool s).
  { split_and!; try done. exists []. rewrite app_nil_r, list_insert_id by done.
    split_and!; [done|cbn; lia|done]. }
  cbn zeta.
  destruct (operator_new (heap_requests st) (block_bytes d)) as [block|] eqn:Hnew;
    [|by eexists _, _].
  destruct (Z.eqb_spec block nullptr) as [->|Hnn].
  - split_and!; try done. exists []. cbn.
    rewrite app_nil_r, list_insert_id by done.
    split_and!; [done|cbn; lia|].
    intros Hnf _. destruct (Hnf (heap_requests st) (block_bytes d))
      as (a & Ha & Hv & _).
    rewrite Ha in Hnew. injection Hnew as ->. unfold nullptr in Hv. lia.
  - split_and!; try done. by exists [block].
Qed.

Lemma preallocate_pool (index : nat) (d : MemoryDescriptor.t)
    (s : Statistics.t) (count : nat) :
  forall (st : State) (pool : list Z),
    profile st !! index = Some d ->
    allocations st !! index = Some pool ->
    statistics st !! index = Some s ->
    match preallocate operator_new count index st with
    | Ret _ st' =>
      profile st' = profile st /\ statistics st' = statistics st /\
      exists extra,
        allocations st' = <[index := pool ++ extra]> (allocations st) /\
        (length extra <= count)%nat /\
        (never_fails operator_new ->
         (forall pool',
            (length pool <= length pool' < length pool + count)%nat ->
            beyond_constraints d pool' s = false) ->
         length extra = count)
    | Throw _ _ => heap_throws operator_new
    | Undefined => False
    end.
Proof.
  induction count as [|count IH]; intros st pool Hd Hpool Hs.
  { cbn. split_and!; try done. exists [].
    rewrite app_nil_r, list_insert_id by done. by split_and!. }
  cbn [preallocate]. unfold bind at 1.
  pose proof (PerformAllocation_pool index st d pool s Hd Hpool Hs) as H1.
  destruct (PerformAllocation operator_new index st) as [b st1|e st1|];
    [|done..].
  destruct H1 as (Hp1 & Hs1 & extra1 & Ha1 & Hlen1 & Hfull1).
  specialize (IH st1 (pool ++ extra1)).
  rewrite Hp1, Hs1, Ha1 in IH.
  specialize (IH Hd ltac:(apply list_lookup_insert_eq; by eapply lookup_lt_Some) Hs).
  destruct (preallocate operator_new count index st1) as [u st2|e st2|];
    [|done..].
  destruct IH as (Hp2 & Hs2 & extra2 & Ha2 & Hlen2 & Hfull2).
  split_and!; try done.
  exists (extra1 ++ extra2). split_and!.
  - by rewrite Ha2, list_insert_insert_eq, app_assoc.
  - rewrite length_app. lia.
  - intros Hnf Hgate. rewrite length_app.
    rewrite Hfull1; [|done|apply Hgate; lia].
    rewrite Hfull2; [lia|done|].
    intros pool' Hl. apply Hgate. rewrite length_app in Hl.
    rewrite Hfull1 in Hl; [lia|done|apply Hgate; lia].
Qed.

(* While the reserve of a repaired class is being built, with nothing
   outstanding, the class is not beyond its constraints. *)
Lemma reserve_gate_open (d : MemoryDescriptor.t) (pool : list Z) :
  (length pool < Z.to_nat (MemoryDescriptor.minimum (repaired d)))%nat ->
  beyond_constraints (repaired d) pool
    (Statistics.zero (MemoryDescriptor.size (repaired d))) = false.
Proof.
  intros Hlen. unfold beyond_constraints. cbn [Statistics.outstanding Statistics.zero].
  destruct (Z.eqb_spec (MemoryDescriptor.maximum (repaired d)) 0) as [E0|E0];
    [done|].
  cbn [negb andb]. apply andb_false_iff. right. apply Z.leb_gt.
  rewrite Z.add_0_r.
  assert (wrap64 (Z.of_nat (length pool)) <= Z.of_nat (length pool)).
  { unfold wrap64. apply Z.mod_le; lia. }
  assert (MemoryDescriptor.minimum (repaired d)
          <= MemoryDescriptor.maximum (repaired d)).
  { revert E0. unfold repaired.
    destruct (Z.eqb_spec (MemoryDescriptor.maximum d) 0); cbn [negb andb];
      [done|].
    destruct (Z.ltb_spec (MemoryDescriptor.maximum d) (MemoryDescriptor.minimum d));
      cbn; lia. }
  lia.
Qed.

Lemma constructor_entry_facts (index : nat) (d : MemoryDescriptor.t)
    (st : State) :
  profile st !! index = Some d ->
  length (allocations st) = index ->
  length (statistics st) = index ->
  profile (constructor_entry index d st) = <[index := repaired d]> (profile st) /\
  profile (constructor_entry index d st) !! index = Some (repaired d) /\
  allocations (constructor_entry index d st) !! index = Some [] /\
  statistics (constructor_entry index d st) !! index
    = Some (Statistics.zero (MemoryDescriptor.size (repaired d))).
Proof.
  intros Hd Ha Hs.
  assert (Hp : profile (constructor_entry index d st)
               = <[index := repaired d]> (profile st)).
  { unfold constructor_entry, repaired. cbn.
    destruct (negb _ && _); [done|]. by rewrite list_insert_id. }
  split_and!; [done|..].
  - rewrite Hp. apply list_lookup_insert_eq. by eapply lookup_lt_Some.
  - cbn. rewrite <- Ha. apply list_lookup_middle. done.
  - cbn. rewrite repaired_size, <- Hs. apply list_lookup_middle. done.
Qed.

(* The constructor loop leaves the pools it finds and adds the reserve of
   each class from [index] on. *)
Lemma constructor_loop_reserves (remaining : nat) :
  forall (index : nat) (st : State),
    (index + remaining = length (profile st))%nat ->
    length (allocations st) = index ->
    length (statistics st) = index ->
    match constructor_loop operator_new remaining index st with
    | Ret _ st' =>
      exists pools,
        allocations st' = allocations st ++ pools /\
        Forall2 (reserved (never_fails operator_new))
                (map repaired (drop index (profile st))) pools
    | Throw _ _ => heap_throws operator_new
    | Undefined => False
    end.
Proof.
  induction remaining as [|r IH]; intros index st Hlen Ha Hs.
  { cbn. exists []. rewrite app_nil_r, drop_ge by lia. by split. }
  destruct (lookup_lt_is_Some_2 (profile st) index) as [d Hd]; [lia|].
  rewrite (constructor_loop_step _ _ _ _ Hd).
  destruct (constructor_entry_facts index d st Hd Ha Hs)
    as (Hp0 & Hd0 & Hpool0 & Hs0).
  pose proof (preallocate_pool index (repaired d) _
                (Z.to_nat (MemoryDescriptor.minimum d))
                (constructor_entry index d st) [] Hd0 Hpool0 Hs0) as Hpre.
  unfold bind at 1.
  destruct (preallocate operator_new _ index (constructor_entry index d st))
    as [u st3|e st3|]; [|done..].
  destruct Hpre as (Hp3 & Hs3 & extra & Ha3 & Hle & Hfull).
  cbn [app] in Ha3.
  assert (Ha3' : allocations st3 = allocations st ++ [extra]).
  { rewrite Ha3. cbn [allocations constructor_entry].
    rewrite <- Ha. rewrite insert_app_r_alt by lia.
    by rewrite Nat.sub_diag. }
  assert (L1 : (S index + r = length (profile st3))%nat)
    by (rewrite Hp3, Hp0, length_insert; lia).
  assert (L2 : length (allocations st3) = S index)
    by (rewrite Ha3', length_app; cbn; lia).
  assert (L3 : length (statistics st3) = S index)
    by (rewrite Hs3; cbn; rewrite length_app; cbn; lia).
  specialize (IH (S index) st3 L1 L2 L3).
  destruct (constructor_loop operator_new r (S index) st3) as [u' st'|e st'|];
    [|done..].
  destruct IH as (pools & Ha' & Hres).
  exists (extra :: pools). split.
  - rewrite Ha', Ha3'. by rewrite <- app_assoc.
  - rewrite Hp3, Hp0 in Hres.
    rewrite (drop_S _ _ _ Hd). cbn [map]. constructor.
    + split.
      * by rewrite repaired_minimum.
      * intros Hnf. rewrite repaired_minimum. apply Hfull; [done|].
        intros pool' Hl. apply reserve_gate_open.
        rewrite repaired_minimum. cbn in Hl. lia.
    + by rewrite drop_insert_lt in Hres by lia.
Qed.

End Reserve.

Section Constructed.

Variable std_sort :
  (MemoryDescriptor.t -> MemoryDescriptor.t -> bool) ->
  MemoryProfile -> MemoryProfile.

Variable operator_new : nat -> Z -> NewResult.

Lemma MemoryManager_ctor_reserves (self : Z) (input : MemoryProfile)
    (env : State) :
  match MemoryManager_ctor operator_new std_sort self input env with
  | Ret _ st =>
    constructed (fun _ => True) self (std_sort size_less input) st /\
    Forall2 (reserved (never_fails operator_new)) (profile st) (allocations st)
  | Throw _ _ => heap_throws operator_new
  | Undefined => False
  end.
Proof.
  pose proof (MemoryManager_ctor_outcome operator_new (fun _ => True)
                ltac:(done) std_sort self input env) as Hout.
  revert Hout.
  unfold MemoryManager_ctor, MemoryManager_body. mrun.
  match goal with
  | |- context [constructor_loop _ ?r ?i ?s] =>
    pose proof (constructor_loop_reserves operator_new r i s
                  eq_refl eq_refl eq_refl) as H
  end.
  destruct (constructor_loop _ _ _ _) as [u st|e st|]; [|done..].
  intros Hc. split; [done|].
  destruct H as (pools & Ha & Hres). cbn in Ha, Hres.
  destruct Hc as (Hp & _).
  rewrite drop_0 in Hres. subst pools. by rewrite Hp.
Qed.

(** X7. Construction never indexes a vector out of range: it completes,
    leaving the three vectors aligned, unless a new-expression throws, and
    it completes whenever none does. *)
Theorem construction_completes_or_throws (self : Z) (input : MemoryProfile)
    (env : State) :
  MemoryManager_ctor operator_new std_sort self input env <> Undefined /\
  (forall e st,
     MemoryManager_ctor operator_new std_sort self input env = Throw e st ->
     heap_throws operator_new) /\
  (forall u st,
     MemoryManager_ctor operator_new std_sort self input env = Ret u st ->
     aligned st /\ this st = self /\
     length (profile st) = length (std_sort size_less input)) /\
  (~ heap_throws operator_new ->
   exists st,
     MemoryManager_ctor operator_new std_sort self input env = Ret tt st).
Proof.
  pose proof (MemoryManager_ctor_outcome operator_new (fun _ => True)
                ltac:(done) std_sort self input env) as Hout.
  destruct (MemoryManager_ctor operator_new std_sort self input env)
    as [[] st|e st|]; [| |done].
  - split_and!; try done.
    + intros u st' Heq. assert (st' = st) as -> by congruence.
      destruct Hout as (Hp & _ & Hal & Ht & _).
      split_and!; try done. by rewrite Hp, length_map.
    + intros _. by exists st.
  - by split_and!.
Qed.

(** X8. After construction GetStatistics returns one entry per class, in
    the order of the table, each carrying the size of its class and zero in
    every counter; it changes nothing. *)
Theorem construction_zeroes_statistics (self : Z) (input : MemoryProfile)
    (env st : State) :
  MemoryManager_ctor operator_new std_sort self input env = Ret tt st ->
  GetStatistics st =
    Ret (map (fun d => Statistics.mk (MemoryDescriptor.size d) 0 0 0 0 0 0)
             (profile st))
        st.
Proof.
  intros Hrun.
  pose proof (MemoryManager_ctor_outcome operator_new (fun _ => True)
                ltac:(done) std_sort self input env) as Hout.
  rewrite Hrun in Hout. destruct Hout as (Hp & Hs & _).
  unfold GetStatistics. mrun. cbn. rewrite Hs, Hp. f_equal.
  rewrite map_map. apply map_ext. intros d. unfold Statistics.zero.
  by rewrite repaired_size.
Qed.

(** X9. Every class of the constructed table has [maximum] equal to 0 or
    not below [minimum]: a descriptor whose non-zero [maximum] is below its
    [minimum] enters the table with [maximum] raised to [minimum], and all
    other fields of all descriptors enter unchanged. *)
Theorem construction_repairs_maximum (self : Z) (input : MemoryProfile)
    (env st : State) :
  MemoryManager_ctor operator_new std_sort self input env = Ret tt st ->
  Forall2
    (fun d0 d =>
       MemoryDescriptor.size d = MemoryDescriptor.size d0 /\
       MemoryDescriptor.minimum d = MemoryDescriptor.minimum d0 /\
       MemoryDescriptor.excess_allowed d = MemoryDescriptor.excess_allowed d0 /\
       MemoryDescriptor.maximum d =
         (if decide (MemoryDescriptor.maximum d0 <> 0 /\
                     MemoryDescriptor.maximum d0 < MemoryDescriptor.minimum d0)
          then MemoryDescriptor.minimum d0
          else MemoryDescriptor.maximum d0) /\
       (MemoryDescriptor.maximum d = 0 \/
        MemoryDescriptor.minimum d <= MemoryDescriptor.maximum d))
    (std_sort size_less input) (profile st).
Proof.
  intros Hrun.
  pose proof (MemoryManager_ctor_outcome operator_new (fun _ => True)
                ltac:(done) std_sort self input env) as Hout.
  rewrite Hrun in Hout. destruct Hout as (-> & _).
  apply Forall2_fmap_r, Forall_Forall2_diag, Forall_forall. intros d0 _.
  unfold repaired, compose. cbn beta.
  destruct (MemoryDescriptor.maximum d0 =? 0) eqn:E0;
    [apply Z.eqb_eq in E0|apply Z.eqb_neq in E0];
    (destruct (MemoryDescriptor.maximum d0 <? MemoryDescriptor.minimum d0) eqn:El;
     [apply Z.ltb_lt in El|apply Z.ltb_ge in El]);
    cbn; case_decide; split_and!; try done; lia.
Qed.

(** X10. With a system allocator that never fails, construction completes
    and the pool of every class holds exactly [minimum] blocks. *)
Theorem construction_reserves_minimum (self : Z) (input : MemoryProfile)
    (env : State) :
  never_fails operator_new ->
  exists st,
    MemoryManager_ctor operator_new std_sort self input env = Ret tt st /\
    forall i d,
      profile st !! i = Some d ->
      exists pool,
        allocations st !! i = Some pool /\
        length pool = Z.to_nat (MemoryDescriptor.minimum d).
Proof.
  intros Hnf.
  pose proof (MemoryManager_ctor_reserves self input env) as Hout.
  destruct (MemoryManager_ctor operator_new std_sort self input env)
    as [[] st|e st|]; [| |done].
  - exists st. split; [done|]. destruct Hout as (_ & Hres).
    intros i d Hd.
    destruct (Forall2_lookup_l _ _ _ _ _ Hres Hd) as (pool & Hpool & _ & Hfull).
    exists pool. split; [done|]. by apply Hfull.
  - destruct Hout as (k & n & Hk). destruct (Hnf k n) as (a & Ha & _).
    congruence.
Qed.

End Constructed.

(** ** Invariants of the engine under any sequence of calls *)

Section Calls.

Variable operator_new : nat -> Z -> NewResult.

Lemma same_table_aligned (st st' : State) :
  aligned st -> same_table st st' -> aligned st'.
Proof. intros [? ?] (? & ? & ?). split; congruence. Qed.

Lemma Free_within_maximum (p : Z) (st : State) (b : bool) (st' : State) :
  Free p st = Ret b st' -> within_maximum st -> within_maximum st'.
Proof.
  rewrite Free_unfold. cbn zeta.
  set (block := wrap64 (p - sizeof_MemoryHeader)).
  set (i := Z.to_nat (load64 (memory st) (wrap64 (block + offsetof_index)))).
  destruct (p <? sizeof_MemoryHeader); [done|].
  destruct (_ || _); [by intros [= <- <-]|].
  destruct (negb _); [by intros [= <- <-]|].
  destruct (_ && _); [by intros [= <- <-]|].
  destruct (profile st !! i) as [d|] eqn:Hd; [|done].
  destruct (statistics st !! i) as [s|] eqn:Hs; [|done].
  destruct (_ || _); [by intros [= <- <-]|].
  destruct (allocations st !! i) as [pool|] eqn:Hpool; [|done].
  destruct (Z.eqb_spec (MemoryDescriptor.maximum d) 0) as [E0|E0];
    destruct (Z.ltb_spec (Z.of_nat (length pool)) (MemoryDescriptor.maximum d))
      as [El|El]; cbn [orb]; intros [= <- <-] Hin;
    try (by (intros j dj poolj Hdj Hpj; apply (Hin j dj poolj Hdj Hpj))).
  all: intros j dj poolj Hdj Hpj Hmax; cbn in Hdj, Hpj;
    destruct (decide (j = i)) as [->|Hne];
    [ rewrite list_lookup_insert_eq in Hpj by (by eapply lookup_lt_Some);
      injection Hpj as <-; assert (dj = d) as -> by congruence;
      rewrite length_app; cbn; lia
    | rewrite list_lookup_insert_ne in Hpj by done; by eapply Hin ].
Qed.

Lemma pools_shrink_within_maximum (st st' : State) :
  profile st' = profile st ->
  pools_shrink st st' ->
  within_maximum st -> within_maximum st'.
Proof.
  intros Hp Hsh Hin i d pool' Hd Hpool' Hmax. rewrite Hp in Hd.
  destruct (Forall2_lookup_r _ _ _ _ _ Hsh Hpool') as (pool & Hpool & Hle).
  specialize (Hin i d pool Hd Hpool Hmax). lia.
Qed.

Section Entries.

Variable E : Statistics.t -> Statistics.t -> Prop.
Hypothesis E_refl : forall s, E s s.
Hypothesis E_trans : forall a b c, E a b -> E b c -> E a c.
Hypothesis E_allocation : forall s, E s (count_allocation s).
Hypothesis E_unfulfilled : forall s, E s (count_unfulfilled s).
Hypothesis E_deallocation : forall s, E s (count_deallocation s).
Hypothesis E_corruption : forall s, E s (count_corruption s).

(* One call of the public interface. *)
Lemma perform_effect (c : Call) (st st' : State) :
  aligned st ->
  final_state (perform operator_new c st) = Some st' ->
  statistics_step E st st' /\ aligned st' /\
  (within_maximum st -> within_maximum st').
Proof.
  intros Hal. destruct c as [size|p|]; cbn [perform].
  - pose proof (Allocate_effect operator_new E E_refl E_trans E_allocation
                  E_unfulfilled size st Hal) as Heff.
    pose proof (preserves_Allocate operator_new size st) as Hsame.
    unfold bind.
    destruct (Allocate operator_new size st) as [q s1|e s1|]; [| |done];
      cbn; intros [= <-].
    + destruct Heff as (? & ? & ?). split_and!; try done.
      apply pools_shrink_within_maximum; [apply Hsame|done].
    + destruct Heff as (? & ? & ? & _). split_and!; try done.
      apply pools_shrink_within_maximum; [apply Hsame|done].
  - pose proof (preserves_Free p st) as Hsame.
    pose proof (Free_effect E E_refl E_trans E_deallocation E_corruption p st) as Heff.
    pose proof (Free_within_maximum p st) as Hmax.
    pose proof (Free_unfold p st) as Hun. cbn zeta in Hun.
    unfold bind.
    destruct (Free p st) as [b s1|e s1|] eqn:HF; cbn; [| |done].
    + intros [= <-]. split_and!; [by eapply Heff| |by eapply Hmax].
      by eapply same_table_aligned.
    + exfalso. revert Hun.
      repeat match goal with
      | |- context [if ?c then _ else _] => destruct c
      | |- context [match ?x with Some _ => _ | None => _ end] => destruct x
      end; discriminate.
  - cbn. intros [= <-]. split_and!; try done.
    by apply Forall2_refl_all.
Qed.

Lemma perform_all_effect (calls : list Call) :
  forall st st' : State,
    aligned st ->
    final_state (perform_all operator_new calls st) = Some st' ->
    statistics_step E st st' /\ aligned st' /\
    (within_maximum st -> within_maximum st').
Proof.
  induction calls as [|c calls IH]; intros st st' Hal.
  { cbn. intros [= <-]. split_and!; try done. by apply Forall2_refl_all. }
  cbn [perform_all]. unfold bind at 1.
  pose proof (perform_effect c st) as Hc.
  destruct (perform operator_new c st) as [u s1|e s1|]; [| |done].
  - specialize (Hc s1 Hal eq_refl) as (H1 & H2 & H3).
    intros Hrest. destruct (IH s1 st' H2 Hrest) as (I1 & I2 & I3).
    split_and!; [|done|by intros; apply I3, H3].
    by eapply Forall2_chain.
  - cbn. intros [= <-]. by apply Hc.
Qed.

End Entries.


(** X12. Through any sequence of Allocate, Free and GetStatistics calls,
    [max_outstanding] of a class never decreases, and a class whose
    [outstanding] is not above its [max_outstanding] keeps it so. *)
Theorem max_outstanding_is_a_high_water_mark (calls : list Call)
    (st st' : State) :
  aligned st ->
  final_state (perform_all operator_new calls st) = Some st' ->
  Forall2
    (fun s s' =>
       Statistics.max_outstanding s <= Statistics.max_outstanding s' /\
       (Statistics.outstanding s <= Statistics.max_outstanding s ->
        Statistics.outstanding s' <= Statistics.max_outstanding s'))
    (statistics st) (statistics st').
Proof.
  intros Hal Hrun.
  set (E := fun s s' =>
              Statistics.max_outstanding s <= Statistics.max_outstanding s' /\
              (Statistics.outstanding s <= Statistics.max_outstanding s ->
               Statistics.outstanding s' <= Statistics.max_outstanding s')).
  assert (E1 : forall s, E s s) by (intros s; split; [lia|done]).
  assert (E2 : forall a b c, E a b -> E b c -> E a c)
    by (intros a b c [? ?] [? ?]; split; [lia|auto]).
  assert (E3 : forall s, E s (count_allocation s))
    by (intros s; unfold E, count_allocation; cbn -[Z.max wrap64]; lia).
  assert (E4 : forall s, E s (count_unfulfilled s))
    by (intros s; unfold E, count_unfulfilled; cbn -[Z.max wrap64]; lia).
  assert (E5 : forall s, E s (count_deallocation s)).
  { intros s. unfold E, count_deallocation. cbn -[Z.max wrap64].
    destruct (Z.ltb_spec 0 (Statistics.outstanding s)); cbn -[Z.max wrap64]; [|lia].
    assert (wrap64 (Statistics.outstanding s - 1) <= Statistics.outstanding s - 1)
      by (unfold wrap64; apply Z.mod_le; lia).
    lia. }
  assert (E6 : forall s, E s (count_corruption s))
    by (intros s; unfold E, count_corruption; cbn -[Z.max wrap64]; lia).
  by destruct (perform_all_effect E E1 E2 E3 E4 E5 E6 calls st st' Hal Hrun).
Qed.

(** X13. Through any sequence of calls the [size] fields of the statistics
    stay as they are, and so does the number of entries. *)
Theorem statistics_sizes_are_fixed (calls : list Call) (st st' : State) :
  aligned st ->
  final_state (perform_all operator_new calls st) = Some st' ->
  map Statistics.size (statistics st') = map Statistics.size (statistics st).
Proof.
  intros Hal Hrun.
  set (E := fun s s' : Statistics.t => Statistics.size s' = Statistics.size s).
  assert (E5 : forall s, E s (count_deallocation s))
    by (intros s; unfold E, count_deallocation; cbn; by destruct (0 <? _)).
  destruct (perform_all_effect E ltac:(done)
              ltac:(unfold E; intros a b c; congruence)
              ltac:(done) ltac:(done) E5 ltac:(done) calls st st' Hal Hrun)
    as (Hstep & _).
  unfold statistics_step in Hstep.
  induction Hstep as [|s s' l l' Hs Hl IH]; [done|]. cbn. by rewrite Hs, IH.
Qed.

End Calls.

Section Retained.

Variable std_sort :
  (MemoryDescriptor.t -> MemoryDescriptor.t -> bool) ->
  MemoryProfile -> MemoryProfile.
Hypothesis std_sort_ok : sort_contract std_sort.

Variable operator_new : nat -> Z -> NewResult.

(** X14. [maximum] bounds what an engine retains: on an engine built from
    descriptors with non-negative [maximum], after construction and after
    any sequence of Allocate, Free and GetStatistics calls, no class with a
    non-zero [maximum] has more than [maximum] blocks in its pool. *)
Theorem retained_blocks_stay_within_maximum (self : Z)
    (input : MemoryProfile) (env st : State) (calls : list Call)
    (st' : State) :
  Forall (fun d => 0 <= MemoryDescriptor.maximum d) input ->
  MemoryManager_ctor operator_new std_sort self input env = Ret tt st ->
  final_state (perform_all operator_new calls st) = Some st' ->
  within_maximum st'.
Proof.
  intros Hnonneg Hctor Hrun.
  pose proof (MemoryManager_ctor_reserves std_sort operator_new self input env)
    as Hout.
  rewrite Hctor in Hout. destruct Hout as ((Hp & _ & Hal & _) & Hres).
  assert (Hin : within_maximum st).
  { intros i d pool Hd Hpool Hmax.
    destruct (Forall2_lookup_lr _ _ _ _ _ _ Hres Hd Hpool) as [Hle _].
    rewrite Hp in Hd. apply list_lookup_fmap_Some in Hd as (d0 & -> & Hd0).
    assert (Hd0in : d0 ∈ input).
    { destruct (std_sort_ok input) as [Hperm _]. rewrite Hperm.
      by eapply list_elem_of_lookup_2. }
    eapply Forall_forall in Hnonneg; [|exact Hd0in]. cbn beta in Hnonneg.
    revert Hle Hmax. unfold repaired.
    destruct (Z.eqb_spec (MemoryDescriptor.maximum d0) 0) as [E0|E0];
      cbn [negb andb]; [done|].
    destruct (Z.ltb_spec (MemoryDescriptor.maximum d0)
                         (MemoryDescriptor.minimum d0)); cbn; lia. }
  destruct (perform_all_effect operator_new (fun _ _ => True)
              ltac:(done) ltac:(done) ltac:(done) ltac:(done) ltac:(done)
              ltac:(done) calls st st' Hal Hrun) as (_ & _ & H).
  by apply H.
Qed.

End Retained.

Section PoolHit.

Variable operator_new : nat -> Z -> NewResult.

(** X15. When the first class large enough for a request has a block in its
    pool, Allocate hands out the block at the back of that pool (the one
    pushed last) without asking the system allocator, writing memory or
    logging; only the pool and the statistics of that class change. *)
Theorem Allocate_takes_the_back_of_the_pool (size : Z) (i : nat)
    (d : MemoryDescriptor.t) (s : Statistics.t) (pool : list Z) (block : Z)
    (st : State) :
  aligned st ->
  profile st !! i = Some d ->
  allocations st !! i = Some (pool ++ [block]) ->
  statistics st !! i = Some s ->
  (forall j dj, (j < i)%nat -> profile st !! j = Some dj ->
                MemoryDescriptor.size dj < size) ->
  size <= MemoryDescriptor.size d ->
  exists st',
    Allocate operator_new size st
      = Ret (wrap64 (block + sizeof_MemoryHeader)) st' /\
    allocations st' = <[i := pool]> (allocations st) /\
    statistics st' = <[i := count_allocation s]> (statistics st) /\
    heap_requests st' = heap_requests st /\
    heap_released st' = heap_released st /\
    memory st' = memory st /\
    logger st' = logger st /\
    profile st' = profile st.
Proof.
  intros Hal Hd Hpool Hs Hsmall Hfit.
  eexists. split; [by eapply Allocate_pops|]. by cbn.
Qed.

End PoolHit.

(** ** What PerformAllocation writes is what Free reads *)

Lemma load8_store8_same (m : Memory) (a v : Z) :
  load8 (store8 m a v) a = v mod 256.
Proof. unfold load8, store8. by rewrite lookup_insert_eq. Qed.

Lemma load8_store8_other (m : Memory) (a b v : Z) :
  a <> b -> load8 (store8 m b v) a = load8 m a.
Proof. intros H. unfold load8, store8. by rewrite lookup_insert_ne. Qed.

Lemma load8_store_bytes_outside (n : nat) :
  forall (m : Memory) (a b v : Z),
    a < b \/ b + Z.of_nat n <= a ->
    load8 (store_bytes m b n v) a = load8 m a.
Proof.
  induction n as [|n IH]; intros m a b v Hout; [done|].
  cbn [store_bytes]. rewrite IH by lia. apply load8_store8_other. lia.
Qed.

Lemma load_bytes_store_bytes_outside (k : nat) :
  forall (m : Memory) (a b v : Z) (n : nat),
    a + Z.of_nat k <= b \/ b + Z.of_nat n <= a ->
    load_bytes (store_bytes m b n v) a k = load_bytes m a k.
Proof.
  induction k as [|k IH]; intros m a b v n Hout; [done|].
  cbn [load_bytes]. rewrite IH by lia.
  by rewrite load8_store_bytes_outside by lia.
Qed.

Lemma load_bytes_store_bytes_same (n : nat) :
  forall (m : Memory) (a v : Z),
    load_bytes (store_bytes m a n v) a n = v mod 256 ^ Z.of_nat n.
Proof.
  induction n as [|n IH]; intros m a v.
  { cbn. by rewrite Z.mod_1_r. }
  cbn [store_bytes load_bytes]. rewrite IH.
  rewrite load8_store_bytes_outside by lia. rewrite load8_store8_same.
  rewrite Nat2Z.inj_succ, Z.pow_succ_r by lia.
  rewrite Z.rem_mul_r by lia. done.
Qed.

Lemma load64_store64_same (m : Memory) (a v : Z) :
  load64 (store64 m a v) a = wrap64 v.
Proof. unfold load64, store64, wrap64. by rewrite load_bytes_store_bytes_same. Qed.

Lemma load64_store64_other (m : Memory) (a b v : Z) :
  a + 8 <= b \/ b + 8 <= a ->
  load64 (store64 m b v) a = load64 m a.
Proof.
  intros H. unfold load64, store64.
  apply load_bytes_store_bytes_outside. lia.
Qed.

(* A block that lies inside the address space, with the payload of its
   class between header and trailer. *)
Lemma stamp_reads_back (self : Z) (index : nat) (d : MemoryDescriptor.t)
    (block : Z) (m : Memory) :
  0 <= block ->
  0 <= MemoryDescriptor.size d ->
  block + sizeof_MemoryHeader + MemoryDescriptor.size d + sizeof_MemoryTrailer
    <= 2 ^ 64 ->
  let m' := stamp self index d block m in
  load64 m' block = wrap64 self /\
  load64 m' (wrap64 (block + offsetof_index)) = wrap64 (Z.of_nat index) /\
  load64 m' (wrap64 (block + offsetof_marker)) = Header_Marker_Value /\
  load64 m' (wrap64 (block + sizeof_MemoryHeader + MemoryDescriptor.size d))
    = Trailer_Marker_Value.
Proof.
  unfold sizeof_MemoryHeader, sizeof_MemoryTrailer, offsetof_index,
    offsetof_marker.
  intros Hb Hs Hfit. cbn zeta. unfold stamp.
  unfold sizeof_MemoryHeader, offsetof_memory_manager, offsetof_index,
    offsetof_marker.
  rewrite !(wrap64_small (block + 0)), !(wrap64_small (block + 8)),
    !(wrap64_small (block + 16)),
    !(wrap64_small (block + 24 + MemoryDescriptor.size d)) by lia.
  rewrite Z.add_0_r. split_and!.
  - rewrite !load64_store64_other by lia. apply load64_store64_same.
  - rewrite !load64_store64_other by lia. apply load64_store64_same.
  - rewrite load64_store64_other by lia. by rewrite load64_store64_same.
  - by rewrite load64_store64_same.
Qed.

Lemma load8_memset_outside (n : nat) :
  forall (m : Memory) (p v a : Z),
    a < p \/ p + Z.of_nat n <= a ->
    load8 (memset m p v n) a = load8 m a.
Proof.
  induction n as [|n IH]; intros m p v a Hout; [done|].
  cbn [memset]. rewrite IH by lia. apply load8_store8_other. lia.
Qed.

(** ** Allocate and Free, one after the other *)

Lemma load_bytes_ext (n : nat) :
  forall (m m' : Memory) (a : Z),
    (forall b, a <= b < a + Z.of_nat n -> load8 m' b = load8 m b) ->
    load_bytes m' a n = load_bytes m a n.
Proof.
  induction n as [|n IH]; intros m m' a Hsame; [done|].
  cbn [load_bytes]. rewrite Hsame by lia. f_equal. f_equal.
  apply IH. intros b Hb. apply Hsame. lia.
Qed.

Lemma load64_payload_only (p size : Z) (m m' : Memory) (a : Z) :
  payload_only p size m m' ->
  a + 8 <= p \/ p + size <= a ->
  load64 m' a = load64 m a.
Proof.
  intros Hpay Hout. unfold load64. apply load_bytes_ext.
  intros b Hb. apply Hpay. lia.
Qed.

(* Free on an intact block of class [i] whose pool has room. *)
Lemma Free_pools_block (block : Z) (i : nat) (st : State)
    (d : MemoryDescriptor.t) (s : Statistics.t) (pool : list Z) :
  Z.of_nat (length (profile st)) <= SIZE_MAX ->
  valid_block block ->
  load64 (memory st) block = this st ->
  load64 (memory st) (block + offsetof_index) = Z.of_nat i ->
  load64 (memory st) (block + offsetof_marker) = Header_Marker_Value ->
  load64 (memory st)
    (wrap64 (block + sizeof_MemoryHeader + MemoryDescriptor.size d))
    = Trailer_Marker_Value ->
  profile st !! i = Some d ->
  statistics st !! i = Some s ->
  allocations st !! i = Some pool ->
  MemoryDescriptor.maximum d = 0 \/
  Z.of_nat (length pool) < MemoryDescriptor.maximum d ->
  Free (block + sizeof_MemoryHeader) st =
    Ret true
      (set_allocations (<[i := pool ++ [block]]> (allocations st))
         (set_statistics (<[i := count_deallocation s]> (statistics st)) st)).
Proof.
  intros Hlen Hvalid Hown Hidx Hhead Htail Hd Hs Hpool Hroom.
  assert (Hb : wrap64 (block + sizeof_MemoryHeader - sizeof_MemoryHeader) = block)
    by (by apply payload_of_block).
  assert (Hw8 : wrap64 (block + offsetof_index) = block + offsetof_index).
  { destruct Hvalid. unfold offsetof_index, sizeof_MemoryHeader in *.
    apply wrap64_small. lia. }
  assert (Hw16 : wrap64 (block + offsetof_marker) = block + offsetof_marker).
  { destruct Hvalid. unfold offsetof_marker, sizeof_MemoryHeader in *.
    apply wrap64_small. lia. }
  pose proof (Free_trusted (block + sizeof_MemoryHeader) st d s) as HF.
  cbn zeta in HF. rewrite Hb, Hw8, Hw16, Hidx, Nat2Z.id in HF.
  rewrite HF; try done.
  - rewrite Hhead, Htail, !Z.eqb_refl, Hpool. cbn [negb orb].
    by replace ((MemoryDescriptor.maximum d =? 0)
                || (Z.of_nat (length pool) <? MemoryDescriptor.maximum d))
      with true by (symmetry; apply orb_true_iff; lia).
  - destruct Hvalid. unfold nullptr. lia.
  - unfold sizeof_MemoryHeader. lia.
Qed.

Section RoundTrip.

Variable operator_new : nat -> Z -> NewResult.

(* The scan reaches the first class that is large enough; its pool is
   empty and it grows by a block of the system allocator. *)
Lemma Allocate_loop_grows (size : Z) (i : nat) (d : MemoryDescriptor.t)
    (s : Statistics.t) (block : Z) (st : State) (remaining : nat) :
  aligned st ->
  profile st !! i = Some d ->
  allocations st !! i = Some [] ->
  statistics st !! i = Some s ->
  (forall j dj, (j < i)%nat -> profile st !! j = Some dj ->
                MemoryDescriptor.size dj < size) ->
  size <= MemoryDescriptor.size d ->
  beyond_constraints d [] s = false ->
  operator_new (heap_requests st) (block_bytes d) = NewPtr block ->
  block <> nullptr ->
  forall i0,
    (i0 <= i)%nat ->
    (i0 + remaining = length (profile st))%nat ->
    Allocate_loop operator_new remaining i0 size st =
      Ret (wrap64 (block + sizeof_MemoryHeader))
          (served i s []
             (set_memory (stamp (this st) i d block (memory st))
                (set_heap_requests (S (heap_requests st)) st))).
Proof.
  intros Hal Hd Hpool Hs Hsmall Hfit Hgate Hnew Hnn.
  induction remaining as [|r IH]; intros i0 Hi0 Hlen.
  { apply lookup_lt_Some in Hd. lia. }
  destruct (aligned_lookups st i0 Hal) as (d0 & pool0 & s0 & Hd0 & Hpool0 & Hs0);
    [lia|].
  rewrite (Allocate_loop_step _ _ _ _ _ _ _ _ Hd0 Hpool0 Hs0).
  destruct (decide (i0 = i)) as [->|Hne].
  - assert (d0 = d) as -> by congruence.
    assert (pool0 = []) as -> by congruence.
    assert (s0 = s) as -> by congruence.
    replace (MemoryDescriptor.size d <? size) with false by lia.
    cbn [last]. rewrite Hgate. cbn zeta. rewrite Hnew.
    by replace (block =? nullptr) with false by lia.
  - replace (MemoryDescriptor.size d0 <? size) with true
      by (symmetry; apply Z.ltb_lt; apply (Hsmall i0); [lia|done]).
    apply IH; lia.
Qed.

(** X16. A block obtained by growth is accepted when it comes back.  The
    first class large enough for the request has an empty pool and may
    grow, and the system allocator hands out a block that lies inside the
    address space.  Allocate returns the address 24 bytes into that block;
    whatever the caller then writes into the [size] payload bytes of the
    class, Free of that address returns [true], puts the block into the
    pool of the class, counts one deallocation and no corruption, and
    hands nothing to delete[]. *)
Theorem fresh_block_round_trip (size : Z) (i : nat) (d : MemoryDescriptor.t)
    (s : Statistics.t) (block : Z) (st : State) :
  aligned st ->
  Z.of_nat (length (profile st)) <= SIZE_MAX ->
  0 <= this st < 2 ^ 64 ->
  profile st !! i = Some d ->
  allocations st !! i = Some [] ->
  statistics st !! i = Some s ->
  (forall j dj, (j < i)%nat -> profile st !! j = Some dj ->
                MemoryDescriptor.size dj < size) ->
  size <= MemoryDescriptor.size d ->
  0 <= MemoryDescriptor.size d ->
  0 <= MemoryDescriptor.maximum d ->
  beyond_constraints d [] s = false ->
  operator_new (heap_requests st) (block_bytes d) = NewPtr block ->
  0 < block ->
  block + sizeof_MemoryHeader + MemoryDescriptor.size d + sizeof_MemoryTrailer
    <= 2 ^ 64 ->
  exists st1,
    Allocate operator_new size st = Ret (block + sizeof_MemoryHeader) st1 /\
    forall m',
      payload_only (block + sizeof_MemoryHeader) (MemoryDescriptor.size d)
                   (memory st1) m' ->
      exists st2,
        Free (block + sizeof_MemoryHeader) (set_memory m' st1) = Ret true st2 /\
        allocations st2 = <[i := [block]]> (allocations st) /\
        statistics st2
          = <[i := count_deallocation (count_allocation s)]> (statistics st) /\
        Statistics.corruption_count (count_deallocation (count_allocation s))
          = Statistics.corruption_count s /\
        heap_released st2 = heap_released st /\
        logger st2 = logger st.
Proof.
  intros Hal Hlen Hthis Hd Hpool Hs Hsmall Hfit Hsize Hmax Hgate Hnew Hpos Hin.
  assert (Hvalid : valid_block block).
  { unfold valid_block, sizeof_MemoryHeader, sizeof_MemoryTrailer in *. lia. }
  assert (Hi : (i < length (profile st))%nat) by (by eapply lookup_lt_Some).
  eexists. split.
  { unfold Allocate. rewrite (bind_Ret _ _ _ _ _ (get_run st)).
    erewrite (Allocate_loop_grows size i d s block st); eauto; try lia.
    - f_equal. by apply payload_of_block.
    - unfold nullptr. lia. }
  intros m' Hpay.
  destruct (stamp_reads_back (this st) i d block (memory st))
    as (R0 & R8 & R16 & Rt); [lia|done|done|].
  unfold sizeof_MemoryHeader, sizeof_MemoryTrailer, offsetof_index,
    offsetof_marker in *.
  rewrite (wrap64_small (this st)) in R0 by lia.
  rewrite (wrap64_small (Z.of_nat i)) in R8 by (unfold SIZE_MAX in Hlen; lia).
  rewrite (wrap64_small (block + 8)) in R8 by lia.
  rewrite (wrap64_small (block + 16)) in R16 by lia.
  eexists. split.
  { erewrite (Free_pools_block block i _ d (count_allocation s) []).
    - reflexivity.
    - done.
    - done.
    - cbn [memory set_memory].
      rewrite (load64_payload_only _ _ _ _ _ Hpay) by lia. exact R0.
    - cbn [memory set_memory]. unfold offsetof_index.
      rewrite (load64_payload_only _ _ _ _ _ Hpay) by lia. exact R8.
    - cbn [memory set_memory]. unfold offsetof_marker.
      rewrite (load64_payload_only _ _ _ _ _ Hpay) by lia. exact R16.
    - cbn [memory set_memory]. unfold sizeof_MemoryHeader.
      rewrite (load64_payload_only _ _ _ _ _ Hpay)
        by (rewrite wrap64_small by lia; lia).
      exact Rt.
    - done.
    - cbn. apply list_lookup_insert_eq. destruct Hal. lia.
    - cbn. apply list_lookup_insert_eq. destruct Hal. lia.
    - cbn. lia. }
  cbn. rewrite !list_insert_insert_eq. split_and!; try done.
  unfold count_deallocation, count_allocation. cbn.
  by destruct (0 <? _).
Qed.

(** X17. Taking a block from a pool and giving it back restores the pools.
    The first class large enough for the request holds a block whose
    header and trailer are intact in the memory [m'] the caller leaves
    behind.  Allocate pops it, Free of the returned address returns [true]
    and pushes it back: every pool is as before the two calls, nothing is
    handed to delete[], and the class has counted one allocation and one
    deallocation with [outstanding] back at its old value. *)
Theorem pooled_block_round_trip (size : Z) (i : nat) (d : MemoryDescriptor.t)
    (s : Statistics.t) (pool : list Z) (block : Z) (st : State)
    (m' : Memory) :
  aligned st ->
  within_maximum st ->
  Z.of_nat (length (profile st)) <= SIZE_MAX ->
  profile st !! i = Some d ->
  allocations st !! i = Some (pool ++ [block]) ->
  statistics st !! i = Some s ->
  (forall j dj, (j < i)%nat -> profile st !! j = Some dj ->
                MemoryDescriptor.size dj < size) ->
  size <= MemoryDescriptor.size d ->
  0 <= Statistics.outstanding s < SIZE_MAX ->
  valid_block block ->
  load64 m' block = this st ->
  load64 m' (block + offsetof_index) = Z.of_nat i ->
  load64 m' (block + offsetof_marker) = Header_Marker_Value ->
  load64 m' (wrap64 (block + sizeof_MemoryHeader + MemoryDescriptor.size d))
    = Trailer_Marker_Value ->
  exists st1 st2 s',
    Allocate operator_new size st = Ret (block + sizeof_MemoryHeader) st1 /\
    Free (block + sizeof_MemoryHeader) (set_memory m' st1) = Ret true st2 /\
    allocations st2 = allocations st /\
    heap_released st2 = heap_released st /\
    heap_requests st2 = heap_requests st /\
    statistics st2 = <[i := s']> (statistics st) /\
    Statistics.allocations s' = wrap64 (Statistics.allocations s + 1) /\
    Statistics.deallocations s' = wrap64 (Statistics.deallocations s + 1) /\
    Statistics.outstanding s' = Statistics.outstanding s /\
    Statistics.corruption_count s' = Statistics.corruption_count s /\
    Statistics.unfulfilled s' = Statistics.unfulfilled s.
Proof.
  intros Hal Hmax Hlen Hd Hpool Hs Hsmall Hfit Hout Hvalid R0 R8 R16 Rt.
  assert (Hi : (i < length (profile st))%nat) by (by eapply lookup_lt_Some).
  assert (Hroom : MemoryDescriptor.maximum d = 0 \/
                  Z.of_nat (length pool) < MemoryDescriptor.maximum d).
  { destruct (decide (MemoryDescriptor.maximum d = 0)) as [|Hne]; [by left|].
    right. pose proof (Hmax i d _ Hd Hpool Hne) as Hle.
    rewrite length_app in Hle. cbn in Hle. lia. }
  eexists _, _, _. split.
  { rewrite (Allocate_pops operator_new size i d s pool block st) by done.
    f_equal. by apply payload_of_block. }
  split.
  { erewrite (Free_pools_block block i _ d (count_allocation s) pool);
      try done.
    - cbn. apply list_lookup_insert_eq. destruct Hal. lia.
    - cbn. apply list_lookup_insert_eq. destruct Hal. lia. }
  cbn. rewrite !list_insert_insert_eq.
  rewrite (list_insert_id _ _ _ Hpool).
  split_and!; try done.
  all: unfold count_deallocation, count_allocation; cbn -[Z.max wrap64].
  all: unfold SIZE_MAX in Hout.
  all: rewrite (wrap64_small (Statistics.outstanding s + 1)) by lia.
  all: replace (0 <? Statistics.outstanding s + 1) with true by lia.
  all: cbn -[Z.max wrap64]; try done.
  rewrite wrap64_small by lia. lia.
Qed.

(** X18. The block freed last is the block served next.  After a Free that
    put a block into the pool of class [i], an Allocate whose first large
    enough class is [i] returns the very pointer that was freed, and the
    pools are again as they were before the Free. *)
Theorem Allocate_reuses_last_freed_block (size : Z) (i : nat)
    (d : MemoryDescriptor.t) (s : Statistics.t) (pool : list Z) (block : Z)
    (st : State) :
  aligned st ->
  Z.of_nat (length (profile st)) <= SIZE_MAX ->
  valid_block block ->
  load64 (memory st) block = this st ->
  load64 (memory st) (block + offsetof_index) = Z.of_nat i ->
  load64 (memory st) (block + offsetof_marker) = Header_Marker_Value ->
  load64 (memory st)
    (wrap64 (block + sizeof_MemoryHeader + MemoryDescriptor.size d))
    = Trailer_Marker_Value ->
  profile st !! i = Some d ->
  statistics st !! i = Some s ->
  allocations st !! i = Some pool ->
  MemoryDescriptor.maximum d = 0 \/
  Z.of_nat (length pool) < MemoryDescriptor.maximum d ->
  (forall j dj, (j < i)%nat -> profile st !! j = Some dj ->
                MemoryDescriptor.size dj < size) ->
  size <= MemoryDescriptor.size d ->
  exists st1 st2,
    Free (block + sizeof_MemoryHeader) st = Ret true st1 /\
    Allocate operator_new size st1 = Ret (block + sizeof_MemoryHeader) st2 /\
    allocations st2 = allocations st /\
    memory st2 = memory st /\
    heap_requests st2 = heap_requests st /\
    heap_released st2 = heap_released st.
Proof.
  intros Hal Hlen Hvalid R0 R8 R16 Rt Hd Hs Hpool Hroom Hsmall Hfit.
  assert (Hi : (i < length (profile st))%nat) by (by eapply lookup_lt_Some).
  eexists _, _. split.
  { by apply (Free_pools_block block i st d s pool). }
  split.
  { erewrite (Allocate_pops operator_new size i d (count_deallocation s)
                pool block); try done.
    - f_equal. by apply payload_of_block.
    - destruct Hal as [Ha Hst]. split; cbn; by rewrite length_insert.
    - cbn. apply list_lookup_insert_eq. destruct Hal. lia.
    - cbn. apply list_lookup_insert_eq. destruct Hal. lia. }
  cbn. rewrite list_insert_insert_eq.
  by rewrite (list_insert_id _ _ _ Hpool).
Qed.

End RoundTrip.

(** ** MemoryManager::~MemoryManager *)

(* The loop pops from the back and each block goes to delete[]: the pool
   ends up in front of the released blocks, in its own order. *)
Lemma release_pool_loop_run (index : nat) (pool : list Z) :
  forall st : State,
    allocations st !! index = Some pool ->
    release_pool_loop (length pool) index st =
      Ret tt (set_heap_released (pool ++ heap_released st)
                (set_allocations (<[index := []]> (allocations st)) st)).
Proof.
  induction pool as [|x pool IH] using rev_ind; intros st Hpool.
  { cbn. rewrite list_insert_id by done. by destruct st. }
  rewrite length_app. cbn [length]. rewrite Nat.add_1_r.
  cbn [release_pool_loop]. mstep. rewrite last_snoc. mrun.
  rewrite removelast_last.
  rewrite IH by (cbn; apply list_lookup_insert_eq; by eapply lookup_lt_Some).
  cbn. by rewrite list_insert_insert_eq, <- app_assoc.
Qed.

Lemma release_pool_run (index : nat) (pool : list Z) (st : State) :
  allocations st !! index = Some pool ->
  release_pool index st =
    Ret tt (set_heap_released (pool ++ heap_released st)
              (set_allocations (<[index := []]> (allocations st)) st)).
Proof.
  intros Hpool. unfold release_pool. mstep. by apply release_pool_loop_run.
Qed.

Lemma destructor_loop_run (log_statistics : bool) (remaining : nat) :
  forall (index : nat) (st : State),
    aligned st ->
    (index + remaining = length (profile st))%nat ->
    exists st',
      destructor_loop log_statistics remaining index st = Ret tt st' /\
      allocations st'
        = take index (allocations st) ++ replicate remaining [] /\
      heap_released st'
        = concat (rev (drop index (allocations st))) ++ heap_released st /\
      (exists lines,
         logger st' = logger st ++ lines /\
         length lines = if log_statistics then (7 * remaining)%nat else O) /\
      profile st' = profile st /\
      statistics st' = statistics st /\
      memory st' = memory st /\
      heap_requests st' = heap_requests st /\
      this st' = this st.
Proof.
  induction remaining as [|r IH]; intros index st Hal Hlen.
  { exists st. cbn. rewrite app_nil_r.
    destruct Hal as [Ha Hs].
    rewrite take_ge, drop_ge by lia. cbn.
    split_and!; try done. exists []. rewrite app_nil_r.
    by destruct log_statistics. }
  destruct (aligned_lookups st index Hal) as (d & pool & s & Hd & Hpool & Hs);
    [lia|].
  cbn [destructor_loop].
  set (lines0 := if log_statistics then
        [(info, [Text "  Block size: "; Num (MemoryDescriptor.size d)]);
         (info, [Text "    Allocations: "; Num (Statistics.allocations s)]);
         (info, [Text "    Deallocations: "; Num (Statistics.deallocations s)]);
         (info, [Text "    Corrupted: "; Num (Statistics.corruption_count s)]);
         (info, [Text "    Max Outstanding: ";
                 Num (Statistics.max_outstanding s)]);
         (info, [Text "    Outstanding: "; Num (Statistics.outstanding s)]);
         (info, [Text "    Unfulfilled: "; Num (Statistics.unfulfilled s)])]
      else [] : list LogLine).
  set (st0 := set_logger (logger st ++ lines0) st).
  assert (Hlog : (if log_statistics then
       d <- profile_at index ;;
       log info [Text "  Block size: "; Num (MemoryDescriptor.size d)] ;;
       st <- statistics_at index ;;
       log info [Text "    Allocations: "; Num (Statistics.allocations st)] ;;
       log info [Text "    Deallocations: "; Num (Statistics.deallocations st)] ;;
       log info [Text "    Corrupted: "; Num (Statistics.corruption_count st)] ;;
       log info [Text "    Max Outstanding: ";
                 Num (Statistics.max_outstanding st)] ;;
       log info [Text "    Outstanding: "; Num (Statistics.outstanding st)] ;;
       log info [Text "    Unfulfilled: "; Num (Statistics.unfulfilled st)]
     else ret tt) st = Ret tt st0).
  { subst st0 lines0. destruct log_statistics.
    - mrun. unfold log, modify. cbn. by rewrite <- !app_assoc.
    - rewrite app_nil_r. by destruct st. }
  rewrite (bind_Ret _ _ _ _ _ Hlog).
  assert (Hpool0 : allocations st0 !! index = Some pool) by done.
  rewrite (bind_Ret _ _ _ _ _ (release_pool_run index pool st0 Hpool0)).
  set (st1 := set_heap_released _ _).
  destruct (IH (S index) st1)
    as (st' & Hrun & Ha' & Hr' & (lines & Hl' & Hn') & Hrest).
  { destruct Hal as [Ha Hst]. subst st1. split; cbn.
    - by rewrite length_insert.
    - done. }
  { subst st1. cbn. lia. }
  exists st'. split; [exact Hrun|].
  subst st1 st0. cbn in Ha', Hr', Hl', Hrest.
  split_and!.
  - rewrite Ha'. rewrite (take_S_r _ _ []).
    + rewrite take_insert_ge by lia. by rewrite <- app_assoc.
    + apply list_lookup_insert_eq. by eapply lookup_lt_Some.
  - rewrite Hr'. rewrite drop_insert_lt by lia.
    rewrite (drop_S _ _ _ Hpool). cbn [rev].
    by rewrite concat_app, <- app_assoc; cbn; rewrite app_nil_r.
  - exists (lines0 ++ lines). split; [by rewrite Hl', <- app_assoc|].
    rewrite length_app. subst lines0.
    unfold LogLine in *.
    destruct log_statistics; cbn [length] in *; lia.
  - by destruct Hrest as (-> & _).
  - by destruct Hrest as (_ & -> & _).
  - by destruct Hrest as (_ & _ & -> & _).
  - by destruct Hrest as (_ & _ & _ & -> & _).
  - by destruct Hrest as (_ & _ & _ & _ & ->).
Qed.

(** X19. The destructor gives every retained block back to the system
    allocator and nothing else: on an engine with aligned vectors it
    completes, every pool is empty afterwards, and the blocks handed to
    delete[] are exactly the pooled blocks, class by class and within a
    class from the back of the pool.  Blocks still held by callers are not
    released; class table, statistics and memory are left as they are. *)
Theorem destructor_releases_the_pools (log_statistics : bool) (st : State) :
  aligned st ->
  exists st',
    MemoryManager_dtor log_statistics st = Ret tt st' /\
    allocations st' = replicate (length (profile st)) [] /\
    heap_released st' = concat (rev (allocations st)) ++ heap_released st /\
    profile st' = profile st /\
    statistics st' = statistics st /\
    memory st' = memory st /\
    heap_requests st' = heap_requests st.
Proof.
  intros Hal. unfold MemoryManager_dtor. mrun.
  set (st0 := set_logger _ st).
  destruct (destructor_loop_run log_statistics (length (profile st0)) 0 st0)
    as (st' & Hrun & Ha & Hr & _ & Hp & Hs & Hm & Hq & _);
    [done|done|].
  exists st'. split; [exact Hrun|].
  by split_and!.
Qed.

(** X20. What the destructor logs: the heading always, then seven lines per
    class when [log_statistics] is set and nothing more when it is not.
    Earlier log output is kept. *)
Theorem destructor_log_lines (log_statistics : bool) (st : State) :
  aligned st ->
  exists st' lines,
    MemoryManager_dtor log_statistics st = Ret tt st' /\
    logger st' = logger st ++ usage_heading :: lines /\
    length lines
      = if log_statistics then (7 * length (profile st))%nat else O.
Proof.
  intros Hal. unfold MemoryManager_dtor. mrun.
  set (st0 := set_logger _ st).
  destruct (destructor_loop_run log_statistics (length (profile st0)) 0 st0)
    as (st' & Hrun & _ & _ & (lines & Hl & Hn) & _); [done|done|].
  exists st', lines. split; [exact Hrun|].
  subst st0. cbn in Hl, Hn. by rewrite Hl, <- app_assoc.
Qed.

(** ** Construction followed by destruction *)

Lemma concat_insert_length (l : list (list Z)) (i : nat) (pool pool' : list Z) :
  l !! i = Some pool ->
  (length (concat (<[i := pool']> l)) + length pool
   = length (concat l) + length pool')%nat.
Proof.
  intros Hi.
  assert (E : (length (concat l)
               = length (concat (take i l)) + length pool
                 + length (concat (drop (S i) l)))%nat).
  { rewrite <- (take_drop_middle l i pool Hi) at 1.
    rewrite concat_app. cbn [concat]. rewrite !length_app. lia. }
  rewrite insert_take_drop by (by eapply lookup_lt_Some).
  rewrite concat_app. cbn [concat]. rewrite !length_app. lia.
Qed.

Lemma concat_rev_length (l : list (list Z)) :
  length (concat (rev l)) = length (concat l).
Proof.
  induction l as [|x l IH]; [done|].
  cbn [rev concat]. rewrite concat_app. cbn [concat].
  rewrite !length_app, IH. cbn [length]. lia.
Qed.

Section Lifecycle.

Variable operator_new : nat -> Z -> NewResult.
Hypothesis operator_new_ok : never_fails operator_new.

Lemma PerformAllocation_balance (index : nat) (st : State) :
  (index < length (profile st))%nat ->
  (index < length (allocations st))%nat ->
  (index < length (statistics st))%nat ->
  exists b st',
    PerformAllocation operator_new index st = Ret b st' /\
    balance_kept st st'.
Proof.
  intros Hp Ha Hs.
  destruct (lookup_lt_is_Some_2 _ _ Hp) as [d Hd].
  destruct (lookup_lt_is_Some_2 _ _ Ha) as [pool Hpool].
  destruct (lookup_lt_is_Some_2 _ _ Hs) as [s Hst].
  rewrite (PerformAllocation_cases _ _ _ _ _ _ Hd Hpool Hst).
  destruct (beyond_constraints d pool s); [by eexists _, _|].
  cbn zeta.
  destruct (operator_new_ok (heap_requests st) (block_bytes d))
    as (block & -> & Hpos & _).
  replace (block =? nullptr) with false by (unfold nullptr; lia).
  eexists _, _. split; [reflexivity|].
  unfold balance_kept, retained. cbn. rewrite length_insert.
  split_and!; try done.
  pose proof (concat_insert_length _ _ _ (pool ++ [block]) Hpool) as H.
  rewrite length_app in H. cbn in H. lia.
Qed.

Lemma preallocate_balance (index : nat) (count : nat) :
  forall st : State,
    (index < length (profile st))%nat ->
    (index < length (allocations st))%nat ->
    (index < length (statistics st))%nat ->
    exists st',
      preallocate operator_new count index st = Ret tt st' /\
      balance_kept st st'.
Proof.
  induction count as [|count IH]; intros st Hp Ha Hs.
  { exists st. by split. }
  cbn [preallocate].
  destruct (PerformAllocation_balance index st Hp Ha Hs)
    as (b & st1 & Hrun & H1 & H2 & H3 & H4 & H5).
  rewrite (bind_Ret _ _ _ _ _ Hrun).
  destruct (IH st1) as (st' & Hrun' & G1 & G2 & G3 & G4 & G5);
    [congruence..|].
  exists st'. split; [exact Hrun'|].
  unfold balance_kept. split_and!; try congruence. lia.
Qed.

Lemma constructor_entry_balance (index : nat) (d : MemoryDescriptor.t)
    (st : State) :
  (heap_requests (constructor_entry index d st) = heap_requests st) /\
  heap_released (constructor_entry index d st) = heap_released st /\
  retained (constructor_entry index d st) = retained st /\
  length (profile (constructor_entry index d st)) = length (profile st) /\
  length (allocations (constructor_entry index d st))
    = S (length (allocations st)) /\
  length (statistics (constructor_entry index d st))
    = S (length (statistics st)).
Proof.
  unfold constructor_entry, retained. cbn.
  rewrite concat_app, !length_app. cbn.
  split_and!; try done; try lia.
  destruct (negb _ && _); [by rewrite length_insert|done].
Qed.

Lemma constructor_loop_balance (remaining : nat) :
  forall (index : nat) (st : State),
    (index + remaining = length (profile st))%nat ->
    length (allocations st) = index ->
    length (statistics st) = index ->
    exists st',
      constructor_loop operator_new remaining index st = Ret tt st' /\
      (heap_requests st' + retained st = heap_requests st + retained st')%nat /\
      heap_released st' = heap_released st /\
      length (profile st') = length (profile st) /\
      length (allocations st') = (index + remaining)%nat /\
      length (statistics st') = (index + remaining)%nat.
Proof.
  induction remaining as [|r IH]; intros index st Hlen Ha Hs.
  { exists st. cbn. split_and!; try done; lia. }
  destruct (lookup_lt_is_Some_2 (profile st) index) as [d Hd]; [lia|].
  rewrite (constructor_loop_step _ _ _ _ _ Hd).
  destruct (constructor_entry_balance index d st)
    as (E1 & E2 & E3 & E4 & E5 & E6).
  destruct (preallocate_balance index
              (Z.to_nat (MemoryDescriptor.minimum d))
              (constructor_entry index d st))
    as (st1 & Hrun1 & H1 & H2 & H3 & H4 & H5); [lia..|].
  rewrite (bind_Ret _ _ _ _ _ Hrun1).
  destruct (IH (S index) st1) as (st' & Hrun' & G1 & G2 & G3 & G4 & G5).
  { rewrite H3. lia. }
  { lia. }
  { rewrite H4. lia. }
  exists st'. split; [exact Hrun'|].
  split_and!; try lia; congruence.
Qed.

Variable std_sort :
  (MemoryDescriptor.t -> MemoryDescriptor.t -> bool) ->
  MemoryProfile -> MemoryProfile.

(** X21. An engine that is constructed and destroyed leaks nothing: when the
    system allocator never fails, construction completes, the destructor
    completes, and the destructor has handed to delete[] exactly as many
    blocks as the constructor obtained by new-expressions. *)
Theorem construct_then_destruct_releases_every_block (self : Z)
    (input : MemoryProfile) (env : State) (log_statistics : bool) :
  exists st st',
    MemoryManager_ctor operator_new std_sort self input env = Ret tt st /\
    MemoryManager_dtor log_statistics st = Ret tt st' /\
    (length (heap_released st') + heap_requests env
     = length (heap_released env) + heap_requests st')%nat /\
    retained st' = O.
Proof.
  unfold MemoryManager_ctor, MemoryManager_body.
  set (st0 := member_init self input env).
  mrun.
  match goal with
  | |- exists _ _, constructor_loop _ ?r ?i ?s = _ /\ _ =>
    destruct (constructor_loop_balance r i s)
      as (st & Hrun & H1 & H2 & H3 & H4 & H5); [done..|]
  end.
  exists st.
  assert (Hal : aligned st).
  { split; cbn in *; lia. }
  destruct (destructor_loop_run log_statistics (length (profile st)) 0
              (set_logger (logger st ++ [usage_heading]) st))
    as (st' & Hrun' & Ha & Hr & _ & _ & _ & _ & Hq & _); [done|done|].
  exists st'. split; [exact Hrun|]. split.
  { unfold MemoryManager_dtor. mrun. exact Hrun'. }
  cbn in Ha, Hr, Hq, H1, H2, H3. unfold retained in *. cbn in H1.
  split.
  - rewrite Hr, drop_0, length_app, concat_rev_length, Hq, H2. lia.
  - rewrite Ha. clear. induction (length (profile st)); [done|].
    done.
Qed.

End Lifecycle.

(** ** MemoryAllocator<T> *)

Section Adapter.

Variable operator_new : nat -> Z -> NewResult.

(** X22. The size test of MemoryAllocator::allocate is exact and comes
    before any effect: for an element size above 0, [n] elements whose
    byte count exceeds SIZE_MAX make it throw std::bad_array_new_length
    with the engine untouched, and every other [n] reaches
    MemoryManager::Allocate with the byte count [n * sizeof(T)], which has
    not wrapped. *)
Theorem MemoryAllocator_allocate_checks_the_byte_count (sizeof_T n : Z)
    (st : State) :
  0 < sizeof_T -> 0 <= n ->
  (SIZE_MAX < n * sizeof_T /\
   MemoryAllocator_allocate operator_new sizeof_T n st
     = Throw bad_array_new_length st) \/
  (n * sizeof_T <= SIZE_MAX /\
   MemoryAllocator_allocate operator_new sizeof_T n st
     = Allocate operator_new (n * sizeof_T) st).
Proof.
  intros Hs Hn. unfold MemoryAllocator_allocate.
  destruct (Z.le_gt_cases (n * sizeof_T) SIZE_MAX) as [Hfit|Hover].
  - right. split; [done|].
    replace (n >? SIZE_MAX / sizeof_T) with false.
    + rewrite wrap64_small by (unfold SIZE_MAX in Hfit; lia).
      by rewrite Z.mul_comm.
    + symmetry. rewrite Z.gtb_ltb. apply Z.ltb_ge.
      apply Z.div_le_lower_bound; lia.
  - left. split; [done|].
    replace (n >? SIZE_MAX / sizeof_T) with true; [done|].
    symmetry. apply Z.gtb_lt. apply Z.div_lt_upper_bound; lia.
Qed.

End Adapter.

(** ** What PerformAllocation writes *)

Section Writes.

Variable operator_new : nat -> Z -> NewResult.

(** X24. PerformAllocation writes inside the block it asked for.  When
    header, payload and trailer together do not exceed SIZE_MAX, the byte
    count of the request is their sum, and a successful call has written
    only the 24 header bytes and the 8 trailer bytes of the block that the
    system allocator returned: memory before the block, the payload between
    header and trailer, and memory behind the block are as before. *)
Theorem PerformAllocation_writes_inside_the_block (index : nat) (st st' : State)
    (d : MemoryDescriptor.t) (pool : list Z) (s : Statistics.t) :
  profile st !! index = Some d ->
  allocations st !! index = Some pool ->
  statistics st !! index = Some s ->
  0 <= MemoryDescriptor.size d ->
  sizeof_MemoryHeader + MemoryDescriptor.size d + sizeof_MemoryTrailer
    <= SIZE_MAX ->
  PerformAllocation operator_new index st = Ret true st' ->
  exists block,
    operator_new (heap_requests st)
      (sizeof_MemoryHeader + MemoryDescriptor.size d + sizeof_MemoryTrailer)
      = NewPtr block /\
    allocations st' = <[index := pool ++ [block]]> (allocations st) /\
    (0 <= block ->
     block + sizeof_MemoryHeader + MemoryDescriptor.size d
       + sizeof_MemoryTrailer <= 2 ^ 64 ->
     forall a,
       a < block \/
       block + sizeof_MemoryHeader <= a
         < block + sizeof_MemoryHeader + MemoryDescriptor.size d \/
       block + sizeof_MemoryHeader + MemoryDescriptor.size d
         + sizeof_MemoryTrailer <= a ->
       load8 (memory st') a = load8 (memory st) a).
Proof.
  intros Hd Hpool Hs Hsize Hfit Hrun.
  rewrite (PerformAllocation_cases _ _ _ _ _ _ Hd Hpool Hs) in Hrun.
  destruct (beyond_constraints d pool s); [discriminate|].
  cbn zeta in Hrun.
  assert (Hbytes : block_bytes d = sizeof_MemoryHeader + MemoryDescriptor.size d
                                   + sizeof_MemoryTrailer).
  { unfold block_bytes. apply wrap64_small.
    unfold SIZE_MAX, sizeof_MemoryHeader, sizeof_MemoryTrailer in *. lia. }
  rewrite Hbytes in Hrun.
  destruct (operator_new (heap_requests st) _) as [block|]; [|discriminate].
  destruct (block =? nullptr); [discriminate|].
  injection Hrun as <-.
  exists block. split_and!; [done|done|].
  intros Hpos Hin a Ha. cbn [memory set_allocations set_memory]. unfold stamp.
  unfold sizeof_MemoryHeader, sizeof_MemoryTrailer, offsetof_memory_manager,
    offsetof_index, offsetof_marker, store64 in *.
  rewrite !load8_store_bytes_outside; [done|..];
    rewrite wrap64_small by lia; cbn; lia.
Qed.

End Writes.

(** ** The embedding against the expectations of test_memory_manager.cpp *)

(* MemMgr.Basic: one zeroed statistics entry per descriptor. *)
Example test_Basic :
  GetStatistics (engine bump_heap excess_profile) =
    Ret (map (fun d => Statistics.zero (MemoryDescriptor.size d)) excess_profile)
        (engine bump_heap excess_profile).
Proof. by vm_compute. Qed.

(* MemMgr.Exhaustion: of twenty requests the first ten succeed, and the
   unfulfilled counters end at 15 and 10. *)
Example test_Exhaustion :
  exists ps st,
    Allocate_each bump_heap (replicate 20 32) (engine bump_heap exhaustion_profile)
      = Ret ps st /\
    Forall (fun p => p <> nullptr) (take 10 ps) /\
    drop 10 ps = replicate 10 nullptr /\
    statistics st =
      [Statistics.mk 64 5 0 0 5 5 15; Statistics.mk 256 5 0 0 5 5 10].
Proof.
  eexists _, _. split; [by vm_compute|].
  split; [|split]; [|by vm_compute..].
  vm_compute. repeat constructor; discriminate.
Qed.

(* MemMgr.Corruption: freeing the overrun block counts one corruption in
   class 1 and nothing is outstanding. *)
Example test_Corruption :
  exists st,
    Free overrun_pointer overrun_engine = Ret true st /\
    statistics st !! 1%nat = Some (Statistics.mk 256 1 1 1 1 0 0).
Proof. eexists. split; by vm_compute. Qed.

(* MemMgr.ManyAllocateFree: a block given back is the next one handed out. *)
Example test_AllocateFree :
  value_of (Allocate bump_heap 128) freed_once = Some overrun_pointer /\
  heap_requests freed_once = heap_requests (engine bump_heap excess_profile).
Proof. split; by vm_compute. Qed.

(* The profiles of the examples have at most 16 descriptors: on them the
   std::sort of the GNU C++ library is its insertion sort and leaves
   descriptors of equal size in their input order, like [stable_sort]. *)
Example std_sort_on_short_profiles :
  Forall (fun l => std.sort size_less l = stable_sort size_less l)
    [ excess_profile; exhaustion_profile; rev exhaustion_profile;
      surplus_profile; [];
      [MemoryDescriptor.mk 64 0 0 true; MemoryDescriptor.mk 64 0 0 false];
      [MemoryDescriptor.mk 64 5 2 false] ].
Proof. repeat constructor; by vm_compute. Qed.

(** ** The statements at work on the scenarios of the test suite *)

Lemma bump_heap_never_fails : never_fails bump_heap.
Proof.
  intros k n. eexists. split; [reflexivity|].
  unfold valid_block, sizeof_MemoryHeader.
  pose proof (Z.mod_pos_bound (Z.of_nat k) (2 ^ 32) ltac:(lia)). lia.
Qed.

(* MemMgr.Corruption: the overrun block is counted and discarded. *)
Lemma Free_corrupt_block_witness :
  exists st' s',
    Free overrun_pointer overrun_engine = Ret true st' /\
    Statistics.deallocations s' = 1 /\
    Statistics.outstanding s' = 0 /\
    Statistics.corruption_count s' = 1 /\
    allocations st' = allocations overrun_engine.
Proof.
  destruct (Free_corrupt_block overrun_pointer overrun_engine
              (MemoryDescriptor.mk 256 2 10 true)
              (Statistics.mk 256 1 0 0 1 1 0))
    as (st' & s' & HF & Hst & Hde & Hout & _ & Hco & _ & _ & _ & _ & Hal & _).
  - by vm_compute.
  - by vm_compute.
  - by vm_compute.
  - by vm_compute.
  - by vm_compute.
  - by vm_compute.
  - right. by vm_compute.
  - exists st', s'. split; [exact HF|].
    split; [exact Hde|].
    split; [apply Hout; by vm_compute|].
    split; [exact Hco|exact Hal].
Defined.

(* Class 0 of MemMgr.Exhaustion, five blocks out: growth is refused. *)
Lemma growth_gate_witness :
  PerformAllocation bump_heap 0 class0_exhausted = Ret false class0_exhausted.
Proof.
  destruct (growth_gate bump_heap 0 class0_exhausted
              (MemoryDescriptor.mk 64 5 5 false) [] (Statistics.mk 64 5 0 0 5 5 0))
    as ([_ Hrefused] & _).
  - by vm_compute.
  - by vm_compute.
  - by vm_compute.
  - apply Hrefused. split; [|split]; by vm_compute.
Defined.

(* The sixth request of MemMgr.Exhaustion is served by class 1, and class 0
   records it as unfulfilled. *)
Lemma Allocate_takes_first_available_witness :
  exists (index : nat) (p : Z) (st' : State),
    Allocate bump_heap 32 class0_exhausted = Ret p st' /\
    p <> nullptr /\
    index = 1%nat /\
    Statistics.unfulfilled <$> statistics st' !! 0%nat = Some 1 /\
    Statistics.allocations <$> statistics st' !! 1%nat = Some 1.
Proof.
  pose (p := default 0 (value_of (Allocate bump_heap 32) class0_exhausted)).
  pose (st' := state_after (Allocate bump_heap 32) class0_exhausted).
  assert (Hrun : Allocate bump_heap 32 class0_exhausted = Ret p st')
    by (by vm_compute).
  assert (Hp : p <> nullptr) by (by vm_compute).
  destruct (Allocate_takes_first_available bump_heap 32 class0_exhausted p st')
    as (index & d & pool & s & s' & block & Hd & _).
  - split; by vm_compute.
  - exact Hrun.
  - exact Hp.
  - exists 1%nat, p, st'.
    split; [exact Hrun|]. split; [exact Hp|]. split; [reflexivity|].
    split; by vm_compute.
Defined.

(* MemMgr.AllocationsExcess, three requests of 128 bytes. *)
Lemma excess_allowed_never_fails_witness :
  exists st ps st',
    MemoryManager_ctor bump_heap stable_sort 4096 excess_profile empty_process
      = Ret tt st /\
    Allocate_each bump_heap [128; 128; 128] st = Ret ps st' /\
    length ps = length [128; 128; 128] /\
    Forall (fun p => p <> nullptr) ps.
Proof.
  apply (excess_allowed_never_fails stable_sort stable_sort_contract bump_heap
           4096 excess_profile empty_process [128; 128; 128]).
  - exact bump_heap_never_fails.
  - repeat constructor; by left.
  - repeat constructor; (exists 65536; split; [reflexivity|by vm_compute]).
Defined.

(* The table of the profile of MemMgr.Exhaustion, given in descending
   order. *)
Lemma class_table_sorted_and_fixed_witness :
  profile (engine bump_heap (rev exhaustion_profile)) =
    map repaired (stable_sort size_less (rev exhaustion_profile)) /\
  length (profile (engine bump_heap (rev exhaustion_profile))) =
    length (rev exhaustion_profile).
Proof.
  destruct (class_table_sorted_and_fixed stable_sort stable_sort_contract
              bump_heap 4096 (rev exhaustion_profile) empty_process
              (engine bump_heap (rev exhaustion_profile)))
    as (Hp & _ & Hlen & _).
  - by vm_compute.
  - split; [exact Hp|exact Hlen].
Defined.

(* The block given back once is accepted a second time, and then handed
   out twice. *)
Lemma double_free_goes_undetected_witness :
  exists st' ps st'',
    Free overrun_pointer freed_once = Ret true st' /\
    Allocate_each bump_heap [128; 128; 128] st' = Ret ps st'' /\
    exists k1 k2 : nat,
      k1 <> k2 /\
      ps !! k1 = Some overrun_pointer /\ ps !! k2 = Some overrun_pointer.
Proof.
  destruct (double_free_goes_undetected bump_heap freed_once 851968 1
              (MemoryDescriptor.mk 256 2 10 true)
              [720896; 851968]
              (Statistics.mk 256 1 1 0 1 0 0))
    as (st' & s' & HF & _ & _ & Hdup).
  - split; by vm_compute.
  - by vm_compute.
  - split; by vm_compute.
  - by vm_compute.
  - by vm_compute.
  - by vm_compute.
  - by vm_compute.
  - by vm_compute.
  - by vm_compute.
  - by vm_compute.
  - apply list_elem_of_In. right. left. reflexivity.
  - destruct Hdup as (_ & _ & Hdrain); [right; by vm_compute|].
    destruct (Hdrain 128) as (ps & st'' & Hrun & Hk).
    + intros [|[|j]] dj Hj; [|lia..].
      vm_compute. intros [= <-]. reflexivity.
    + by vm_compute.
    + exists st', ps, st''.
      split; [exact HF|]. split; [exact Hrun|exact Hk].
Defined.

(** ** The further statements at work *)

(* MemMgr.Corruption without the overrun: the block goes back on the pool. *)
Lemma Free_returns_block_to_pool_witness :
  exists st',
    Free overrun_pointer taken_once = Ret true st' /\
    allocations st' !! 1%nat = Some [720896; 851968] /\
    heap_released st' = [].
Proof.
  destruct (Free_returns_block_to_pool overrun_pointer taken_once
              (MemoryDescriptor.mk 256 2 10 true)
              (Statistics.mk 256 1 0 0 1 1 0) [720896])
    as (st' & s' & HF & Ha & _ & _ & _ & _ & _ & _ & _ & _ & Hr & _).
  - by vm_compute.
  - by vm_compute.
  - by vm_compute.
  - by vm_compute.
  - by vm_compute.
  - by vm_compute.
  - by vm_compute.
  - by vm_compute.
  - by vm_compute.
  - right. by vm_compute.
  - exists st'. split; [exact HF|]. split.
    + rewrite Ha. by vm_compute.
    + rewrite Hr. by vm_compute.
Defined.

(* The second block of a class that keeps one goes to delete[]. *)
Lemma Free_releases_when_pool_is_full_witness :
  exists st',
    Free 196632 surplus_engine = Ret true st' /\
    allocations st' = [[65536]] /\
    heap_released st' = [196608].
Proof.
  destruct (Free_releases_when_pool_is_full 196632 surplus_engine
              (MemoryDescriptor.mk 64 1 1 true)
              (Statistics.mk 64 2 1 0 2 1 0) [65536])
    as (st' & HF & Ha & Hr & _).
  - by vm_compute.
  - by vm_compute.
  - by vm_compute.
  - by vm_compute.
  - by vm_compute.
  - by vm_compute.
  - by vm_compute.
  - by vm_compute.
  - by vm_compute.
  - by vm_compute.
  - by vm_compute.
  - exists st'. split; [exact HF|]. split.
    + rewrite Ha. by vm_compute.
    + rewrite Hr. by vm_compute.
Defined.

(* Giving back the block of class 1 leaves class 0 alone. *)
Lemma Free_touches_one_class_witness :
  statistics (state_after (Free overrun_pointer) taken_once) !! 0%nat
    = statistics taken_once !! 0%nat /\
  allocations (state_after (Free overrun_pointer) taken_once) !! 0%nat
    = allocations taken_once !! 0%nat.
Proof.
  destruct (Free_touches_one_class overrun_pointer taken_once true
              (state_after (Free overrun_pointer) taken_once))
    as (_ & _ & _ & _ & Hother).
  - by vm_compute.
  - apply (Hother 0%nat). by vm_compute.
Defined.

(* MemMgr.Basic asks for more than the largest class holds. *)
Lemma Allocate_too_large_changes_nothing_witness :
  Allocate bump_heap 100000 taken_once = Ret nullptr taken_once.
Proof.
  apply (Allocate_too_large_changes_nothing bump_heap 100000 taken_once).
  replace (profile taken_once) with excess_profile by (by vm_compute).
  unfold excess_profile. repeat constructor; by vm_compute.
Defined.

(* The eleventh request of MemMgr.Exhaustion. *)
Lemma Allocate_refused_everywhere_witness :
  Allocate bump_heap 32 all_exhausted
    = Ret nullptr (refused_everywhere 32 all_exhausted).
Proof.
  apply (Allocate_refused_everywhere bump_heap 32 all_exhausted).
  - split; by vm_compute.
  - intros i d pool s Hd Hpool Hs _.
    destruct i as [|[|i]]; vm_compute in Hd, Hpool, Hs;
      [| |discriminate];
      injection Hd as <-; injection Hpool as <-; injection Hs as <-;
      split; by vm_compute.
Defined.

(* The first request of MemMgr.Corruption takes the back of pool 1. *)
Lemma Allocate_takes_the_back_of_the_pool_witness :
  exists st',
    Allocate bump_heap 128 (engine bump_heap excess_profile)
      = Ret overrun_pointer st' /\
    allocations st' !! 1%nat = Some [720896] /\
    heap_requests st' = 10%nat.
Proof.
  destruct (Allocate_takes_the_back_of_the_pool bump_heap 128 1
              (MemoryDescriptor.mk 256 2 10 true)
              (Statistics.mk 256 0 0 0 0 0 0) [720896] 851968
              (engine bump_heap excess_profile))
    as (st' & HA & Ha & _ & Hq & _).
  - split; by vm_compute.
  - by vm_compute.
  - by vm_compute.
  - by vm_compute.
  - intros j dj Hj Hdj. destruct j as [|j]; [|lia].
    vm_compute in Hdj. injection Hdj as <-. by vm_compute.
  - by vm_compute.
  - exists st'. split; [exact HA|]. split.
    + rewrite Ha. by vm_compute.
    + rewrite Hq. by vm_compute.
Defined.


Lemma max_outstanding_is_a_high_water_mark_witness :
  Forall2
    (fun s s' =>
       Statistics.max_outstanding s <= Statistics.max_outstanding s' /\
       (Statistics.outstanding s <= Statistics.max_outstanding s ->
        Statistics.outstanding s' <= Statistics.max_outstanding s'))
    (statistics (engine bump_heap excess_profile))
    (statistics
       (state_after (perform_all bump_heap session)
                    (engine bump_heap excess_profile))).
Proof.
  apply (max_outstanding_is_a_high_water_mark bump_heap session).
  - split; by vm_compute.
  - by vm_compute.
Defined.

Lemma statistics_sizes_are_fixed_witness :
  map Statistics.size
      (statistics
         (state_after (perform_all bump_heap session)
                      (engine bump_heap excess_profile)))
  = [64; 256; 512; 1500; 65536].
Proof.
  rewrite (statistics_sizes_are_fixed bump_heap session
             (engine bump_heap excess_profile)).
  - by vm_compute.
  - split; by vm_compute.
  - by vm_compute.
Defined.

Lemma retained_blocks_stay_within_maximum_witness :
  within_maximum
    (state_after (perform_all bump_heap session)
                 (engine bump_heap excess_profile)).
Proof.
  apply (retained_blocks_stay_within_maximum stable_sort stable_sort_contract
           bump_heap 4096 excess_profile empty_process
           (engine bump_heap excess_profile) session).
  - unfold excess_profile. repeat constructor; by vm_compute.
  - by vm_compute.
  - by vm_compute.
Defined.

Lemma construction_zeroes_statistics_witness :
  GetStatistics (engine bump_heap exhaustion_profile)
    = Ret [Statistics.mk 64 0 0 0 0 0 0; Statistics.mk 256 0 0 0 0 0 0]
          (engine bump_heap exhaustion_profile).
Proof.
  rewrite (construction_zeroes_statistics stable_sort bump_heap 4096
             exhaustion_profile empty_process
             (engine bump_heap exhaustion_profile)).
  - by vm_compute.
  - by vm_compute.
Defined.

(* a descriptor whose maximum is below its minimum *)
Lemma construction_repairs_maximum_witness :
  MemoryDescriptor.maximum
    <$> profile (engine bump_heap [MemoryDescriptor.mk 64 5 2 false]) !! 0%nat
  = Some 5.
Proof.
  pose proof (construction_repairs_maximum stable_sort bump_heap 4096
                [MemoryDescriptor.mk 64 5 2 false] empty_process
                (engine bump_heap [MemoryDescriptor.mk 64 5 2 false])
                ltac:(by vm_compute)) as H.
  destruct (Forall2_lookup_l _ _ _ 0%nat (MemoryDescriptor.mk 64 5 2 false) H)
    as (d & Hd & _ & _ & _ & Hmax & _); [by vm_compute|].
  rewrite Hd. cbn [fmap option_fmap option_map]. f_equal.
  rewrite Hmax. by vm_compute.
Defined.

Lemma construction_reserves_minimum_witness :
  exists st,
    MemoryManager_ctor bump_heap stable_sort 4096 excess_profile empty_process
      = Ret tt st /\
    length <$> allocations st = [5; 2; 2; 1; 0]%nat.
Proof.
  destruct (construction_reserves_minimum stable_sort bump_heap 4096
              excess_profile empty_process bump_heap_never_fails)
    as (st & Hrun & _).
  exists st. split; [exact Hrun|].
  assert (st = engine bump_heap excess_profile) as ->.
  { assert (H : MemoryManager_ctor bump_heap stable_sort 4096 excess_profile
                  empty_process = Ret tt (engine bump_heap excess_profile))
      by (by vm_compute).
    congruence. }
  by vm_compute.
Defined.

(* A request of 2000 bytes makes class 4 grow; the caller fills part of
   the payload and gives the block back. *)
Lemma fresh_block_round_trip_witness :
  exists st1 st2,
    Allocate bump_heap 2000 (engine bump_heap excess_profile)
      = Ret (1376256 + sizeof_MemoryHeader) st1 /\
    Free (1376256 + sizeof_MemoryHeader)
         (set_memory (memset (memory st1) 1376280 255 2000) st1)
      = Ret true st2 /\
    allocations st2 !! 4%nat = Some [1376256] /\
    heap_released st2 = [].
Proof.
  destruct (fresh_block_round_trip bump_heap 2000 4
              (MemoryDescriptor.mk 65536 0 1 true)
              (Statistics.mk 65536 0 0 0 0 0 0) 1376256
              (engine bump_heap excess_profile))
    as (st1 & HA & HF).
  - split; by vm_compute.
  - by vm_compute.
  - split; by vm_compute.
  - by vm_compute.
  - by vm_compute.
  - by vm_compute.
  - intros j dj Hj Hdj.
    destruct j as [|[|[|[|j]]]]; [| | | |lia];
      vm_compute in Hdj; injection Hdj as <-; by vm_compute.
  - by vm_compute.
  - by vm_compute.
  - by vm_compute.
  - by vm_compute.
  - by vm_compute.
  - by vm_compute.
  - by vm_compute.
  - destruct (HF (memset (memory st1) 1376280 255 2000))
      as (st2 & HF2 & Ha & _ & _ & Hr & _).
    + intros a Ha. apply load8_memset_outside.
      unfold sizeof_MemoryHeader in Ha. cbn in Ha. lia.
    + exists st1, st2. split; [exact HA|]. split; [exact HF2|]. split.
      * rewrite Ha. by vm_compute.
      * rewrite Hr. by vm_compute.
Defined.

(* MemMgr.AllocateFree: a block of class 1 is taken, written all over and
   given back. *)
Lemma pooled_block_round_trip_witness :
  exists st1 st2,
    Allocate bump_heap 128 (engine bump_heap excess_profile)
      = Ret (851968 + sizeof_MemoryHeader) st1 /\
    Free (851968 + sizeof_MemoryHeader)
         (set_memory
            (memset (memory (engine bump_heap excess_profile)) 851992 255 256)
            st1)
      = Ret true st2 /\
    allocations st2 = allocations (engine bump_heap excess_profile).
Proof.
  destruct (pooled_block_round_trip bump_heap 128 1
              (MemoryDescriptor.mk 256 2 10 true)
              (Statistics.mk 256 0 0 0 0 0 0) [720896] 851968
              (engine bump_heap excess_profile)
              (memset (memory (engine bump_heap excess_profile)) 851992 255 256))
    as (st1 & st2 & s' & HA & HF & Ha & _).
  - split; by vm_compute.
  - intros i d pool Hd Hpool _.
    destruct i as [|[|[|[|[|i]]]]]; vm_compute in Hd, Hpool;
      [| | | | |discriminate];
      injection Hd as <-; injection Hpool as <-; by vm_compute.
  - by vm_compute.
  - by vm_compute.
  - by vm_compute.
  - by vm_compute.
  - intros j dj Hj Hdj. destruct j as [|j]; [|lia].
    vm_compute in Hdj. injection Hdj as <-. by vm_compute.
  - by vm_compute.
  - split; by vm_compute.
  - split; by vm_compute.
  - by vm_compute.
  - by vm_compute.
  - by vm_compute.
  - by vm_compute.
  - exists st1, st2. split; [exact HA|]. split; [exact HF|exact Ha].
Defined.

(* The block of MemMgr.Corruption, given back intact, is served again. *)
Lemma Allocate_reuses_last_freed_block_witness :
  exists st1 st2,
    Free (851968 + sizeof_MemoryHeader) taken_once = Ret true st1 /\
    Allocate bump_heap 128 st1 = Ret (851968 + sizeof_MemoryHeader) st2 /\
    allocations st2 = allocations taken_once.
Proof.
  destruct (Allocate_reuses_last_freed_block bump_heap 128 1
              (MemoryDescriptor.mk 256 2 10 true)
              (Statistics.mk 256 1 0 0 1 1 0) [720896] 851968 taken_once)
    as (st1 & st2 & HF & HA & Ha & _).
  - split; by vm_compute.
  - by vm_compute.
  - split; by vm_compute.
  - by vm_compute.
  - by vm_compute.
  - by vm_compute.
  - by vm_compute.
  - by vm_compute.
  - by vm_compute.
  - by vm_compute.
  - right. by vm_compute.
  - intros j dj Hj Hdj. destruct j as [|j]; [|lia].
    vm_compute in Hdj. injection Hdj as <-. by vm_compute.
  - by vm_compute.
  - exists st1, st2. split; [exact HF|]. split; [exact HA|exact Ha].
Defined.

(* Destruction while one block of class 1 is out: the ten pooled blocks
   are released, the eleventh is not. *)
Lemma destructor_releases_the_pools_witness :
  exists st',
    MemoryManager_dtor true taken_once = Ret tt st' /\
    allocations st' = [[]; []; []; []; []] /\
    heap_released st'
      = [1245184; 983040; 1114112; 720896;
         65536; 196608; 327680; 458752; 589824].
Proof.
  destruct (destructor_releases_the_pools true taken_once)
    as (st' & Hrun & Ha & Hr & _).
  - split; by vm_compute.
  - exists st'. split; [exact Hrun|]. split.
    + rewrite Ha. by vm_compute.
    + rewrite Hr. by vm_compute.
Defined.

Lemma destructor_log_lines_witness :
  exists st' lines,
    MemoryManager_dtor true taken_once = Ret tt st' /\
    logger st' = logger taken_once ++ usage_heading :: lines /\
    length lines = 35%nat.
Proof.
  destruct (destructor_log_lines true taken_once)
    as (st' & lines & Hrun & Hl & Hn).
  - split; by vm_compute.
  - exists st', lines. split; [exact Hrun|]. split; [exact Hl|].
    rewrite Hn. by vm_compute.
Defined.

Lemma construct_then_destruct_releases_every_block_witness :
  exists st st',
    MemoryManager_ctor bump_heap stable_sort 4096 excess_profile empty_process
      = Ret tt st /\
    MemoryManager_dtor false st = Ret tt st' /\
    (length (heap_released st') + heap_requests empty_process
     = length (heap_released empty_process) + heap_requests st')%nat /\
    retained st' = O.
Proof.
  exact (construct_then_destruct_releases_every_block bump_heap
           bump_heap_never_fails stable_sort 4096 excess_profile
           empty_process false).
Defined.

(* 2^61 elements of eight bytes *)
Lemma MemoryAllocator_allocate_checks_the_byte_count_witness :
  MemoryAllocator_allocate bump_heap 8 (2 ^ 61) taken_once
    = Throw bad_array_new_length taken_once.
Proof.
  destruct (MemoryAllocator_allocate_checks_the_byte_count bump_heap 8
              (2 ^ 61) taken_once) as [[_ H]|[Hle _]].
  - lia.
  - lia.
  - exact H.
  - unfold SIZE_MAX in Hle. lia.
Defined.

(* Growth of class 4: the first payload byte is not written. *)
Lemma PerformAllocation_writes_inside_the_block_witness :
  exists block,
    bump_heap 10 (sizeof_MemoryHeader + 65536 + sizeof_MemoryTrailer)
      = NewPtr block /\
    load8 (memory (state_after (PerformAllocation bump_heap 4)
                               (engine bump_heap excess_profile)))
          (block + sizeof_MemoryHeader)
      = load8 (memory (engine bump_heap excess_profile))
              (block + sizeof_MemoryHeader).
Proof.
  destruct (PerformAllocation_writes_inside_the_block bump_heap 4
              (engine bump_heap excess_profile)
              (state_after (PerformAllocation bump_heap 4)
                           (engine bump_heap excess_profile))
              (MemoryDescriptor.mk 65536 0 1 true) []
              (Statistics.mk 65536 0 0 0 0 0 0))
    as (block & Hnew & _ & Hframe).
  - by vm_compute.
  - by vm_compute.
  - by vm_compute.
  - by vm_compute.
  - by vm_compute.
  - by vm_compute.
  - exists block. split; [exact Hnew|].
    assert (block = 1376256) as -> by (vm_compute in Hnew; congruence).
    apply Hframe; unfold sizeof_MemoryHeader, sizeof_MemoryTrailer; cbn; lia.
Defined.

End MemoryManager.
